(** * FormQ: the hybrid field-resolution pipeline, embedded and verified

    A shallow embedding of the TypeScript sources of FormQ (static field
    matcher, security denylist, response validator, prompt builder, RAG
    context packer, vector store, embedding service, response cache and
    LLM orchestrator) together with the properties proved about them.

    Conventions of the embedding:
    - JavaScript strings are [string]s of 8-bit characters; the character
      classes [\s] and [\w] and [toLowerCase] are the ASCII ones.
    - The numbers that the vector store computes with (the components of
      the stored and of the query embeddings, similarities, the threshold)
      are IEEE 754 doubles, [float] with the primitive operations of
      [PrimFloat]; [Math.sqrt] is [PrimFloat.sqrt].
    - The other JavaScript numbers that carry a score (confidences, the
      similarity of a retrieved chunk) are only compared and copied, and so
      are the vectors that the embedding service passes on; they are exact
      rationals [Q] and lists of them.
    - Counters, lengths, token counts and timestamps are [nat] or [Z].
    - A JavaScript [Map] whose iteration order matters is an association
      list in insertion order; the IndexedDB object store is a [gmap].
    - [undefined]/[null] are [None]; a thrown exception is the left
      injection of the [Result] monad. *)

From Stdlib Require Import Ascii String ZArith QArith List Permutation Sorted.
From Stdlib Require Import DecimalString Decimal.
From Stdlib Require Import Floats.
From stdpp Require Import base option strings gmap.

Local Open Scope Z_scope.

(* ===================================================================== *)
(** ** JavaScript string primitives *)
(* ===================================================================== *)

Module JS.

(** [\s] restricted to ASCII: space, TAB, LF, VT, FF, CR. *)
Definition is_space (c : ascii) : bool :=
  let n := nat_of_ascii c in
  Nat.eqb n 32 || (Nat.leb 9 n && Nat.leb n 13).

(** [\w] is [[A-Za-z0-9_]]. *)
Definition is_word (c : ascii) : bool :=
  let n := nat_of_ascii c in
  (Nat.leb 65 n && Nat.leb n 90) || (Nat.leb 97 n && Nat.leb n 122)
  || (Nat.leb 48 n && Nat.leb n 57) || Nat.eqb n 95.

Definition lower_ascii (c : ascii) : ascii :=
  let n := nat_of_ascii c in
  if Nat.leb 65 n && Nat.leb n 90 then ascii_of_nat (n + 32) else c.

Fixpoint toLowerCase (s : string) : string :=
  match s with
  | EmptyString => EmptyString
  | String c s' => String (lower_ascii c) (toLowerCase s')
  end.

Fixpoint trimStart (s : string) : string :=
  match s with
  | EmptyString => EmptyString
  | String c s' => if is_space c then trimStart s' else s
  end.

Definition is_empty (s : string) : bool :=
  match s with EmptyString => true | _ => false end.

Fixpoint trimEnd (s : string) : string :=
  match s with
  | EmptyString => EmptyString
  | String c s' =>
      let r := trimEnd s' in
      if is_space c && is_empty r then EmptyString else String c r
  end.

Definition trim (s : string) : string := trimEnd (trimStart s).

(** [s.replace(/\s+/g, ' ')]: [in_run] tells that the previous character
    was white space and has already produced its single blank. *)
Fixpoint collapse_ws (in_run : bool) (s : string) : string :=
  match s with
  | EmptyString => EmptyString
  | String c s' =>
      if is_space c
      then if in_run then collapse_ws true s'
           else String " "%char (collapse_ws true s')
      else String c (collapse_ws false s')
  end.

(** [s.replace(/[^\w\s-]/g, '')]. *)
Fixpoint strip_punct (s : string) : string :=
  match s with
  | EmptyString => EmptyString
  | String c s' =>
      if is_word c || is_space c || Ascii.eqb c "-"%char
      then String c (strip_punct s')
      else strip_punct s'
  end.

(** [s.includes(sub)]. *)
Fixpoint includes (s sub : string) : bool :=
  String.prefix sub s ||
  match s with
  | EmptyString => false
  | String _ s' => includes s' sub
  end.

(** [s.slice(0, n)] for [0 <= n]. *)
Definition slice0 (s : string) (n : nat) : string := String.substring 0 n s.

(** [a.slice(0, stop)] on an array, for an integer [stop]: a negative
    [stop] counts from the end of the array. *)
Definition slice_to {A : Type} (a : list A) (stop : Z) : list A :=
  if stop <? 0
  then firstn (length a - Z.to_nat (- stop)) a
  else firstn (Z.to_nat stop) a.

(** Truthiness of a string value: the empty string is falsy. *)
Definition truthy (s : string) : bool := negb (is_empty s).

(** [a || b] on possibly-missing strings, keeping only what a later
    truthiness test can see: a falsy result is [None]. *)
Definition or_else (a b : option string) : option string :=
  match a with
  | Some v => if truthy v then Some v else
                match b with Some w => if truthy w then Some w else None | None => None end
  | None => match b with Some w => if truthy w then Some w else None | None => None end
  end.

(** [arr.join(sep)]. *)
Fixpoint join (sep : string) (l : list string) : string :=
  match l with
  | [] => ""
  | [x] => x
  | x :: rest => x +:+ sep +:+ join sep rest
  end.

(** [String(n)] for a non-negative integer. *)
Definition nat_to_string (n : nat) : string :=
  NilEmpty.string_of_uint (Nat.to_uint n).

(** [charCodeAt]. *)
Definition charCode (c : ascii) : Z := Z.of_nat (nat_of_ascii c).

(** [ToInt32]: wrap an integer into the signed 32-bit range. *)
Definition toInt32 (z : Z) : Z :=
  let m := z mod 4294967296 in
  if 2147483648 <=? m then m - 4294967296 else m.

End JS.

(* ===================================================================== *)
(** ** The regular expressions of the fuzzy pattern table *)
(* ===================================================================== *)

Module Regex.

Inductive regex : Type :=
| Void                      (* matches nothing *)
| Eps                       (* the empty word *)
| Chr (c : ascii)           (* one character, compared ignoring case *)
| Space                     (* \s *)
| Cls (p : ascii -> bool)   (* a character class *)
| Seq (r1 r2 : regex)
| Alt (r1 r2 : regex)
| Star (r : regex).

Definition Opt (r : regex) : regex := Alt r Eps.

Fixpoint Lit (s : string) : regex :=
  match s with
  | EmptyString => Eps
  | String c s' => Seq (Chr c) (Lit s')
  end.

Fixpoint nullable (r : regex) : bool :=
  match r with
  | Void => false
  | Eps => true
  | Chr _ => false
  | Space => false
  | Cls _ => false
  | Seq r1 r2 => nullable r1 && nullable r2
  | Alt r1 r2 => nullable r1 || nullable r2
  | Star _ => true
  end.

(** Brzozowski derivative; the [i] flag is built in. *)
Fixpoint deriv (a : ascii) (r : regex) : regex :=
  match r with
  | Void => Void
  | Eps => Void
  | Chr c => if Ascii.eqb (JS.lower_ascii a) (JS.lower_ascii c) then Eps else Void
  | Space => if JS.is_space a then Eps else Void
  | Cls p => if p a then Eps else Void
  | Seq r1 r2 =>
      if nullable r1
      then Alt (Seq (deriv a r1) r2) (deriv a r2)
      else Seq (deriv a r1) r2
  | Alt r1 r2 => Alt (deriv a r1) (deriv a r2)
  | Star r1 => Seq (deriv a r1) (Star r1)
  end.

(** Some prefix of [s] matches [r]. *)
Fixpoint matches_prefix (r : regex) (s : string) : bool :=
  nullable r ||
  match s with
  | EmptyString => false
  | String c s' => matches_prefix (deriv c r) s'
  end.

(** [pattern.test(s)] for a pattern without anchors. *)
Fixpoint test (r : regex) (s : string) : bool :=
  matches_prefix r s ||
  match s with
  | EmptyString => false
  | String _ s' => test r s'
  end.

(** An anchored pattern [/^r$/]: the whole of [s] matches [r]. *)
Fixpoint fullmatch (r : regex) (s : string) : bool :=
  match s with
  | EmptyString => nullable r
  | String c s' => fullmatch (deriv c r) s'
  end.

Definition Plus (r : regex) : regex := Seq r (Star r).

(** [r{n}] and [r{m,m+k}]. *)
Fixpoint Times (n : nat) (r : regex) : regex :=
  match n with
  | O => Eps
  | S n' => Seq r (Times n' r)
  end.

Fixpoint UpTo (k : nat) (r : regex) : regex :=
  match k with
  | O => Eps
  | S k' => Opt (Seq r (UpTo k' r))
  end.

Definition Range (m k : nat) (r : regex) : regex := Seq (Times m r) (UpTo k r).

Definition is_digit (c : ascii) : bool :=
  let n := nat_of_ascii c in Nat.leb 48 n && Nat.leb n 57.

(** [.] excludes the line terminators. *)
Definition is_dot (c : ascii) : bool :=
  let n := nat_of_ascii c in negb (Nat.eqb n 10 || Nat.eqb n 13).

Fixpoint alts (l : list regex) : regex :=
  match l with
  | [] => Void
  | [r] => r
  | r :: rest => Alt r (alts rest)
  end.

End Regex.

(* ===================================================================== *)
(** ** Shared types (form.ts, profile.ts, storage.ts) *)
(* ===================================================================== *)

Inductive InputType : Type :=
| it_text | it_email | it_tel | it_url | it_password
| it_number | it_date | it_datetime_local | it_time
| it_select | it_radio | it_checkbox | it_textarea
| it_hidden | it_file | it_unknown.

Inductive SemanticClass : Type :=
| first_name | last_name | full_name
| email | phone | address_line1 | address_line2
| city | state | zip | country
| company | job_title | website
| username | password
| date_of_birth | message
| unknown.

Definition InputType_eqb (a b : InputType) : bool :=
  match a, b with
  | it_text, it_text | it_email, it_email | it_tel, it_tel | it_url, it_url
  | it_password, it_password | it_number, it_number | it_date, it_date
  | it_datetime_local, it_datetime_local | it_time, it_time
  | it_select, it_select | it_radio, it_radio | it_checkbox, it_checkbox
  | it_textarea, it_textarea | it_hidden, it_hidden | it_file, it_file
  | it_unknown, it_unknown => true
  | _, _ => false
  end.

Definition SemanticClass_eqb (a b : SemanticClass) : bool :=
  match a, b with
  | first_name, first_name | last_name, last_name | full_name, full_name
  | email, email | phone, phone | address_line1, address_line1
  | address_line2, address_line2 | city, city | state, state | zip, zip
  | country, country | company, company | job_title, job_title
  | website, website | username, username | password, password
  | date_of_birth, date_of_birth | message, message | unknown, unknown => true
  | _, _ => false
  end.

Definition InputType_to_string (t : InputType) : string :=
  match t with
  | it_text => "text" | it_email => "email" | it_tel => "tel" | it_url => "url"
  | it_password => "password" | it_number => "number" | it_date => "date"
  | it_datetime_local => "datetime-local" | it_time => "time"
  | it_select => "select" | it_radio => "radio" | it_checkbox => "checkbox"
  | it_textarea => "textarea" | it_hidden => "hidden" | it_file => "file"
  | it_unknown => "unknown"
  end.

Definition SemanticClass_to_string (c : SemanticClass) : string :=
  match c with
  | first_name => "first_name" | last_name => "last_name" | full_name => "full_name"
  | email => "email" | phone => "phone" | address_line1 => "address_line1"
  | address_line2 => "address_line2" | city => "city" | state => "state"
  | zip => "zip" | country => "country" | company => "company"
  | job_title => "job_title" | website => "website" | username => "username"
  | password => "password" | date_of_birth => "date_of_birth"
  | message => "message" | unknown => "unknown"
  end.

Record FieldAttributes : Type := {
  attr_name : option string;
  attr_id : option string;
  attr_placeholder : option string;
  attr_autocomplete : option string;
  attr_ariaLabel : option string
}.

Record FieldContext : Type := {
  labelText : option string;
  siblingText : option string;
  parentText : option string;
  position : Z * Z
}.

Record FieldSignature : Type := {
  fs_id : string;
  domPath : string;
  inputType : InputType;
  normalizedLabel : string;
  semanticClass : SemanticClass;
  attributes : FieldAttributes;
  context : FieldContext
}.

Record FormSignature : Type := {
  form_id : string;
  url : string;
  domain : string;
  formIndex : Z;
  fields : list FieldSignature;
  detectedAt : Z
}.

Inductive MappingSource : Type := src_llm | src_cache | src_static | src_learned.

Record FieldMapping : Type := {
  fieldSignature : FieldSignature;
  value : string;
  confidence : Q;
  source : MappingSource
}.

Inductive FieldCategory : Type :=
| cat_personal | cat_contact | cat_professional | cat_education | cat_custom.

Record ContextField : Type := {
  key : string;
  cf_value : string;
  category : FieldCategory;
  isEncrypted : bool
}.

Inductive DocumentType : Type := doc_resume | doc_cover_letter | doc_other.

Definition DocumentType_to_string (t : DocumentType) : string :=
  match t with
  | doc_resume => "resume" | doc_cover_letter => "cover_letter" | doc_other => "other"
  end.

Record ContextDocument : Type := {
  doc_id : string;
  doc_name : string;
  content : string;
  doc_type : DocumentType;
  doc_embedding : option (list Q)
}.

Record StaticContext : Type := {
  sc_fields : list ContextField;
  documents : list ContextDocument;
  knowledgeBase : option string;
  knowledgeBaseChunks : option nat
}.

(** The learned examples, URL bindings and settings of a profile play no
    part in the functions embedded here and are left out of the record. *)
Record Profile : Type := {
  profile_id : string;
  profile_name : string;
  staticContext : StaticContext
}.

Inductive SourceType : Type := st_learned_example | st_document | st_knowledge_base.

Record VectorEntry : Type := {
  ve_id : string;
  ve_profileId : string;
  embedding : list float;
  sourceType : SourceType;
  sourceId : string;
  ve_text : string;
  ve_createdAt : Z
}.

(* ===================================================================== *)
(** ** shared/constants/fieldDenylist.ts *)
(* ===================================================================== *)

Module FieldDenylist.

Definition FIELD_DENYLIST : list string :=
  [ "password"; "passwd"; "pwd"; "current-password"; "new-password";
    "confirm-password"; "confirmpassword"; "password_confirmation";
    "otp"; "2fa"; "totp"; "verification-code"; "verificationcode"; "mfa";
    "pin"; "security-code"; "securitycode";
    "cvv"; "cvc"; "cvv2"; "cvc2"; "card-cvc"; "card-cvv"; "security-number";
    "token"; "csrf"; "nonce"; "captcha"; "recaptcha"; "hcaptcha";
    "ssn"; "social-security"; "socialsecurity"; "tax-id"; "taxid";
    "routing-number"; "routingnumber"; "account-number"; "accountnumber" ].

Definition AUTOCOMPLETE_DENYLIST : list string :=
  [ "new-password"; "current-password"; "one-time-code"; "cc-csc" ].

Definition set_has (l : list string) (s : string) : bool :=
  existsb (String.eqb s) l.

Definition isFieldDenylisted (field : FieldSignature) : bool :=
  if InputType_eqb (inputType field) it_password then true
  else if
    match attr_autocomplete (attributes field) with
    | Some ac =>
        JS.truthy ac &&
        set_has AUTOCOMPLETE_DENYLIST (JS.trim (JS.toLowerCase ac))
    | None => false
    end
  then true
  else
    let labelLower := JS.toLowerCase (normalizedLabel field) in
    if existsb (fun denied => JS.includes labelLower denied) FIELD_DENYLIST
    then true
    else
      let nameAttr := JS.toLowerCase (default "" (attr_name (attributes field))) in
      let idAttr := JS.toLowerCase (default "" (attr_id (attributes field))) in
      existsb (fun denied => JS.includes nameAttr denied || JS.includes idAttr denied)
              FIELD_DENYLIST.


(** [getDenylistReason]: the reason shown for a skipped field. *)
Definition getDenylistReason (field : FieldSignature) : option string :=
  if InputType_eqb (inputType field) it_password
  then Some "Password fields are never auto-filled"
  else
    match
      match attr_autocomplete (attributes field) with
      | Some ac =>
          if JS.truthy ac &&
             set_has AUTOCOMPLETE_DENYLIST (JS.trim (JS.toLowerCase ac))
          then Some (JS.trim (JS.toLowerCase ac)) else None
      | None => None
      end
    with
    | Some autocomplete =>
        Some ("Autocomplete attribute " +:+ String (ascii_of_nat 34) EmptyString
              +:+ autocomplete +:+ String (ascii_of_nat 34) EmptyString
              +:+ " indicates sensitive field")
    | None =>
        let labelLower := JS.toLowerCase (normalizedLabel field) in
        match List.find (fun denied => JS.includes labelLower denied) FIELD_DENYLIST with
        | Some denied =>
            Some ("Field label contains " +:+ String (ascii_of_nat 34) EmptyString
                  +:+ denied +:+ String (ascii_of_nat 34) EmptyString)
        | None => None
        end
    end.

End FieldDenylist.

(* ===================================================================== *)
(** ** shared/utils: normalizeText *)
(* ===================================================================== *)

Definition normalizeText (text : string) : string :=
  JS.strip_punct (JS.collapse_ws false (JS.trim (JS.toLowerCase text))).

(* ===================================================================== *)
(** ** shared/matching: the field mapper *)
(* ===================================================================== *)

Module FieldMapper.
Import Regex.

Definition SEMANTIC_TO_PROFILE_KEY (c : SemanticClass) : list string :=
  match c with
  | first_name => ["firstName"; "first_name"; "givenName"]
  | last_name => ["lastName"; "last_name"; "familyName"; "surname"]
  | full_name => ["fullName"; "full_name"; "name"]
  | date_of_birth => ["dateOfBirth"; "dob"; "birthDate"]
  | email => ["email"; "emailAddress"; "email_address"]
  | phone => ["phone"; "phoneNumber"; "phone_number"; "mobile"; "telephone"]
  | address_line1 => ["address"; "addressLine1"; "address_line1"; "street"; "streetAddress"]
  | address_line2 => ["addressLine2"; "address_line2"; "apt"; "suite"; "unit"]
  | city => ["city"; "town"; "locality"]
  | state => ["state"; "province"; "region"]
  | zip => ["zip"; "zipCode"; "zip_code"; "postalCode"; "postal_code"]
  | country => ["country"; "countryName"]
  | company => ["company"; "organization"; "employer"; "companyName"]
  | job_title => ["jobTitle"; "job_title"; "title"; "position"; "role"]
  | website => ["website"; "url"; "homepage"; "personalWebsite"]
  | username => ["username"; "user"; "login"]
  | password => []
  | message => ["message"; "comment"; "note"; "description"]
  | unknown => []
  end.

(** [profileFields.find(f => f.key === key)]. *)
Definition findField (profileFields : list ContextField) (k : string)
  : option ContextField :=
  List.find (fun f => String.eqb (key f) k) profileFields.

(** The loop over candidate keys: the first key whose profile field has
    a truthy value gives that value. *)
Fixpoint firstKeyValue (profileFields : list ContextField) (keys : list string)
  : option string :=
  match keys with
  | [] => None
  | k :: rest =>
      match findField profileFields k with
      | Some pf =>
          if JS.truthy (cf_value pf) then Some (cf_value pf)
          else firstKeyValue profileFields rest
      | None => firstKeyValue profileFields rest
      end
  end.

Definition mkStatic (field : FieldSignature) (v : string) (c : Q) : FieldMapping :=
  {| fieldSignature := field; value := v; confidence := c; source := src_static |}.

Definition ws_star : regex := Star Space.

Definition fuzzyPatterns : list (regex * list string) :=
  [ (alts [Seq (Lit "first") (Seq ws_star (Lit "name")); Lit "fname"; Lit "given"],
     ["firstName"; "first_name"; "givenName"]);
    (alts [Seq (Lit "last") (Seq ws_star (Lit "name")); Lit "lname"; Lit "surname"; Lit "family"],
     ["lastName"; "last_name"; "familyName"]);
    (alts [Seq (Lit "full") (Seq ws_star (Lit "name")); Seq (Lit "your") (Seq ws_star (Lit "name"))],
     ["fullName"; "full_name"; "name"]);
    (Seq (Lit "e") (Seq (Opt (Lit "-")) (Lit "mail")),
     ["email"; "emailAddress"; "email_address"]);
    (alts [Lit "phone"; Lit "mobile"; Lit "cell"; Lit "tel"],
     ["phone"; "phoneNumber"; "phone_number"]);
    (alts [Lit "company"; Lit "organization"; Lit "employer"],
     ["company"; "companyName"]);
    (alts [Lit "title"; Lit "position"; Lit "role"],
     ["jobTitle"; "job_title"]);
    (alts [Lit "city"; Lit "town"], ["city"]);
    (alts [Lit "state"; Lit "province"], ["state"]);
    (alts [Lit "zip"; Lit "postal"], ["zip"; "zipCode"; "postalCode"]);
    (alts [Lit "address"; Lit "street"], ["address"; "addressLine1"; "address_line1"]) ].

(** First tier of [tryFuzzyMatch]: a profile key equal to the label once
    both are normalised. *)
Fixpoint exactKeyMatch (label : string) (profileFields : list ContextField)
  : option ContextField :=
  match profileFields with
  | [] => None
  | pf :: rest =>
      if String.eqb (JS.toLowerCase (normalizeText (key pf))) label
      then Some pf
      else exactKeyMatch label rest
  end.

(** Second tier: the pattern table, in order; a pattern that matches but
    finds no truthy value falls through to the next pattern. *)
Fixpoint patternMatch (label : string) (profileFields : list ContextField)
         (patterns : list (regex * list string)) : option string :=
  match patterns with
  | [] => None
  | (pattern, keys) :: rest =>
      if test pattern label
      then match firstKeyValue profileFields keys with
           | Some v => Some v
           | None => patternMatch label profileFields rest
           end
      else patternMatch label profileFields rest
  end.

(** Third tier: containment either way between label and key. *)
Fixpoint partialKeyMatch (label : string) (profileFields : list ContextField)
  : option ContextField :=
  match profileFields with
  | [] => None
  | pf :: rest =>
      let normalizedKey := JS.toLowerCase (normalizeText (key pf)) in
      if JS.includes normalizedKey label || JS.includes label normalizedKey
      then Some pf
      else partialKeyMatch label rest
  end.

Definition tryFuzzyMatch (field : FieldSignature) (profileFields : list ContextField)
  : option FieldMapping :=
  let label := JS.toLowerCase (normalizeText (normalizedLabel field)) in
  match exactKeyMatch label profileFields with
  | Some pf => Some (mkStatic field (cf_value pf) (95 # 100))
  | None =>
      match patternMatch label profileFields fuzzyPatterns with
      | Some v => Some (mkStatic field v (8 # 10))
      | None =>
          match partialKeyMatch label profileFields with
          | Some pf => Some (mkStatic field (cf_value pf) (7 # 10))
          | None => None
          end
      end
  end.

(** The body of the loop of [mapFieldsToProfile] for one field. *)
Definition mapField (profileFields : list ContextField) (field : FieldSignature)
  : option FieldMapping :=
  if SemanticClass_eqb (semanticClass field) password then None
  else
    let semantic :=
      if SemanticClass_eqb (semanticClass field) unknown then None
      else match firstKeyValue profileFields
                   (SEMANTIC_TO_PROFILE_KEY (semanticClass field)) with
           | Some v => Some (mkStatic field v 1)
           | None => None
           end in
    match semantic with
    | Some m => Some m
    | None => tryFuzzyMatch field profileFields
    end.

Fixpoint mapFields (profileFields : list ContextField) (fs : list FieldSignature)
  : list FieldMapping :=
  match fs with
  | [] => []
  | field :: rest =>
      match mapField profileFields field with
      | Some m => m :: mapFields profileFields rest
      | None => mapFields profileFields rest
      end
  end.

Definition mapFieldsToProfile (fs : list FieldSignature) (profile : Profile)
  : list FieldMapping :=
  mapFields (sc_fields (staticContext profile)) fs.

Definition hasClass (c : SemanticClass) (fs : list FieldSignature) : bool :=
  existsb (fun f => SemanticClass_eqb (semanticClass f) c) fs.

Definition findClass (c : SemanticClass) (fs : list FieldSignature)
  : option FieldSignature :=
  List.find (fun f => SemanticClass_eqb (semanticClass f) c) fs.

Definition isMapped (mappings : list FieldMapping) (f : FieldSignature) : bool :=
  existsb (fun m => String.eqb (fs_id (fieldSignature m)) (fs_id f)) mappings.

(** [s.split(/\s+/)]: [in_sep] tells that the previous character was
    white space, whose run is a single separator; [cur] is the current
    piece, reversed. *)
Fixpoint split_ws (in_sep : bool) (cur : string) (s : string) : list string :=
  match s with
  | EmptyString => [String.rev cur]
  | String c s' =>
      if JS.is_space c
      then if in_sep then split_ws true cur s'
           else String.rev cur :: split_ws true "" s'
      else split_ws false (String c cur) s'
  end.

Definition createSuggestedMappings (fs : list FieldSignature) (profile : Profile)
  : list FieldMapping :=
  let mappings := mapFieldsToProfile fs profile in
  let profileFields := sc_fields (staticContext profile) in
  let hasFirstNameField := hasClass first_name fs in
  let hasLastNameField := hasClass last_name fs in
  let hasFullNameField := hasClass full_name fs in
  let findValue k := cf_value <$> findField profileFields k in
  let isNone {A} (o : option A) := match o with None => true | Some _ => false end in
  (* a combined name in the profile, split name fields in the form *)
  let mappings :=
    if negb hasFullNameField && hasFirstNameField && hasLastNameField then
      match JS.or_else (findValue "fullName") (findValue "full_name") with
      | Some fullName =>
          if isNone (findField profileFields "firstName")
             && isNone (findField profileFields "lastName") then
            match split_ws false "" (JS.trim fullName) with
            | firstName :: ((_ :: _) as others) =>
                let lastName := JS.join " " others in
                let mappings :=
                  match findClass first_name fs with
                  | Some firstNameField =>
                      if negb (isMapped mappings firstNameField)
                      then mappings ++ [mkStatic firstNameField firstName (9 # 10)]
                      else mappings
                  | None => mappings
                  end in
                match findClass last_name fs with
                | Some lastNameField =>
                    if negb (isMapped mappings lastNameField)
                    then mappings ++ [mkStatic lastNameField lastName (9 # 10)]
                    else mappings
                | None => mappings
                end
            | _ => mappings
            end
          else mappings
      | None => mappings
      end
    else mappings in
  (* split names in the profile, a combined name field in the form *)
  if hasFullNameField && negb hasFirstNameField && negb hasLastNameField then
    match JS.or_else (findValue "firstName") (findValue "first_name"),
          JS.or_else (findValue "lastName") (findValue "last_name") with
    | Some firstName, Some lastName =>
        if isNone (findField profileFields "fullName") then
          match findClass full_name fs with
          | Some fullNameField =>
              if negb (isMapped mappings fullNameField)
              then mappings ++ [mkStatic fullNameField
                                  (firstName +:+ " " +:+ lastName) (9 # 10)]
              else mappings
          | None => mappings
          end
        else mappings
    | _, _ => mappings
    end
  else mappings.

Definition filterHighConfidenceMappings (mappings : list FieldMapping) (threshold : Q)
  : list FieldMapping :=
  List.filter (fun m => Qle_bool threshold (confidence m)) mappings.


(** [getFillSummary]: the labels of the first five mappings. *)
Definition getFillSummary (mappings : list FieldMapping) : string :=
  match mappings with
  | [] => "No fields to fill"
  | _ =>
      let fieldNames := firstn 5 (map (fun m => normalizedLabel (fieldSignature m)) mappings) in
      let remaining := (length mappings - length fieldNames)%nat in
      if Nat.ltb 0 remaining
      then JS.join ", " fieldNames +:+ " and " +:+ JS.nat_to_string remaining +:+ " more"
      else JS.join ", " fieldNames
  end.

End FieldMapper.

(* ===================================================================== *)
(** ** Exceptions *)
(* ===================================================================== *)

Inductive OpenRouterErrorCode : Type :=
| INVALID_API_KEY | RATE_LIMITED | MODEL_NOT_FOUND | CONTEXT_LENGTH_EXCEEDED
| CONTENT_FILTERED | SERVER_ERROR | NETWORK_ERROR | UNKNOWN.

(** What a [throw] can carry: an [OpenRouterError], any other [Error], or
    a value that is not an [Error] at all. *)
Inductive JsError : Type :=
| OpenRouterError (msg : string) (code : OpenRouterErrorCode)
| Error (msg : string)
| NonError.

Definition error_message (e : JsError) : option string :=
  match e with
  | OpenRouterError msg _ => Some msg
  | Error msg => Some msg
  | NonError => None
  end.

Inductive Result (A : Type) : Type :=
| Ok (a : A)
| Throw (e : JsError).
Arguments Ok {A} a.
Arguments Throw {A} e.

Definition bind {A B : Type} (m : Result A) (k : A -> Result B) : Result B :=
  match m with
  | Ok a => k a
  | Throw e => Throw e
  end.

(** [try { body } catch (error) { handler }]. *)
Definition try_catch {A : Type} (body : Result A) (handler : JsError -> Result A)
  : Result A :=
  match body with
  | Ok a => Ok a
  | Throw e => handler e
  end.

Notation "'let!' x ':=' m 'in' k" := (bind m (fun x => k))
  (at level 10, x name, m at level 200, k at level 200, only parsing).

(* ===================================================================== *)
(** ** content/FillExecutor.ts: the denylist gate of executeFill *)
(* ===================================================================== *)

Module FillExecutor.

(** The mappings whose field passes the denylist test at the head of
    the loop of [executeFill]. *)
Definition attempted (mappings : list FieldMapping) : list FieldMapping :=
  List.filter (fun m => negb (FieldDenylist.isFieldDenylisted (fieldSignature m))) mappings.

Record FillReport : Type := {
  success : bool;
  filledCount : nat;
  errors : list string
}.

(** The two ways in which [executeFill] touches the page: it looks up
    the element of a field signature, and it fills the element found
    for a signature with a value. *)
Inductive PageCall : Type :=
| find_element (signature : FieldSignature)
| fill_field (signature : FieldSignature) (v : string).

Definition call_signature (c : PageCall) : FieldSignature :=
  match c with
  | find_element signature => signature
  | fill_field signature _ => signature
  end.

Section Page.

(** The page, as [executeFill] meets it while it works through the
    mappings: the element that [findFieldElement] finds for the [i]-th
    mapping, what [fillField] does on it, the [onProgress] callback of
    the options, and [String(error)] for a thrown value that is not an
    [Error]. *)
Variable Element : Type.
Variable findFieldElement : nat -> FieldSignature -> option Element.
Variable fillField : nat -> Element -> string -> Result unit.
Variable onProgress : option (nat -> nat -> string -> Result unit).
Variable String_of : JsError -> string.

Definition failed (mapping : FieldMapping) (error : JsError) : string :=
  "Failed to fill " +:+ normalizedLabel (fieldSignature mapping) +:+ ": "
  +:+ default (String_of error) (error_message error).

(** The [for] loop; the delay between two fields only waits.  [calls]
    records the calls of [findFieldElement] and [fillField], in order. *)
Fixpoint executeFill_loop (i total : nat) (mappings : list FieldMapping)
         (filled : nat) (errs : list string) (calls : list PageCall)
  : nat * list string * list PageCall :=
  match mappings with
  | [] => (filled, errs, calls)
  | mapping :: rest =>
      if FieldDenylist.isFieldDenylisted (fieldSignature mapping)
      then executeFill_loop (S i) total rest filled errs calls
      else
        let calls := calls ++ [find_element (fieldSignature mapping)] in
        match findFieldElement i (fieldSignature mapping) with
        | None =>
            executeFill_loop (S i) total rest filled
              (errs ++ ["Field not found: " +:+ normalizedLabel (fieldSignature mapping)])
              calls
        | Some element =>
            let calls :=
              calls ++ [fill_field (fieldSignature mapping) (value mapping)] in
            match fillField i element (value mapping) with
            | Throw e =>
                executeFill_loop (S i) total rest filled (errs ++ [failed mapping e]) calls
            | Ok _ =>
                match onProgress with
                | Some callback =>
                    match callback (S i) total
                                   (normalizedLabel (fieldSignature mapping)) with
                    | Throw e =>
                        executeFill_loop (S i) total rest (S filled)
                                         (errs ++ [failed mapping e]) calls
                    | Ok _ => executeFill_loop (S i) total rest (S filled) errs calls
                    end
                | None => executeFill_loop (S i) total rest (S filled) errs calls
                end
            end
        end
  end.

Definition executeFill (mappings : list FieldMapping) : FillReport :=
  let '(filled, errs, _) := executeFill_loop 0 (length mappings) mappings 0 [] [] in
  {| success := Nat.eqb (length errs) 0; filledCount := filled; errors := errs |}.

(** What one run of [executeFill] asks of the page. *)
Definition pageCalls (mappings : list FieldMapping) : list PageCall :=
  snd (executeFill_loop 0 (length mappings) mappings 0 [] []).

End Page.

End FillExecutor.

(* ===================================================================== *)
(** ** background/ai/ResponseValidator.ts *)
(* ===================================================================== *)

Module ResponseValidator.
Import Regex.

Inductive ValidationErrorType : Type :=
| INVALID_JSON | INVALID_FIELD_ID | INVALID_VALUE_TYPE | SECURITY_VIOLATION.

Inductive ValidationWarningType : Type :=
| LOW_CONFIDENCE | TYPE_MISMATCH | EMPTY_VALUE.

Record ValidationError : Type := {
  err_type : ValidationErrorType;
  err_message : string;
  err_fieldId : option string
}.

Record ValidationWarning : Type := {
  warn_type : ValidationWarningType;
  warn_message : string;
  warn_fieldId : option string
}.

Record ValidationResult : Type := {
  valid : bool;
  vr_mappings : list FieldMapping;
  errors : list ValidationError;
  warnings : list ValidationWarning
}.

Definition dq : string := String (ascii_of_nat 34) EmptyString.

Definition not_space_at (c : ascii) : bool :=
  negb (JS.is_space c || Ascii.eqb c "@"%char).

Definition EMAIL_PATTERN : regex :=
  Seq (Plus (Cls not_space_at))
      (Seq (Chr "@") (Seq (Plus (Cls not_space_at))
                          (Seq (Chr ".") (Plus (Cls not_space_at))))).

Definition is_phone_char (c : ascii) : bool :=
  is_digit c || JS.is_space c || Ascii.eqb c "-"%char || Ascii.eqb c "+"%char
  || Ascii.eqb c "("%char || Ascii.eqb c ")"%char || Ascii.eqb c "."%char.

Definition PHONE_PATTERN : regex := Range 7 13 (Cls is_phone_char).

(** [/^https?:\/\/.+/i], anchored at the start only. *)
Definition URL_PATTERN : regex :=
  Seq (Lit "http") (Seq (Opt (Chr "s")) (Seq (Lit "://") (Plus (Cls is_dot)))).

Definition DATE_PATTERN : regex :=
  Seq (Times 4 (Cls is_digit))
      (Seq (Chr "-") (Seq (Times 2 (Cls is_digit))
                          (Seq (Chr "-") (Times 2 (Cls is_digit))))).

Definition is_zip_char (c : ascii) : bool :=
  is_digit c || Ascii.eqb c "-"%char || JS.is_space c.

Definition ZIP_PATTERN : regex := Range 3 7 (Cls is_zip_char).

Definition Qmin (a b : Q) : Q := if Qle_bool a b then a else b.

Section Validator.

(** [JSON.parse] with the clean-up around it, and [isNaN(Number(s))],
    are the two built-ins the validator relies on.  [parseJSON] gives
    the entries of the parsed object in the order [Object.entries]
    visits them (keys are unique), or throws. *)
Variable parseJSON : string -> Result (list (string * string)).
Variable Number_isNaN : string -> bool.

Definition mismatch (field : FieldSignature) (msg : string) : ValidationWarning :=
  {| warn_type := TYPE_MISMATCH; warn_message := msg;
     warn_fieldId := Some (fs_id field) |}.

Definition validateValueType (v : string) (field : FieldSignature)
  : Q * option ValidationWarning :=
  let trimmedValue := JS.trim v in
  let quoted := "Value " +:+ dq +:+ trimmedValue +:+ dq in
  let '(confidence, warning) :=
    match inputType field with
    | it_email =>
        if negb (fullmatch EMAIL_PATTERN trimmedValue)
        then (5 # 10, Some (mismatch field (quoted +:+ " may not be a valid email")))
        else (9 # 10, None)
    | it_tel =>
        if negb (fullmatch PHONE_PATTERN trimmedValue)
        then (6 # 10, Some (mismatch field (quoted +:+ " may not be a valid phone number")))
        else (9 # 10, None)
    | it_url =>
        if negb (matches_prefix URL_PATTERN trimmedValue)
        then (5 # 10, Some (mismatch field (quoted +:+ " may not be a valid URL")))
        else (9 # 10, None)
    | it_date =>
        if negb (fullmatch DATE_PATTERN trimmedValue)
        then (6 # 10, Some (mismatch field (quoted +:+ " may not be in expected date format")))
        else (9 # 10, None)
    | it_number =>
        if Number_isNaN trimmedValue
        then (4 # 10, Some (mismatch field (quoted +:+ " is not a valid number")))
        else (9 # 10, None)
    | _ => (9 # 10, None)
    end in
  let confidence :=
    if SemanticClass_eqb (semanticClass field) zip
       && negb (fullmatch ZIP_PATTERN trimmedValue)
    then Qmin confidence (6 # 10) else confidence in
  let confidence :=
    if SemanticClass_eqb (semanticClass field) email
       && negb (fullmatch EMAIL_PATTERN trimmedValue)
    then Qmin confidence (5 # 10) else confidence in
  (confidence, warning).

(** [fieldMap.get(fieldId)]: the map was filled in form order, so a
    later field with the same id has replaced an earlier one. *)
Definition fieldMap_get (form : FormSignature) (fieldId : string)
  : option FieldSignature :=
  List.find (fun f => String.eqb (fs_id f) fieldId) (rev (fields form)).

Record Acc : Type := {
  acc_mappings : list FieldMapping;
  acc_errors : list ValidationError;
  acc_warnings : list ValidationWarning
}.

(** One turn of the loop over the entries of the parsed object. *)
Definition step (form : FormSignature) (acc : Acc) (entry : string * string) : Acc :=
  let '(fieldId, v) := entry in
  match fieldMap_get form fieldId with
  | None =>
      {| acc_mappings := acc_mappings acc;
         acc_errors := acc_errors acc ++
           [{| err_type := INVALID_FIELD_ID;
               err_message := "Field ID " +:+ dq +:+ fieldId +:+ dq +:+ " not found in form";
               err_fieldId := Some fieldId |}];
         acc_warnings := acc_warnings acc |}
  | Some field =>
      if FieldDenylist.isFieldDenylisted field then
        {| acc_mappings := acc_mappings acc;
           acc_errors := acc_errors acc ++
             [{| err_type := SECURITY_VIOLATION;
                 err_message := "Field " +:+ dq +:+ fieldId +:+ dq +:+ " is on security denylist";
                 err_fieldId := Some fieldId |}];
           acc_warnings := acc_warnings acc |}
      else if negb (JS.truthy v) || JS.is_empty (JS.trim v) then
        {| acc_mappings := acc_mappings acc;
           acc_errors := acc_errors acc;
           acc_warnings := acc_warnings acc ++
             [{| warn_type := EMPTY_VALUE;
                 warn_message := "Empty value for field " +:+ dq +:+ fieldId +:+ dq;
                 warn_fieldId := Some fieldId |}] |}
      else
        let '(confidence, warning) := validateValueType v field in
        {| acc_mappings := acc_mappings acc ++
             [{| fieldSignature := field; value := JS.trim v;
                 confidence := confidence; source := src_llm |}];
           acc_errors := acc_errors acc;
           acc_warnings := acc_warnings acc ++
             match warning with Some w => [w] | None => [] end |}
  end.

Definition is_blocking (e : ValidationError) : bool :=
  match err_type e with
  | INVALID_JSON | SECURITY_VIOLATION => true
  | _ => false
  end.

Definition validate (rawResponse : string) (form : FormSignature) : ValidationResult :=
  match parseJSON rawResponse with
  | Throw e =>
      {| valid := false; vr_mappings := [];
         errors := [{| err_type := INVALID_JSON;
                       err_message := default "Invalid JSON response" (error_message e);
                       err_fieldId := None |}];
         warnings := [] |}
  | Ok parsed =>
      let acc := fold_left (step form) parsed
                   {| acc_mappings := []; acc_errors := []; acc_warnings := [] |} in
      let hasBlockingErrors := existsb is_blocking (acc_errors acc) in
      {| valid := negb hasBlockingErrors && Nat.ltb 0 (length (acc_mappings acc));
         vr_mappings := acc_mappings acc;
         errors := acc_errors acc;
         warnings := acc_warnings acc |}
  end.

End Validator.

(** The [Map] of [mergeWithStaticMappings], keyed by field id, as an
    association list in insertion order: [set] on a key already there
    replaces the value where it stands, otherwise appends. *)
Fixpoint map_set (m : list (string * FieldMapping)) (k : string) (v : FieldMapping)
  : list (string * FieldMapping) :=
  match m with
  | [] => [(k, v)]
  | (k', v') :: rest =>
      if String.eqb k' k then (k', v) :: rest else (k', v') :: map_set rest k v
  end.

Fixpoint map_get (m : list (string * FieldMapping)) (k : string) : option FieldMapping :=
  match m with
  | [] => None
  | (k', v') :: rest => if String.eqb k' k then Some v' else map_get rest k
  end.

Definition addStatic (result : list (string * FieldMapping)) (mapping : FieldMapping) :=
  map_set result (fs_id (fieldSignature mapping)) mapping.

Definition Qgtb (a b : Q) : bool := negb (Qle_bool a b).

Definition addLLM (result : list (string * FieldMapping)) (mapping : FieldMapping) :=
  match map_get result (fs_id (fieldSignature mapping)) with
  | None => map_set result (fs_id (fieldSignature mapping)) mapping
  | Some existing =>
      if Qgtb (confidence mapping) (confidence existing)
      then map_set result (fs_id (fieldSignature mapping)) mapping
      else result
  end.

Definition mergeWithStaticMappings (llmMappings staticMappings : list FieldMapping)
  : list FieldMapping :=
  let result := fold_left addStatic staticMappings [] in
  let result := fold_left addLLM llmMappings result in
  map snd result.

End ResponseValidator.

(* ===================================================================== *)
(** ** background/ai/PromptBuilder.ts *)
(* ===================================================================== *)

Module PromptBuilder.

Definition nl : string := String (ascii_of_nat 10) EmptyString.
Definition dq : string := String (ascii_of_nat 34) EmptyString.

Definition SYSTEM_PROMPT : string :=
  JS.join nl
    [ "You are a form-filling assistant. Your task is to analyze form fields and provide appropriate values from the user's profile data.";
      "";
      "RULES:";
      "1. Return ONLY a valid JSON object mapping field IDs to values";
      "2. Only include fields you can confidently fill";
      "3. Never fill password, OTP, CVV, or security-related fields";
      "4. Match data types appropriately (email format for email fields, etc.)";
      "5. If unsure about a field, omit it from the response";
      "6. Use exact field IDs from the input";
      "";
      "RESPONSE FORMAT:";
      "{";
      "  " +:+ dq +:+ "fieldId1" +:+ dq +:+ ": " +:+ dq +:+ "value1" +:+ dq +:+ ",";
      "  " +:+ dq +:+ "fieldId2" +:+ dq +:+ ": " +:+ dq +:+ "value2" +:+ dq;
      "}" ].

Definition CHARS_PER_TOKEN : Z := 4.
Definition DEFAULT_MAX_TOKENS : Z := 3000.

Record PromptContext : Type := {
  pc_profile : Profile;
  pc_formSignature : FormSignature;
  pc_ragContext : option (list string);
  pc_maxTokens : option Z
}.

Record BuiltPrompt : Type := {
  systemPrompt : string;
  userPrompt : string;
  estimatedTokens : Z
}.

Record FieldSchemaEntry : Type := {
  fse_id : string;
  fse_label : string;
  fse_type : string;
  fse_semanticClass : string;
  fse_placeholder : option string
}.

(** [Math.ceil(text.length / CHARS_PER_TOKEN)]. *)
Definition estimateTokens (text : string) : Z :=
  (Z.of_nat (String.length text) + CHARS_PER_TOKEN - 1) / CHARS_PER_TOKEN.

(** The loop [for (const [key, field] of Object.entries(fields))]:
    [fields] is an array, so [Object.entries] pairs each element with
    its index; [i] is the index of the head of [fs]. *)
Fixpoint fieldEntries (i : nat) (fs : list ContextField) : list string :=
  match fs with
  | [] => []
  | field :: rest =>
      if JS.truthy (cf_value field) && negb (isEncrypted field)
      then (JS.nat_to_string i +:+ ": " +:+ cf_value field) :: fieldEntries (S i) rest
      else fieldEntries (S i) rest
  end.

Fixpoint documentEntries (docs : list ContextDocument) : list string :=
  match docs with
  | [] => []
  | doc :: rest =>
      if JS.truthy (content doc)
      then
        let summary := JS.slice0 (content doc) 500 in
        ("[" +:+ DocumentType_to_string (doc_type doc) +:+ "] " +:+ doc_name doc
           +:+ ": " +:+ summary
           +:+ (if Nat.ltb 500 (String.length (content doc)) then "..." else ""))
          :: documentEntries rest
      else documentEntries rest
  end.

Definition buildProfileContext (profile : Profile) : string :=
  JS.join nl
    (fieldEntries 0 (sc_fields (staticContext profile))
     ++ documentEntries (documents (staticContext profile))).

Definition schemaEntries (form : FormSignature) : list FieldSchemaEntry :=
  map (fun field =>
         {| fse_id := fs_id field;
            fse_label := normalizedLabel field;
            fse_type := InputType_to_string (inputType field);
            fse_semanticClass := SemanticClass_to_string (semanticClass field);
            fse_placeholder := attr_placeholder (attributes field) |})
      (List.filter (fun field => negb (FieldDenylist.isFieldDenylisted field)) (fields form)).

Fixpoint exampleLines (i : nat) (l : list string) : list string :=
  match l with
  | [] => []
  | ex :: rest =>
      ("Example " +:+ JS.nat_to_string (S i) +:+ ": " +:+ ex) :: exampleLines (S i) rest
  end.

Definition buildRAGSection (ragContext : list string) : string :=
  match ragContext with
  | [] => ""
  | _ => nl +:+ "Previous successful fills for similar forms:" +:+ nl
            +:+ JS.join nl (exampleLines 0 ragContext)
  end.

Section Builder.

(** [JSON.stringify(fields, null, 2)]. *)
Variable JSON_stringify : list FieldSchemaEntry -> string.

Definition buildFormSchema (form : FormSignature) : string :=
  JSON_stringify (schemaEntries form).

Definition assembleUserPrompt (profileContext formSchema ragSection : string)
           (maxTokens : Z) : string :=
  let prompt := "PROFILE DATA:" +:+ nl +:+ profileContext +:+ nl +:+ nl
                +:+ "FORM FIELDS TO FILL:" +:+ nl +:+ formSchema in
  let prompt :=
    if JS.truthy ragSection
    then if estimateTokens prompt + estimateTokens ragSection <? maxTokens
         then prompt +:+ ragSection else prompt
    else prompt in
  prompt +:+ nl +:+ nl +:+
  "Based on the profile data above, provide values for the form fields. Return ONLY a JSON object mapping field IDs to values.".

Definition buildPrompt (ctx : PromptContext) : BuiltPrompt :=
  let maxTokens := default DEFAULT_MAX_TOKENS (pc_maxTokens ctx) in
  let profileContext := buildProfileContext (pc_profile ctx) in
  let formSchema := buildFormSchema (pc_formSignature ctx) in
  let ragSection :=
    match pc_ragContext ctx with
    | Some (x :: rest) => buildRAGSection (x :: rest)
    | _ => ""
    end in
  let userPrompt := assembleUserPrompt profileContext formSchema ragSection maxTokens in
  {| systemPrompt := SYSTEM_PROMPT;
     userPrompt := userPrompt;
     estimatedTokens := estimateTokens (SYSTEM_PROMPT +:+ userPrompt) |}.

End Builder.

End PromptBuilder.

(* ===================================================================== *)
(** ** background/ai/RAGEngine.ts: the context packer *)
(* ===================================================================== *)

Module RAGEngine.

Record SearchHit : Type := {
  hit_id : string;
  hit_sourceType : SourceType;
  hit_similarity : Q;
  hit_text : string
}.

Record RetrievalSource : Type := {
  rs_id : string;
  rs_type : SourceType;
  rs_similarity : Q;
  rs_text : string
}.

Record Packed : Type := {
  pk_context : list string;
  pk_sources : list RetrievalSource;
  tokenEstimate : Z
}.

Definition DEFAULT_topK : nat := 5.
Definition DEFAULT_similarityThreshold : Q := 5 # 10.
Definition DEFAULT_maxContextTokens : Z := 1500.
Definition CHARS_PER_TOKEN : Z := 4.

Definition estimateTokens (text : string) : Z :=
  (Z.of_nat (String.length text) + CHARS_PER_TOKEN - 1) / CHARS_PER_TOKEN.

Definition whole (r : SearchHit) : RetrievalSource :=
  {| rs_id := hit_id r; rs_type := hit_sourceType r;
     rs_similarity := hit_similarity r; rs_text := hit_text r |}.

Definition truncatedText (r : SearchHit) (remainingTokens : Z) : string :=
  JS.slice0 (hit_text r) (Z.to_nat (remainingTokens * CHARS_PER_TOKEN)).

Definition truncated (r : SearchHit) (remainingTokens : Z) : RetrievalSource :=
  {| rs_id := hit_id r; rs_type := hit_sourceType r;
     rs_similarity := hit_similarity r; rs_text := truncatedText r remainingTokens |}.

(** The [for ... of results] loop of [buildContext], with its three
    accumulators. *)
Fixpoint buildContext_loop (results : list SearchHit) (maxTokens : Z)
         (ctx : list string) (sources : list RetrievalSource) (totalTokens : Z)
  : Packed :=
  match results with
  | [] => {| pk_context := ctx; pk_sources := sources; tokenEstimate := totalTokens |}
  | result :: rest =>
      let tokens := estimateTokens (hit_text result) in
      if maxTokens <? totalTokens + tokens then
        let remainingTokens := maxTokens - totalTokens in
        if 50 <? remainingTokens then
          {| pk_context := ctx ++ [truncatedText result remainingTokens +:+ "..."];
             pk_sources := sources ++ [truncated result remainingTokens];
             tokenEstimate := totalTokens |}
        else
          {| pk_context := ctx; pk_sources := sources; tokenEstimate := totalTokens |}
      else
        buildContext_loop rest maxTokens
          (ctx ++ [hit_text result]) (sources ++ [whole result]) (totalTokens + tokens)
  end.

Definition buildContext (results : list SearchHit) (maxTokens : Z) : Packed :=
  buildContext_loop results maxTokens [] [] 0.

End RAGEngine.

(* ===================================================================== *)
(** ** shared/storage/VectorStore.ts *)
(* ===================================================================== *)

Module VectorStore.

Record SearchResult : Type := {
  entry : VectorEntry;
  similarity : float
}.

Record State : Type := {
  cache : gmap string (list VectorEntry)
}.

(** [storageService.getVectorsByProfile]: the records of the vectors
    store whose [profileId] index equals [profileId]. *)
Definition getVectorsByProfile (db : list VectorEntry) (profileId : string)
  : list VectorEntry :=
  List.filter (fun v => String.eqb (ve_profileId v) profileId) db.

Definition getVectors (st : State) (db : list VectorEntry) (profileId : string)
  : State * list VectorEntry :=
  match cache st !! profileId with
  | Some cached => (st, cached)
  | None =>
      let vectors := getVectorsByProfile db profileId in
      ({| cache := <[profileId := vectors]> (cache st) |}, vectors)
  end.

(** [sort((a, b) => b.similarity - a.similarity)] on the filtered
    results.  The filter leaves no NaN among the similarities, so the
    comparator is a consistent one, and the sort of the language, which
    is stable, has one possible result; this stable insertion sort
    computes it.  [x] comes from further left than every element of [l]:
    [y] goes before it only when the comparator is positive on [x] and
    [y]. *)
Fixpoint insert_desc (x : SearchResult) (l : list SearchResult) : list SearchResult :=
  match l with
  | [] => [x]
  | y :: rest =>
      if (0 <? similarity y - similarity x)%float
      then y :: insert_desc x rest
      else x :: y :: rest
  end.

Fixpoint sort_desc (l : list SearchResult) : list SearchResult :=
  match l with
  | [] => []
  | x :: rest => insert_desc x (sort_desc rest)
  end.

(** The three running sums of the loop of [cosineSimilarity]. *)
Fixpoint sums (a b : list float) (dotProduct normA normB : float)
  : float * float * float :=
  match a, b with
  | x :: a', y :: b' =>
      sums a' b' (dotProduct + x * y)%float (normA + x * x)%float (normB + y * y)%float
  | _, _ => (dotProduct, normA, normB)
  end.

Definition cosineSimilarity (a b : list float) : float :=
  if negb (Nat.eqb (length a) (length b)) then 0%float
  else
    let '(dotProduct, normA, normB) := sums a b 0%float 0%float 0%float in
    let magnitude := (PrimFloat.sqrt normA * PrimFloat.sqrt normB)%float in
    if (magnitude =? 0)%float then 0%float
    else (dotProduct / magnitude)%float.

Definition score (queryEmbedding : list float) (v : VectorEntry) : SearchResult :=
  {| entry := v; similarity := cosineSimilarity queryEmbedding (embedding v) |}.

Definition searchVectors (vectors : list VectorEntry) (queryEmbedding : list float)
           (topK : Z) (threshold : float) : list SearchResult :=
  match vectors with
  | [] => []
  | _ =>
      let results := map (score queryEmbedding) vectors in
      JS.slice_to
        (sort_desc (List.filter (fun r => (threshold <=? similarity r)%float) results))
        topK
  end.

Definition search (st : State) (db : list VectorEntry) (profileId : string)
           (queryEmbedding : list float) (topK : Z) (threshold : float)
  : State * list SearchResult :=
  let '(st', vectors) := getVectors st db profileId in
  (st', searchVectors vectors queryEmbedding topK threshold).

(** [storageService.saveVector]: [put] into the vectors store, whose
    records [db] lists in the order of their key [id]: a record with the
    same id is replaced, otherwise the record goes to its place in key
    order. *)
Fixpoint saveVector (db : list VectorEntry) (vector : VectorEntry) : list VectorEntry :=
  match db with
  | [] => [vector]
  | x :: rest =>
      if String.eqb (ve_id x) (ve_id vector) then vector :: rest
      else if String.ltb (ve_id vector) (ve_id x) then vector :: x :: rest
      else x :: saveVector rest vector
  end.

(** [storageService.deleteVectorsByProfile]: the cursor over the
    [profileId] index deletes every record of the profile. *)
Definition deleteVectorsByProfile (db : list VectorEntry) (profileId : string)
  : list VectorEntry :=
  List.filter (fun v => negb (String.eqb (ve_profileId v) profileId)) db.

(** The update of the cached array in [upsert]: [findIndex] by id, then
    replace in place or [push]. *)
Fixpoint upsert_cached (cached : list VectorEntry) (entry : VectorEntry)
  : list VectorEntry :=
  match cached with
  | [] => [entry]
  | v :: rest =>
      if String.eqb (ve_id v) (ve_id entry) then entry :: rest
      else v :: upsert_cached rest entry
  end.

Definition upsert (st : State) (db : list VectorEntry) (entry : VectorEntry)
  : State * list VectorEntry :=
  let db' := saveVector db entry in
  match cache st !! ve_profileId entry with
  | Some cached =>
      ({| cache := <[ve_profileId entry := upsert_cached cached entry]> (cache st) |}, db')
  | None => (st, db')
  end.

Definition upsertBatch (st : State) (db : list VectorEntry) (entries : list VectorEntry)
  : State * list VectorEntry :=
  let db' := fold_left saveVector entries db in
  ({| cache := fold_left (fun c e => delete (ve_profileId e) c) entries (cache st) |}, db').

(** The update of the cached array in [delete]: [findIndex] by id, then
    [splice(index, 1)]. *)
Fixpoint remove_cached (cached : list VectorEntry) (id : string) : list VectorEntry :=
  match cached with
  | [] => []
  | v :: rest =>
      if String.eqb (ve_id v) id then rest else v :: remove_cached rest id
  end.

(** [delete] only updates the cached array; the vectors store has no
    single-record delete and is not touched. *)
Definition delete (st : State) (id profileId : string) : State :=
  match cache st !! profileId with
  | Some cached => {| cache := <[profileId := remove_cached cached id]> (cache st) |}
  | None => st
  end.

Definition deleteByProfile (st : State) (db : list VectorEntry) (profileId : string)
  : State * list VectorEntry :=
  ({| cache := base.delete profileId (cache st) |}, deleteVectorsByProfile db profileId).

Definition SourceType_eqb (a b : SourceType) : bool :=
  match a, b with
  | st_learned_example, st_learned_example
  | st_document, st_document
  | st_knowledge_base, st_knowledge_base => true
  | _, _ => false
  end.

Definition deleteBySourceType (st : State) (db : list VectorEntry) (profileId : string)
           (t : SourceType) : State * list VectorEntry :=
  let '(st1, vectors) := getVectors st db profileId in
  let remaining := List.filter (fun v => negb (SourceType_eqb (sourceType v) t)) vectors in
  let db1 := deleteVectorsByProfile db profileId in
  match remaining with
  | [] => ({| cache := base.delete profileId (cache st1) |}, db1)
  | _ => upsertBatch st1 db1 remaining
  end.

Record VectorStoreStats : Type := {
  stats_profileId : string;
  vectorCount : nat;
  learned_example_count : nat;
  document_count : nat;
  knowledge_base_count : nat
}.

(** The loop of [getStats] over the vectors, with the three counters. *)
Fixpoint count_types (vectors : list VectorEntry) (l d k : nat) : nat * nat * nat :=
  match vectors with
  | [] => (l, d, k)
  | v :: rest =>
      match sourceType v with
      | st_learned_example => count_types rest (S l) d k
      | st_document => count_types rest l (S d) k
      | st_knowledge_base => count_types rest l d (S k)
      end
  end.

Definition getStats (st : State) (db : list VectorEntry) (profileId : string)
  : State * VectorStoreStats :=
  let '(st', vectors) := getVectors st db profileId in
  let '(l, d, k) := count_types vectors 0 0 0 in
  (st', {| stats_profileId := profileId; vectorCount := length vectors;
           learned_example_count := l; document_count := d;
           knowledge_base_count := k |}).

Definition clearCache (st : State) : State := {| cache := ∅ |}.

End VectorStore.

(* ===================================================================== *)
(** ** The 32-bit string hash shared by the caches *)
(* ===================================================================== *)

Module Hash.

(** One turn of the loop:
    [hash = ((hash << 5) - hash) + char; hash = hash & hash]. *)
Definition hash_step (hash : Z) (c : ascii) : Z :=
  JS.toInt32 (JS.toInt32 (Z.shiftl hash 5) - hash + JS.charCode c).

Fixpoint hash_loop (hash : Z) (s : string) : Z :=
  match s with
  | EmptyString => hash
  | String c s' => hash_loop (hash_step hash c) s'
  end.

Definition digit36 (d : Z) : ascii :=
  if d <? 10 then ascii_of_nat (48 + Z.to_nat d)
  else ascii_of_nat (87 + Z.to_nat d).

(** The digits of [n] in base 36, least significant first; eight digits
    cover every magnitude below [2^32]. *)
Fixpoint digits36 (fuel : nat) (n : Z) (acc : string) : string :=
  match fuel with
  | O => acc
  | S fuel' =>
      let acc' := String (digit36 (n mod 36)) acc in
      if n / 36 =? 0 then acc' else digits36 fuel' (n / 36) acc'
  end.

(** [n.toString(36)] for an integer of magnitude below [2^32]. *)
Definition toString36 (n : Z) : string :=
  if n <? 0 then "-" +:+ digits36 8 (Z.abs n) EmptyString
  else digits36 8 n EmptyString.

End Hash.

(* ===================================================================== *)
(** ** background/ai/EmbeddingService.ts *)
(* ===================================================================== *)

Module EmbeddingService.

Definition MAX_BATCH_SIZE : nat := 20.
Definition MAX_CACHE_SIZE : nat := 500.

(** The module-level [embeddingCache], a [Map] in insertion order. *)
Definition Cache : Type := list (string * list Q).

Record EmbeddingResponse : Type := {
  data : list (list Q);
  totalTokens : Z
}.

(** An element of the result arrays; [text] is [batch[j]], which is
    [undefined] when the provider returns more vectors than asked. *)
Record Embedded : Type := {
  text : option string;
  emb : list Q
}.

Record BatchEmbeddingResult : Type := {
  embeddings : list (option Embedded);
  batchTokens : Z
}.

Definition hashText (s : string) : string :=
  Hash.toString36 (Hash.hash_loop 0 s).

Fixpoint cache_get (c : Cache) (k : string) : option (list Q) :=
  match c with
  | [] => None
  | (k', v) :: rest => if String.eqb k' k then Some v else cache_get rest k
  end.

Fixpoint cache_set (c : Cache) (k : string) (v : list Q) : Cache :=
  match c with
  | [] => [(k, v)]
  | (k', v') :: rest =>
      if String.eqb k' k then (k', v) :: rest else (k', v') :: cache_set rest k v
  end.

Definition cacheEmbedding (c : Cache) (t : string) (embedding : list Q) : Cache :=
  let cacheKey := hashText t in
  let c := if Nat.leb MAX_CACHE_SIZE (length c) then tl c else c in
  cache_set c cacheKey embedding.

(** First loop of [embedBatch]: cached texts go to [results], the others
    to [textsToEmbed] with their index in [textIndexMap]. *)
Fixpoint partition_cached (useCache : bool) (c : Cache) (i : nat) (texts : list string)
  : list Embedded * list string * list nat :=
  match texts with
  | [] => ([], [], [])
  | t :: rest =>
      let '(results, textsToEmbed, textIndexMap) :=
        partition_cached useCache c (S i) rest in
      match (if useCache then cache_get c (hashText t) else None) with
      | Some cached => ({| text := Some t; emb := cached |} :: results,
                        textsToEmbed, textIndexMap)
      | None => (results, t :: textsToEmbed, i :: textIndexMap)
      end
  end.

(** [textsToEmbed.slice(i, i + n)] for [i = 0, n, 2n, ...]. *)
Fixpoint chunk_fuel (fuel n : nat) (l : list string) : list (list string) :=
  match fuel with
  | O => []
  | S fuel' =>
      match l with
      | [] => []
      | _ => firstn n l :: chunk_fuel fuel' n (skipn n l)
      end
  end.

Definition chunk (n : nat) (l : list string) : list (list string) :=
  chunk_fuel (length l) n l.

(** The inner loop over [response.data]: [j] runs over what the provider
    returned; reading [text.length] of a missing text throws. *)
Fixpoint store_batch (useCache : bool) (batch : list string) (j : nat)
         (vectors : list (list Q)) (c : Cache) (batchResults : list Embedded)
  : Cache * Result (list Embedded) :=
  match vectors with
  | [] => (c, Ok batchResults)
  | embedding :: rest =>
      let t := nth_error batch j in
      let batchResults := batchResults ++ [{| text := t; emb := embedding |}] in
      if useCache then
        match t with
        | Some txt =>
            store_batch useCache batch (S j) rest (cacheEmbedding c txt embedding)
                        batchResults
        | None => (c, Throw (Error "Cannot read properties of undefined"))
        end
      else store_batch useCache batch (S j) rest c batchResults
  end.

Section Remote.

(** [openRouterClient.createEmbedding]: what the [n]-th request of
    this call of [embedBatch] returns for its input, or throws.  The
    service is taken as initialised: [await this.init()] has returned. *)
Variable createEmbedding : nat -> list string -> Result EmbeddingResponse.

Fixpoint embed_batches (useCache : bool) (n : nat) (batches : list (list string))
         (c : Cache) (batchResults : list Embedded) (total : Z)
  : Cache * Result (list Embedded * Z) :=
  match batches with
  | [] => (c, Ok (batchResults, total))
  | batch :: rest =>
      match createEmbedding n batch with
      | Throw e => (c, Throw e)
      | Ok response =>
          match store_batch useCache batch 0 (data response) c batchResults with
          | (c', Throw e) => (c', Throw e)
          | (c', Ok batchResults') =>
              embed_batches useCache (S n) rest c' batchResults'
                            (total + totalTokens response)
          end
      end
  end.

(** The last loop: the original order is restored. *)
Fixpoint combine_results (i len : nat) (textIndexMap : list nat)
         (results batchResults : list Embedded) : list (option Embedded) :=
  match len with
  | O => []
  | S len' =>
      if existsb (Nat.eqb i) textIndexMap
      then head batchResults
           :: combine_results (S i) len' textIndexMap results (tl batchResults)
      else head results
           :: combine_results (S i) len' textIndexMap (tl results) batchResults
  end.

Definition embedBatch (c : Cache) (texts : list string) (useCache : bool)
  : Cache * Result BatchEmbeddingResult :=
  match texts with
  | [] => (c, Ok {| embeddings := []; batchTokens := 0 |})
  | _ =>
      let '(results, textsToEmbed, textIndexMap) :=
        partition_cached useCache c 0 texts in
      match textsToEmbed with
      | [] => (c, Ok {| embeddings := map Some results; batchTokens := 0 |})
      | _ =>
          match embed_batches useCache 0 (chunk MAX_BATCH_SIZE textsToEmbed) c [] 0 with
          | (c', Throw e) => (c', Throw e)
          | (c', Ok (batchResults, total)) =>
              (c', Ok {| embeddings :=
                           combine_results 0 (length texts) textIndexMap
                                           results batchResults;
                         batchTokens := total |})
          end
      end
  end.

End Remote.

Record EmbeddingResult : Type := {
  er_embedding : list Q;
  er_text : string;
  er_tokensUsed : Z
}.

Section Single.

(** [openRouterClient.createEmbedding({ input: text })] for one text. *)
Variable createEmbedding : string -> Result EmbeddingResponse.

Definition embed (c : Cache) (t : string) (useCache : bool)
  : Cache * Result EmbeddingResult :=
  match (if useCache then cache_get c (hashText t) else None) with
  | Some cached =>
      (c, Ok {| er_embedding := cached; er_text := t; er_tokensUsed := 0 |})
  | None =>
      match createEmbedding t with
      | Throw e => (c, Throw e)
      | Ok response =>
          match head (data response) with
          | None => (c, Throw (Error "No embedding returned from API"))
          | Some embedding =>
              ((if useCache then cacheEmbedding c t embedding else c),
               Ok {| er_embedding := embedding; er_text := t;
                     er_tokensUsed := totalTokens response |})
          end
      end
  end.

End Single.

End EmbeddingService.

(* ===================================================================== *)
(** ** shared/storage/StorageService.ts: the llm_cache object store *)
(* ===================================================================== *)

Record CachedFillResponse : Type := {
  cached_mappings : list FieldMapping;
  cached_tokensUsed : Z;
  cached_createdAt : Z;
  hitCount : Z
}.

Record CacheEntry : Type := {
  ce_key : string;
  ce_value : CachedFillResponse;
  ce_createdAt : Z;
  expiresAt : option Z
}.

Module StorageService.

(** [entry.expiresAt && entry.expiresAt < now]. *)
Definition expired (e : CacheEntry) (now : Z) : bool :=
  match expiresAt e with
  | Some t => negb (t =? 0) && (t <? now)
  | None => false
  end.

(** [getCache]: an expired entry is deleted and reported missing. *)
Definition getCache (store : gmap string CacheEntry) (k : string) (now : Z)
  : gmap string CacheEntry * option CachedFillResponse :=
  match store !! k with
  | None => (store, None)
  | Some e =>
      if expired e now then (delete k store, None)
      else (store, Some (ce_value e))
  end.

(** [setCache]: [expiresAt] is [now + ttlMs] when [ttlMs] is truthy. *)
Definition setCache (store : gmap string CacheEntry) (k : string)
           (v : CachedFillResponse) (ttlMs : option Z) (now : Z)
  : gmap string CacheEntry :=
  <[k := {| ce_key := k; ce_value := v; ce_createdAt := now;
            expiresAt := match ttlMs with
                         | Some t => if t =? 0 then None else Some (now + t)
                         | None => None
                         end |}]> store.

Definition deleteCache (store : gmap string CacheEntry) (k : string)
  : gmap string CacheEntry :=
  delete k store.

(** [clearExpiredCache]: the cursor over the [expiresAt] index, bounded
    above by [now] inclusive; entries without [expiresAt] are not in
    the index. *)
Definition in_expired_range (now : Z) (e : CacheEntry) : bool :=
  match expiresAt e with
  | Some t => t <=? now
  | None => false
  end.

Definition clearExpiredCache (store : gmap string CacheEntry) (now : Z)
  : gmap string CacheEntry * nat :=
  let kept := filter (fun kv => in_expired_range now (snd kv) = false) store in
  (kept, size store - size kept)%nat.

End StorageService.

(* ===================================================================== *)
(** ** background/services/CacheService.ts *)
(* ===================================================================== *)

Module CacheService.

Definition DEFAULT_TTL_MS : Z := 7 * 24 * 60 * 60 * 1000.
Definition CACHE_PREFIX : string := "llm_fill_".

(** The service object, the two module-level counters and the object
    store it talks to. *)
Record World : Type := {
  ttlMs : Z;
  initialized : bool;
  cacheHits : nat;
  cacheMisses : nat;
  store : gmap string CacheEntry
}.

(** [new CacheService()] over a given store. *)
Definition fresh (s : gmap string CacheEntry) : World :=
  {| ttlMs := DEFAULT_TTL_MS; initialized := false;
     cacheHits := 0; cacheMisses := 0; store := s |}.

(** [arr.sort()] on strings: ascending by code units. *)
Fixpoint insert_sorted (x : string) (l : list string) : list string :=
  match l with
  | [] => [x]
  | y :: rest => if String.leb x y then x :: y :: rest else y :: insert_sorted x rest
  end.

Fixpoint sort_strings (l : list string) : list string :=
  match l with
  | [] => []
  | x :: rest => insert_sorted x (sort_strings rest)
  end.

Definition hashFormSignature (form : FormSignature) : string :=
  let fieldIds :=
    JS.join "|"
      (sort_strings
         (map (fun f => SemanticClass_to_string (semanticClass f) +:+ ":"
                        +:+ InputType_to_string (inputType f))
              (fields form))) in
  let str := domain form +:+ ":" +:+ fieldIds in
  Hash.toString36 (Z.abs (Hash.hash_loop 0 str)).

Definition buildCacheKey (form : FormSignature) (profileId : string) : string :=
  CACHE_PREFIX +:+ profileId +:+ "_" +:+ hashFormSignature form.

(** [init] awaits [cleanExpired], and [cleanExpired] begins by awaiting
    [init]; [initialized] is only set once [cleanExpired] has returned.
    [fuel] bounds the depth of the calls: [None] means that the call
    has not returned within it. *)
Fixpoint init (fuel : nat) (w : World) (now : Z) : option World :=
  match fuel with
  | O => None
  | S fuel' =>
      if initialized w then Some w
      else
        match cleanExpired fuel' w now with
        | None => None
        | Some (w', _) =>
            Some {| ttlMs := ttlMs w'; initialized := true;
                    cacheHits := cacheHits w'; cacheMisses := cacheMisses w';
                    store := store w' |}
        end
  end
with cleanExpired (fuel : nat) (w : World) (now : Z) : option (World * nat) :=
  match fuel with
  | O => None
  | S fuel' =>
      match init fuel' w now with
      | None => None
      | Some w' =>
          let '(kept, count) := StorageService.clearExpiredCache (store w') now in
          Some ({| ttlMs := ttlMs w'; initialized := initialized w';
                   cacheHits := cacheHits w'; cacheMisses := cacheMisses w';
                   store := kept |}, count)
      end
  end.

(** What [get] does once [await this.init()] has returned. *)
Definition get_body (w : World) (form : FormSignature) (profileId : string) (now : Z)
  : World * option CachedFillResponse :=
  let k := buildCacheKey form profileId in
  match StorageService.getCache (store w) k now with
  | (store', Some cached) =>
      let cached' := {| cached_mappings := cached_mappings cached;
                        cached_tokensUsed := cached_tokensUsed cached;
                        cached_createdAt := cached_createdAt cached;
                        hitCount := hitCount cached + 1 |} in
      ({| ttlMs := ttlMs w; initialized := initialized w;
          cacheHits := S (cacheHits w); cacheMisses := cacheMisses w;
          store := StorageService.setCache store' k cached' (Some (ttlMs w)) now |},
       Some cached')
  | (store', None) =>
      ({| ttlMs := ttlMs w; initialized := initialized w;
          cacheHits := cacheHits w; cacheMisses := S (cacheMisses w);
          store := store' |}, None)
  end.

Definition get (fuel : nat) (w : World) (form : FormSignature) (profileId : string)
           (now : Z) : option (World * option CachedFillResponse) :=
  match init fuel w now with
  | None => None
  | Some w' => Some (get_body w' form profileId now)
  end.

Definition set_body (w : World) (form : FormSignature) (profileId : string)
           (mappings : list FieldMapping) (tokensUsed : Z) (now : Z) : World :=
  let k := buildCacheKey form profileId in
  {| ttlMs := ttlMs w; initialized := initialized w;
     cacheHits := cacheHits w; cacheMisses := cacheMisses w;
     store := StorageService.setCache (store w) k
                {| cached_mappings := mappings; cached_tokensUsed := tokensUsed;
                   cached_createdAt := now; hitCount := 0 |}
                (Some (ttlMs w)) now |}.

Definition set (fuel : nat) (w : World) (form : FormSignature) (profileId : string)
           (mappings : list FieldMapping) (tokensUsed : Z) (now : Z) : option World :=
  match init fuel w now with
  | None => None
  | Some w' => Some (set_body w' form profileId mappings tokensUsed now)
  end.

(** What [invalidate] does once [await this.init()] has returned. *)
Definition invalidate_body (w : World) (form : FormSignature) (profileId : string) : World :=
  {| ttlMs := ttlMs w; initialized := initialized w;
     cacheHits := cacheHits w; cacheMisses := cacheMisses w;
     store := StorageService.deleteCache (store w) (buildCacheKey form profileId) |}.

Definition invalidate (fuel : nat) (w : World) (form : FormSignature) (profileId : string)
           (now : Z) : option World :=
  match init fuel w now with
  | None => None
  | Some w' => Some (invalidate_body w' form profileId)
  end.

End CacheService.

(* ===================================================================== *)
(** ** background/ai/LLMOrchestrator.ts *)
(* ===================================================================== *)

Module LLMOrchestrator.

Record FillRequest : Type := {
  formSignature : FormSignature;
  profile : Profile;
  ragContext : option (list string);
  useCache : option bool
}.

Inductive FillSource : Type := fill_llm | fill_static | fill_cached | fill_hybrid.

Record FillResponse : Type := {
  mappings : list FieldMapping;
  fill_source : FillSource;
  llmUsed : bool;
  tokensUsed : option Z;
  fallbackReason : option string
}.

Record OrchestratorConfig : Type := {
  fallbackToStatic : bool;
  maxRetries : Z;
  timeout : Z
}.

Definition DEFAULT_CONFIG : OrchestratorConfig :=
  {| fallbackToStatic := true; maxRetries := 2; timeout := 30000 |}.

Record State : Type := {
  config : OrchestratorConfig;
  initialized : bool
}.

(** [new LLMOrchestrator()]. *)
Definition fresh : State := {| config := DEFAULT_CONFIG; initialized := false |}.

Inductive Role : Type := role_system | role_user | role_assistant.

Record ChatMessage : Type := { role : Role; msg_content : string }.

Record Choice : Type := {
  choice_role : string;
  choice_content : option string;
  finishReason : string
}.

Record Usage : Type := {
  promptTokens : Z;
  completionTokens : Z;
  totalTokens : Z
}.

Record ChatCompletionResponse : Type := {
  resp_id : string;
  choices : list Choice;
  usage : Usage
}.

Definition staticFill (form : FormSignature) (p : Profile) (reason : string)
  : FillResponse :=
  {| mappings := FieldMapper.createSuggestedMappings (fields form) p;
     fill_source := fill_static;
     llmUsed := false;
     tokensUsed := None;
     fallbackReason := Some reason |}.

Section Remote.

(** The collaborators of one call of [fill]: the configuration load of
    the client, whether an API key is configured, the chat-completion
    request (with temperature 0.2 and the JSON response format), and
    the built-ins of the prompt builder and of the validator. *)
Variable client_init : Result unit.
Variable isConfigured : bool.
Variable chatCompletion : list ChatMessage -> Result ChatCompletionResponse.
Variable parseJSON : string -> Result (list (string * string)).
Variable Number_isNaN : string -> bool.
Variable JSON_stringify : list PromptBuilder.FieldSchemaEntry -> string.

Definition init (st : State) : State * Result unit :=
  if initialized st then (st, Ok tt)
  else
    match client_init with
    | Throw e => (st, Throw e)
    | Ok _ => ({| config := config st; initialized := true |}, Ok tt)
    end.

Definition isAvailable : bool := isConfigured.

(** The two messages of the request: the system instruction and the
    user instruction built from the profile, the form and the context. *)
Definition promptMessages (request : FillRequest) : list ChatMessage :=
  let prompt :=
    PromptBuilder.buildPrompt JSON_stringify
      {| PromptBuilder.pc_profile := profile request;
         PromptBuilder.pc_formSignature := formSignature request;
         PromptBuilder.pc_ragContext := ragContext request;
         PromptBuilder.pc_maxTokens := None |} in
  [ {| role := role_system; msg_content := PromptBuilder.systemPrompt prompt |};
    {| role := role_user; msg_content := PromptBuilder.userPrompt prompt |} ].

(** [response.choices[0]?.message?.content], which must be truthy. *)
Definition rawContentOf (response : ChatCompletionResponse) : Result string :=
  match choices response with
  | c :: _ =>
      match choice_content c with
      | Some s => if JS.truthy s then Ok s
                  else Throw (Error "Empty response from LLM")
      | None => Throw (Error "Empty response from LLM")
      end
  | [] => Throw (Error "Empty response from LLM")
  end.

(** The body of the [try] block. *)
Definition attempt (st : State) (request : FillRequest) : Result FillResponse :=
  let form := formSignature request in
  let p := profile request in
  let! response := chatCompletion (promptMessages request) in
  let! rawContent := rawContentOf response in
  let validationResult :=
    ResponseValidator.validate parseJSON Number_isNaN rawContent form in
  if negb (ResponseValidator.valid validationResult) then
    if fallbackToStatic (config st)
    then Ok (staticFill form p "LLM response validation failed")
    else Throw (Error "LLM response validation failed")
  else
    let staticMappings := FieldMapper.createSuggestedMappings (fields form) p in
    let mergedMappings :=
      ResponseValidator.mergeWithStaticMappings
        (ResponseValidator.vr_mappings validationResult) staticMappings in
    Ok {| mappings := mergedMappings;
          fill_source := if Nat.ltb 0 (length staticMappings)
                         then fill_hybrid else fill_llm;
          llmUsed := true;
          tokensUsed := Some (totalTokens (usage response));
          fallbackReason := None |}.

(** The [catch] block. *)
Definition recover (st : State) (request : FillRequest) (error : JsError)
  : Result FillResponse :=
  let form := formSignature request in
  let p := profile request in
  match error with
  | OpenRouterError _ INVALID_API_KEY => Ok (staticFill form p "Invalid API key")
  | OpenRouterError _ RATE_LIMITED => Ok (staticFill form p "Rate limited")
  | _ =>
      if fallbackToStatic (config st)
      then Ok (staticFill form p (default "Unknown error" (error_message error)))
      else Throw error
  end.

Definition fill (st : State) (request : FillRequest) : State * Result FillResponse :=
  match init st with
  | (st', Throw e) => (st', Throw e)
  | (st', Ok _) =>
      if negb isAvailable
      then (st', Ok (staticFill (formSignature request) (profile request)
                                "API key not configured"))
      else (st', try_catch (attempt st' request) (recover st' request))
  end.

End Remote.

End LLMOrchestrator.

(* ===================================================================== *)
(** ** Vocabulary of the statements *)
(* ===================================================================== *)

Module MergeSpec.
Import ResponseValidator.

Definition fid (m : FieldMapping) : string := fs_id (fieldSignature m).

(** Every key of the working map is the field id of its value. *)
Definition keyed (m : list (string * FieldMapping)) : Prop :=
  Forall (fun kv => fst kv = fid (snd kv)) m.

(** The invariant carried by both loops of the merge. *)
Definition wf (m : list (string * FieldMapping)) : Prop :=
  List.NoDup (map fst m) /\ keyed m.

(** The mappings of a list that target the field id [i], in order. *)
Definition with_id (i : string) (l : list FieldMapping) : list FieldMapping :=
  List.filter (fun m => String.eqb (fid m) i) l.

(** What the map holds under one id while the static loop, then the LLM
    loop, run over the mappings of that id. *)
Definition keep_last (cur : option FieldMapping) (x : FieldMapping) : option FieldMapping :=
  Some x.

Definition keep_better (cur : option FieldMapping) (x : FieldMapping) : option FieldMapping :=
  match cur with
  | None => Some x
  | Some existing => if Qgtb (confidence x) (confidence existing) then Some x else cur
  end.

End MergeSpec.

Module PackSpec.
Import RAGEngine.

(** The tokens that a list of whole entries takes from the budget. *)
Fixpoint sumTokens (l : list SearchHit) : Z :=
  match l with
  | [] => 0
  | r :: rest => estimateTokens (hit_text r) + sumTokens rest
  end.

(** The result of packing the whole entries [pre], followed by [extra]. *)
Definition packed (pre : list SearchHit) (extra : list (string * RetrievalSource)) : Packed :=
  {| pk_context := map hit_text pre ++ map fst extra;
     pk_sources := map whole pre ++ map snd extra;
     tokenEstimate := sumTokens pre |}.

End PackSpec.

Module SearchSpec.
Import VectorStore.

(** [a] ranks at least as high as [b]. *)
Definition ranks_before (a b : SearchResult) : Prop :=
  (similarity b <=? similarity a)%float = true.

(** The cosine similarity of two vectors of doubles: their dot product
    over the product of their lengths, each sum taken from the first
    component on; by convention zero for vectors of different dimension
    and when the product of the lengths is zero. *)
Definition dot (a b : list float) : float :=
  fold_left (fun acc p => (acc + fst p * snd p)%float) (combine a b) 0%float.

Definition norm (a : list float) : float := PrimFloat.sqrt (dot a a).

Definition cosine (a b : list float) : float :=
  if Nat.eqb (length a) (length b)
  then if (norm a * norm b =? 0)%float then 0%float
       else (dot a b / (norm a * norm b))%float
  else 0%float.

End SearchSpec.

(** The doubles that are numbers, and their place in the order of the
    doubles: zero for both zeros, and the finite doubles of one sign by
    exponent, then mantissa. *)
Module Double.

Definition number (x : spec_float) : bool :=
  match x with
  | S754_nan => false
  | _ => true
  end.

Definition ord (x : spec_float) : Z :=
  match x with
  | S754_zero _ => 0
  | S754_infinity s => cond_Zopp s 36893488147419103232
  | S754_nan => 0
  | S754_finite s m e => cond_Zopp s ((e + 1075) * 9007199254740992 + Z.pos m)
  end.

End Double.

Module EmbedSpec.
Import EmbeddingService.

(** The texts that the first loop of [embedBatch] leaves for the
    provider, and the requests they are sent in. *)
Definition textsToEmbed (useCache : bool) (c : Cache) (texts : list string) : list string :=
  snd (fst (partition_cached useCache c 0 texts)).

Definition requests (useCache : bool) (c : Cache) (texts : list string)
  : list (list string) :=
  chunk MAX_BATCH_SIZE (textsToEmbed useCache c texts).

(** What the provider answers to the requests [n], [n + 1], ...: each
    batch with its response, when every one of them is answered. *)
Fixpoint answers (createEmbedding : nat -> list string -> Result EmbeddingResponse)
         (n : nat) (batches : list (list string))
  : option (list (list string * EmbeddingResponse)) :=
  match batches with
  | [] => Some []
  | batch :: rest =>
      match createEmbedding n batch with
      | Throw _ => None
      | Ok response =>
          match answers createEmbedding (S n) rest with
          | Some answered => Some ((batch, response) :: answered)
          | None => None
          end
      end
  end.

(** The embeddings of answered requests: each text of a batch with the
    vector at its position in the response, in the order of the
    requests. *)
Definition stored (answered : list (list string * EmbeddingResponse))
  : list (string * list Q) :=
  concat (map (fun a => combine (fst a) (data (snd a))) answered).

(** The vector that the last of these embeddings under the cache key
    [k] carries. *)
Fixpoint last_stored (k : string) (pairs : list (string * list Q)) : option (list Q) :=
  match pairs with
  | [] => None
  | (t, v) :: rest =>
      match last_stored k rest with
      | Some v' => Some v'
      | None => if String.eqb (hashText t) k then Some v else None
      end
  end.

End EmbedSpec.

Module FillSpec.
Import LLMOrchestrator.

(** The ways in which the prompt, generation and validation stage of one
    fill request can fail: the request throws (whatever the error), the
    response carries no content, or the validator marks it invalid. *)
Inductive stage_fails
          (chatCompletion : list ChatMessage -> Result ChatCompletionResponse)
          (parseJSON : string -> Result (list (string * string)))
          (Number_isNaN : string -> bool)
          (JSON_stringify : list PromptBuilder.FieldSchemaEntry -> string)
          (request : FillRequest) : Prop :=
| request_throws (e : JsError) :
    chatCompletion (promptMessages JSON_stringify request) = Throw e ->
    stage_fails chatCompletion parseJSON Number_isNaN JSON_stringify request
| response_empty (response : ChatCompletionResponse) (e : JsError) :
    chatCompletion (promptMessages JSON_stringify request) = Ok response ->
    rawContentOf response = Throw e ->
    stage_fails chatCompletion parseJSON Number_isNaN JSON_stringify request
| response_invalid (response : ChatCompletionResponse) (raw : string) :
    chatCompletion (promptMessages JSON_stringify request) = Ok response ->
    rawContentOf response = Ok raw ->
    ResponseValidator.valid
      (ResponseValidator.validate parseJSON Number_isNaN raw (formSignature request))
    = false ->
    stage_fails chatCompletion parseJSON Number_isNaN JSON_stringify request.

End FillSpec.


Module TextSpec.

(** The characters that a normalised text can hold: lower-case letters,
    digits, the underscore, the blank and the hyphen. *)
Definition normal_char (c : ascii) : bool :=
  let n := nat_of_ascii c in
  (Nat.leb 97 n && Nat.leb n 122) || (Nat.leb 48 n && Nat.leb n 57)
  || Nat.eqb n 95 || Nat.eqb n 32 || Nat.eqb n 45.

Fixpoint all_chars (p : ascii -> bool) (s : string) : bool :=
  match s with
  | EmptyString => true
  | String c s' => p c && all_chars p s'
  end.


Definition not_upper (c : ascii) : bool :=
  let n := nat_of_ascii c in negb (Nat.leb 65 n && Nat.leb n 90).

(** White space has been replaced by the blank. *)
Definition blank_or_not_space (c : ascii) : bool :=
  negb (JS.is_space c) || Ascii.eqb c " "%char.

End TextSpec.

Module MapperSpec.

(** The confidences that the tiers of the static matcher assign. *)
Definition tier_confidence (c : Q) : Prop :=
  c = 1%Q \/ c = (95 # 100)%Q \/ c = (8 # 10)%Q \/ c = (7 # 10)%Q.

(** Those, and the confidence of the name post-pass. *)
Definition static_confidence (c : Q) : Prop :=
  tier_confidence c \/ c = (9 # 10)%Q.

End MapperSpec.

Module ValidateSpec.

(** What every mapping that the validator lets through satisfies. *)
Definition sound (form : FormSignature) (m : FieldMapping) : Prop :=
  In (fieldSignature m) (fields form) /\
  FieldDenylist.isFieldDenylisted (fieldSignature m) = false /\
  source m = src_llm /\
  value m <> EmptyString /\
  In (confidence m) [(9 # 10)%Q; (6 # 10)%Q; (5 # 10)%Q; (4 # 10)%Q].

(** The entry of a response names a field of the form that is on the
    denylist. *)
Definition names_denylisted (form : FormSignature) (entry : string * string) : bool :=
  match ResponseValidator.fieldMap_get form (fst entry) with
  | Some field => FieldDenylist.isFieldDenylisted field
  | None => false
  end.

End ValidateSpec.

Module BudgetSpec.

(** The characters of a packed context. *)
Definition chars (l : list string) : Z :=
  fold_right (fun s n => Z.of_nat (String.length s) + n) 0 l.

End BudgetSpec.

Module PromptSpec.

(** What the prompt can see of a profile entry: nothing of an encrypted
    one. *)
Definition visible (f : ContextField) : option string :=
  if isEncrypted f then None else Some (cf_value f).

End PromptSpec.

Module CacheSpec.

(** What the cache key reads of a field. *)
Definition kind (f : FieldSignature) : SemanticClass * InputType :=
  (semanticClass f, inputType f).

End CacheSpec.

Module OrderSpec.
Import EmbeddingService.

(** The text that a slot of the result array of [embedBatch] carries. *)
Definition slot_text (slot : option Embedded) : option string :=
  match slot with
  | Some e => text e
  | None => None
  end.

(** A provider that answers every request with one vector per text. *)
Definition answers_all (createEmbedding : nat -> list string -> Result EmbeddingResponse)
  : Prop :=
  forall n batch, exists response,
    createEmbedding n batch = Ok response /\ length (data response) = length batch.

End OrderSpec.

(* ===================================================================== *)
(** ** background/services/OpenRouterClient.ts: requests and retries *)
(* ===================================================================== *)

Module OpenRouterClient.

Definition MAX_RETRIES : nat := 3.
Definition RETRY_DELAY_MS : Z := 1000.
Definition RETRY_BACKOFF_MULTIPLIER : Z := 2.

(** An [OpenRouterError] with all its fields. *)
Record ApiError : Type := {
  api_message : string;
  api_code : OpenRouterErrorCode;
  api_status : option Z;
  retryable : bool
}.

(** What the [catch] of [makeRequest] holds: an [OpenRouterError], or
    another error (a value that is not an [Error] is wrapped into one). *)
Inductive Thrown : Type :=
| api_error (e : ApiError)
| other_error (message : string).

Section Request.

(** The type of the data of a successful reply. *)
Variable T : Type.

Inductive Outcome : Type :=
| returned (data : T)
| thrown (e : Thrown).

(** A reply of [fetch]: the status, the [error.message] of the body when
    the body parses and has one, and what [response.json()] gives for
    the body of a successful reply. *)
Record Response : Type := {
  status : Z;
  error_message : option string;
  json : Outcome
}.

Inductive FetchResult : Type :=
| responds (r : Response)
| fetch_fails (e : Thrown).

(** [response.ok]: the status is in the range 200 to 299. *)
Definition ok (r : Response) : bool := (200 <=? status r) && (status r <=? 299).

Definition parseErrorResponse (r : Response) : ApiError :=
  let errorMessage :=
    match error_message r with
    | Some m => if JS.truthy m then m else "HTTP " +:+ JS.nat_to_string (Z.to_nat (status r))
    | None => "HTTP " +:+ JS.nat_to_string (Z.to_nat (status r))
    end in
  let mk message code retry :=
    {| api_message := message; api_code := code; api_status := Some (status r);
       retryable := retry |} in
  if status r =? 401 then mk "Invalid API key" INVALID_API_KEY false
  else if status r =? 429 then mk errorMessage RATE_LIMITED true
  else if status r =? 404 then mk errorMessage MODEL_NOT_FOUND false
  else if status r =? 400 then
    if JS.includes (JS.toLowerCase errorMessage) "context length"
    then mk errorMessage CONTEXT_LENGTH_EXCEEDED false
    else if JS.includes (JS.toLowerCase errorMessage) "content"
    then mk errorMessage CONTENT_FILTERED false
    else mk errorMessage UNKNOWN false
  else if (status r =? 500) || (status r =? 502) || (status r =? 503) || (status r =? 504)
  then mk errorMessage SERVER_ERROR true
  else mk errorMessage UNKNOWN false.

(** What [fetch] does on each attempt of one call of [makeRequest]. *)
Variable fetch : nat -> FetchResult.

(** A run of [makeRequest]: how it ends, the number of calls of [fetch]
    and the delays it slept. *)
Record Run : Type := {
  outcome : Outcome;
  calls : nat;
  sleeps : list Z
}.

(** The [for] loop: [remaining] attempts are left, [attempt] is the loop
    counter. *)
Fixpoint attempts (remaining attempt : nat) (lastError : option Thrown) (slept : list Z)
  : Run :=
  match remaining with
  | O =>
      {| outcome :=
           thrown (default (api_error {| api_message := "Request failed";
                                         api_code := UNKNOWN; api_status := None;
                                         retryable := false |}) lastError);
         calls := attempt; sleeps := slept |}
  | S remaining' =>
      let exit (o : Outcome) :=
        {| outcome := o; calls := S attempt; sleeps := slept |} in
      (* the end of the loop body: back off, then the next attempt *)
      let next (e : Thrown) :=
        let slept' :=
          if Nat.ltb attempt (MAX_RETRIES - 1)
          then slept ++ [RETRY_DELAY_MS * RETRY_BACKOFF_MULTIPLIER ^ Z.of_nat attempt]
          else slept in
        attempts remaining' (S attempt) (Some e) slept' in
      (* the catch block *)
      let caught (e : Thrown) :=
        match e with
        | api_error a => if negb (retryable a) then exit (thrown e) else next e
        | other_error _ => next e
        end in
      match fetch attempt with
      | responds r =>
          if negb (ok r) then
            let error := parseErrorResponse r in
            if negb (retryable error) then caught (api_error error)
            else next (api_error error)
          else
            match json r with
            | returned data => exit (returned data)
            | thrown e => caught e
            end
      | fetch_fails e => caught e
      end
  end.

Definition makeRequest : Run := attempts MAX_RETRIES 0 None [].

End Request.

Arguments returned {T}.
Arguments thrown {T}.
Arguments responds {T}.
Arguments fetch_fails {T}.
Arguments status {T}.
Arguments error_message {T}.
Arguments json {T}.
Arguments ok {T}.
Arguments parseErrorResponse {T}.
Arguments outcome {T}.
Arguments calls {T}.
Arguments sleeps {T}.
Arguments attempts {T}.
Arguments makeRequest {T}.

End OpenRouterClient.

(* ===================================================================== *)
(** ** background/services/LearningService.ts *)
(* ===================================================================== *)

Module LearningService.

Record EditEvent : Type := {
  edit_formSignature : FormSignature;
  originalMapping : FieldMapping;
  newValue : string;
  edit_timestamp : Z
}.

Inductive ExampleSource : Type := user_edit | explicit_save.

Record LearnedExample : Type := {
  le_id : string;
  le_timestamp : Z;
  le_formSignature : FormSignature;
  fieldMappings : list FieldMapping;
  le_source : ExampleSource
}.

Record LearningConfig : Type := {
  enabled : bool;
  minConfidenceToLearn : Q;
  maxExamplesPerProfile : Z;
  deduplicationThreshold : Q
}.

Definition DEFAULT_CONFIG : LearningConfig :=
  {| enabled := true; minConfidenceToLearn := 95 # 100;
     maxExamplesPerProfile := 100; deduplicationThreshold := 9 # 10 |}.

(** The service, the module-level buffer of pending edits, and what the
    profile store holds as [learnedExamples] of each stored profile. *)
Record World : Type := {
  config : LearningConfig;
  pendingEdits : gmap string (list EditEvent);
  learnedExamples : gmap string (list LearnedExample)
}.

Definition recordEdit (w : World) (profileId : string) (edit : EditEvent) : World :=
  if negb (enabled (config w)) then w
  else if Qle_bool (minConfidenceToLearn (config w)) (confidence (originalMapping edit))
  then w
  else
    let edits := default [] (pendingEdits w !! profileId) in
    {| config := config w;
       pendingEdits := <[profileId := edits ++ [edit]]> (pendingEdits w);
       learnedExamples := learnedExamples w |}.

(** The mapping that an edit contributes to the learned example. *)
Definition learned (edit : EditEvent) : FieldMapping :=
  {| fieldSignature := fieldSignature (originalMapping edit);
     value := newValue edit; confidence := 1; source := src_learned |}.

(** [while (updatedExamples.length > max) updatedExamples.shift()];
    [shift] on an empty array leaves it empty.  [None]: the loop has not
    ended within [fuel] turns. *)
Fixpoint enforce_limit (fuel : nat) (updatedExamples : list LearnedExample) (max : Z)
  : option (list LearnedExample) :=
  match fuel with
  | O => None
  | S fuel' =>
      if max <? Z.of_nat (length updatedExamples)
      then enforce_limit fuel' (tl updatedExamples) max
      else Some updatedExamples
  end.

(** [commitEdits], with the id that [crypto.randomUUID] draws, the time
    and what [ragEngine.ingestLearnedExample] does; [await this.init()]
    is taken to return. *)
Definition commitEdits (fuel : nat) (w : World) (profileId : string)
           (randomUUID : string) (now : Z) (ingest : Result unit)
  : option (World * Result (option LearnedExample)) :=
  match pendingEdits w !! profileId with
  | None | Some [] => Some (w, Ok None)
  | Some ((first :: _) as edits) =>
      let w1 := {| config := config w;
                   pendingEdits := delete profileId (pendingEdits w);
                   learnedExamples := learnedExamples w |} in
      match learnedExamples w !! profileId with
      | None => Some (w1, Ok None)
      | Some profileExamples =>
          let example :=
            {| le_id := randomUUID; le_timestamp := now;
               le_formSignature := edit_formSignature first;
               fieldMappings := map learned edits;
               le_source := user_edit |} in
          match enforce_limit fuel (profileExamples ++ [example])
                              (maxExamplesPerProfile (config w)) with
          | None => None
          | Some updatedExamples =>
              let w2 := {| config := config w;
                           pendingEdits := pendingEdits w1;
                           learnedExamples :=
                             <[profileId := updatedExamples]> (learnedExamples w) |} in
              match ingest with
              | Throw e => Some (w2, Throw e)
              | Ok _ => Some (w2, Ok (Some example))
              end
          end
      end
  end.

End LearningService.

(* ===================================================================== *)
(** ** background/index.ts: the mappings of the TRIGGER_FILL handler *)
(* ===================================================================== *)

(** The grounds on which fieldDenylist.ts calls a field sensitive. *)
Module DenylistSpec.

Definition by_type (field : FieldSignature) : bool :=
  InputType_eqb (inputType field) it_password.

Definition by_autocomplete (field : FieldSignature) : bool :=
  match attr_autocomplete (attributes field) with
  | Some ac =>
      JS.truthy ac
      && FieldDenylist.set_has FieldDenylist.AUTOCOMPLETE_DENYLIST
                               (JS.trim (JS.toLowerCase ac))
  | None => false
  end.

Definition by_label (field : FieldSignature) : bool :=
  existsb (fun denied => JS.includes (JS.toLowerCase (normalizedLabel field)) denied)
          FieldDenylist.FIELD_DENYLIST.

Definition by_name_or_id (field : FieldSignature) : bool :=
  existsb
    (fun denied =>
       JS.includes (JS.toLowerCase (default "" (attr_name (attributes field)))) denied
       || JS.includes (JS.toLowerCase (default "" (attr_id (attributes field)))) denied)
    FieldDenylist.FIELD_DENYLIST.

End DenylistSpec.

Module Background.

Inductive TriggerSource : Type := trigger_static | trigger_combined.

Section Handler.

Variable client_init : Result unit.
Variable isConfigured : bool.
Variable chatCompletion :
  list LLMOrchestrator.ChatMessage -> Result LLMOrchestrator.ChatCompletionResponse.
Variable parseJSON : string -> Result (list (string * string)).
Variable Number_isNaN : string -> bool.
Variable JSON_stringify : list PromptBuilder.FieldSchemaEntry -> string.

(** Step 2 of the handler: the fields that no static mapping covers,
    password fields apart. *)
Definition unmappedFields (form : FormSignature) (staticMappings : list FieldMapping)
  : list FieldSignature :=
  let mappedFieldIds := map (fun m => fs_id (fieldSignature m)) staticMappings in
  List.filter
    (fun f => negb (existsb (String.eqb (fs_id f)) mappedFieldIds)
              && negb (SemanticClass_eqb (semanticClass f) password))
    (fields form).

(** Steps 1 to 3 of the handler, once a profile, a tab and a form are at
    hand: the mappings that go into the FILL_COMMAND, and their source.
    An exception of the orchestrator leaves the static mappings. *)
Definition finalMappings (st : LLMOrchestrator.State) (form : FormSignature)
           (profile : Profile)
  : LLMOrchestrator.State * list FieldMapping * TriggerSource :=
  let staticMappings := FieldMapper.createSuggestedMappings (fields form) profile in
  let unmapped := unmappedFields form staticMappings in
  if Nat.ltb 0 (length unmapped) && LLMOrchestrator.isAvailable isConfigured then
    let aiFormSignature :=
      {| form_id := form_id form; url := url form; domain := domain form;
         formIndex := formIndex form; fields := unmapped;
         detectedAt := detectedAt form |} in
    match LLMOrchestrator.fill client_init isConfigured chatCompletion parseJSON
                               Number_isNaN JSON_stringify st
            {| LLMOrchestrator.formSignature := aiFormSignature;
               LLMOrchestrator.profile := profile;
               LLMOrchestrator.ragContext := None;
               LLMOrchestrator.useCache := Some true |} with
    | (st', Ok fillResponse) =>
        (st', staticMappings ++ LLMOrchestrator.mappings fillResponse, trigger_combined)
    | (st', Throw _) => (st', staticMappings, trigger_static)
    end
  else (st, staticMappings, trigger_static).

End Handler.

End Background.

Module RetrySpec.
Import OpenRouterClient.

(** The error with which an attempt fails, if it does. *)
Definition failure {T} (f : FetchResult T) : option Thrown :=
  match f with
  | responds r =>
      if ok r then
        match json r with
        | returned _ => None
        | thrown e => Some e
        end
      else Some (api_error (parseErrorResponse r))
  | fetch_fails e => Some e
  end.

(** Whether [makeRequest] goes on after an error. *)
Definition retries (e : Thrown) : bool :=
  match e with
  | api_error a => retryable a
  | other_error _ => true
  end.

Definition retried {T} (f : FetchResult T) : Prop :=
  exists e, failure f = Some e /\ retries e = true.

(** How a run ends, seen from its last call of [fetch]. *)
Definition well_ended {T} (fetch : nat -> FetchResult T) (run : Run T) : Prop :=
  (1 <= calls run <= MAX_RETRIES)%nat /\
  sleeps run = firstn (calls run - 1)%nat [1000; 2000] /\
  (forall i, (i < calls run - 1)%nat -> retried (fetch i)) /\
  match outcome run with
  | returned data =>
      exists r, fetch (calls run - 1)%nat = responds r /\ ok r = true /\
                json r = returned data
  | thrown e =>
      failure (fetch (calls run - 1)%nat) = Some e /\
      (retries e = false \/ calls run = MAX_RETRIES)
  end.

End RetrySpec.

(* ===================================================================== *)
(** ** Sample data used by the concrete instances *)
(* ===================================================================== *)

Module Sample.

Definition no_attributes : FieldAttributes :=
  {| attr_name := None; attr_id := None; attr_placeholder := None;
     attr_autocomplete := None; attr_ariaLabel := None |}.

Definition no_context : FieldContext :=
  {| labelText := None; siblingText := None; parentText := None; position := (0, 0) |}.

Definition field (i label : string) (c : SemanticClass) (t : InputType)
           (a : FieldAttributes) : FieldSignature :=
  {| fs_id := i; domPath := "form > input"; inputType := t; normalizedLabel := label;
     semanticClass := c; attributes := a; context := no_context |}.

Definition plain (k v : string) : ContextField :=
  {| key := k; cf_value := v; category := cat_custom; isEncrypted := false |}.

Definition profile_of (fs : list ContextField) : Profile :=
  {| profile_id := "p1"; profile_name := "Default";
     staticContext := {| sc_fields := fs; documents := [];
                         knowledgeBase := None; knowledgeBaseChunks := None |} |}.

Definition form_of (fs : list FieldSignature) : FormSignature :=
  {| form_id := "form-1"; url := "https://example.com/apply";
     domain := "example.com"; formIndex := 0; fields := fs; detectedAt := 0 |}.

(** A text input labelled SSN: no autocomplete token, no pattern of the
    classifier matches, so its class is [unknown]. *)
Definition ssn_field : FieldSignature :=
  field "f-ssn" "ssn" unknown it_text no_attributes.

(** A password input whose autocomplete token is [email]: the classifier
    reads the token first and gives the class [email]. *)
Definition password_input : FieldSignature :=
  field "f-pw" "password" email it_password
        {| attr_name := None; attr_id := None; attr_placeholder := None;
           attr_autocomplete := Some "email"; attr_ariaLabel := None |}.

Definition full_name_field : FieldSignature :=
  field "f-name" "full name" full_name it_text no_attributes.

(** A text of [n] characters. *)
Definition text_of_length (n : N) : string :=
  string_of_list_ascii (List.repeat "a"%char (N.to_nat n)).

Definition hit (i : string) (n : N) : RAGEngine.SearchHit :=
  {| RAGEngine.hit_id := i; RAGEngine.hit_sourceType := st_document;
     RAGEngine.hit_similarity := 8 # 10; RAGEngine.hit_text := text_of_length n |}.

(** Twenty-one texts, none of them cached: two requests. *)
Definition texts21 : list string :=
  map (fun n => "chunk " +:+ JS.nat_to_string n) (seq 0 21).

(** A provider that answers the first request and fails the second. *)
Definition second_request_fails (n : nat) (batch : list string)
  : Result EmbeddingService.EmbeddingResponse :=
  if Nat.eqb n 0
  then Ok {| EmbeddingService.data := map (fun _ => [1 # 2; 1 # 2]%Q) batch;
             EmbeddingService.totalTokens := 40 |}
  else Throw (OpenRouterError "HTTP 503" SERVER_ERROR).

Definition first_request_fails (n : nat) (batch : list string)
  : Result EmbeddingService.EmbeddingResponse :=
  Throw (OpenRouterError "HTTP 503" SERVER_ERROR).

(** The collaborators of a fill request: a client whose configuration
    loads and holds an API key, and the built-ins. *)
Definition client_ready : Result unit := Ok tt.

Definition stringify (entries : list PromptBuilder.FieldSchemaEntry) : string :=
  "[" +:+ JS.join ", " (map PromptBuilder.fse_id entries) +:+ "]".

Definition never_a_number (s : string) : bool := true.

(** The provider rejects the key. *)
Definition rejects_key (messages : list LLMOrchestrator.ChatMessage)
  : Result LLMOrchestrator.ChatCompletionResponse :=
  Throw (OpenRouterError "Invalid API key" INVALID_API_KEY).

(** The JSON object with the one member f-notes. *)
Definition notes_json : string :=
  "{" +:+ PromptBuilder.dq +:+ "f-notes" +:+ PromptBuilder.dq +:+ ": "
      +:+ PromptBuilder.dq +:+ "Call me after 5pm" +:+ PromptBuilder.dq +:+ "}".

(** The provider answers with one value for the field [f-notes]. *)
Definition answers_notes (messages : list LLMOrchestrator.ChatMessage)
  : Result LLMOrchestrator.ChatCompletionResponse :=
  Ok {| LLMOrchestrator.resp_id := "gen-1";
        LLMOrchestrator.choices :=
          [ {| LLMOrchestrator.choice_role := "assistant";
               LLMOrchestrator.choice_content := Some notes_json;
               LLMOrchestrator.finishReason := "stop" |} ];
        LLMOrchestrator.usage :=
          {| LLMOrchestrator.promptTokens := 300;
             LLMOrchestrator.completionTokens := 12;
             LLMOrchestrator.totalTokens := 312 |} |}.

(** The parse of that answer: one entry. *)
Definition parse_notes (raw : string) : Result (list (string * string)) :=
  if String.eqb raw notes_json
  then Ok [("f-notes", "Call me after 5pm")]
  else Throw (Error "Failed to parse JSON: Unexpected token").

Definition vector (i : string) (e : list float) : VectorEntry :=
  {| ve_id := i; ve_profileId := "p1"; embedding := e; sourceType := st_document;
     sourceId := "d1"; ve_text := i; ve_createdAt := 0 |}.

(** Similarities with the query (1, 0): 0, 0.6, 1, 0 (dimension 3), 0.8. *)
Definition vectors : list VectorEntry :=
  [ vector "orthogonal" [0; 1]%float; vector "near" [3; 4]%float;
    vector "same" [2; 0]%float; vector "other-model" [1; 0; 0]%float;
    vector "nearer" [4; 3]%float ].

(** The sum of the squares of these components is beyond the largest
    double. *)
Definition huge : list VectorEntry :=
  [ vector "huge" [0x1p+700; 0x1p+700]%float ].

Definition text_field (i : string) : FieldSignature :=
  field i "notes" unknown it_text no_attributes.

Definition llm_mapping (i v : string) (c : Q) : FieldMapping :=
  {| fieldSignature := text_field i; value := v; confidence := c; source := src_llm |}.

(** Static: [b] at 0.9 and [a] at 0.7; LLM: [a], [b] and [c] at 0.9. *)
Definition static_mappings : list FieldMapping :=
  [ FieldMapper.mkStatic (text_field "b") "from the profile" (9 # 10);
    FieldMapper.mkStatic (text_field "a") "guess" (7 # 10) ].

(** A form with one free-text field that no profile entry matches. *)
Definition notes_request : LLMOrchestrator.FillRequest :=
  {| LLMOrchestrator.formSignature := form_of [text_field "f-notes"];
     LLMOrchestrator.profile := profile_of [plain "email" "j@x.com"];
     LLMOrchestrator.ragContext := None;
     LLMOrchestrator.useCache := Some true |}.

(** A store that holds a response for that form and profile, written at
    time 1000 and live until a week later. *)
Definition cached_notes : CachedFillResponse :=
  {| cached_mappings := [llm_mapping "f-notes" "Call me in the morning" (9 # 10)];
     cached_tokensUsed := 290; cached_createdAt := 1000; hitCount := 0 |}.


(** A profile with one plain entry, one encrypted entry, one empty entry
    and a document of 600 characters. *)
Definition mixed_profile : Profile :=
  {| profile_id := "p1"; profile_name := "Default";
     staticContext :=
       {| sc_fields :=
            [ plain "email" "j@x.com";
              {| key := "passport"; cf_value := "X1234567";
                 category := cat_personal; isEncrypted := true |};
              plain "phone" "";
              plain "city" "Lyon" ];
          documents :=
            [ {| doc_id := "d1"; doc_name := "cv.txt"; content := text_of_length 600;
                 doc_type := doc_resume; doc_embedding := None |} ];
          knowledgeBase := None; knowledgeBaseChunks := None |} |}.

Definition llm_mappings : list FieldMapping :=
  [ llm_mapping "a" "from the model" (9 # 10);
    llm_mapping "b" "also from the model" (9 # 10);
    llm_mapping "c" "only from the model" (9 # 10) ].

(** The same form, filled from a profile that has an entry under the
    key of its label: the exact-key tier maps it at 0.95. *)
Definition bell_request : LLMOrchestrator.FillRequest :=
  {| LLMOrchestrator.formSignature := form_of [text_field "f-notes"];
     LLMOrchestrator.profile := profile_of [plain "notes" "Ring the bell"];
     LLMOrchestrator.ragContext := None;
     LLMOrchestrator.useCache := None |}.

Definition bell_mapping : FieldMapping :=
  FieldMapper.mkStatic (text_field "f-notes") "Ring the bell" (95 # 100).

(** The answer to that request when the model proposes its own value. *)
Definition bell_response : LLMOrchestrator.FillResponse :=
  {| LLMOrchestrator.mappings := [bell_mapping];
     LLMOrchestrator.fill_source := LLMOrchestrator.fill_hybrid;
     LLMOrchestrator.llmUsed := true;
     LLMOrchestrator.tokensUsed := Some 312;
     LLMOrchestrator.fallbackReason := None |}.

(** An orchestrator constructed with [fallbackToStatic: false], after
    its first use. *)
Definition strict : LLMOrchestrator.State :=
  {| LLMOrchestrator.config :=
       {| LLMOrchestrator.fallbackToStatic := false;
          LLMOrchestrator.maxRetries := 2; LLMOrchestrator.timeout := 30000 |};
     LLMOrchestrator.initialized := true |}.

(** The provider is down. *)
Definition server_down (messages : list LLMOrchestrator.ChatMessage)
  : Result LLMOrchestrator.ChatCompletionResponse :=
  Throw (OpenRouterError "HTTP 503" SERVER_ERROR).

(** The same profile with another passport number. *)
Definition renewed_profile : Profile :=
  {| profile_id := "p1"; profile_name := "Default";
     staticContext :=
       {| sc_fields :=
            [ plain "email" "j@x.com";
              {| key := "passport"; cf_value := "Y7654321";
                 category := cat_personal; isEncrypted := true |};
              plain "phone" "";
              plain "city" "Lyon" ];
          documents := documents (staticContext mixed_profile);
          knowledgeBase := None; knowledgeBaseChunks := None |} |}.

Definition request_of (p : Profile) : LLMOrchestrator.FillRequest :=
  {| LLMOrchestrator.formSignature := form_of [text_field "f-notes"];
     LLMOrchestrator.profile := p;
     LLMOrchestrator.ragContext := Some ["notes: Call me after 5pm"];
     LLMOrchestrator.useCache := None |}.

(** Two forms of one site with a free-text field each. *)
Definition contact_form : FormSignature :=
  {| form_id := "contact"; url := "https://example.com/contact";
     domain := "example.com"; formIndex := 0;
     fields := [field "message" "your message" unknown it_text no_attributes;
                field "mail" "email" email it_email no_attributes];
     detectedAt := 0 |}.

Definition order_form : FormSignature :=
  {| form_id := "order"; url := "https://example.com/order";
     domain := "example.com"; formIndex := 1;
     fields := [field "billing-mail" "billing email" email it_email no_attributes;
                field "gift-note" "gift note" unknown it_text no_attributes];
     detectedAt := 0 |}.

(** A provider that answers every request, with one vector per text. *)
Definition always_answers (n : nat) (batch : list string)
  : Result EmbeddingService.EmbeddingResponse :=
  Ok {| EmbeddingService.data := map (fun _ => [1 # 2; 1 # 2]%Q) batch;
        EmbeddingService.totalTokens := 40 |}.

(** The provider of single embeddings answers with one vector. *)
Definition answers_one (t : string) : Result EmbeddingService.EmbeddingResponse :=
  Ok {| EmbeddingService.data := [[3 # 5; 4 # 5]%Q]; EmbeddingService.totalTokens := 7 |}.

Definition learned (i : string) (e : list float) : VectorEntry :=
  {| ve_id := i; ve_profileId := "p1"; embedding := e; sourceType := st_learned_example;
     sourceId := "form-1"; ve_text := i; ve_createdAt := 0 |}.

(** A vectors store, in key order: two documents and one learned example
    of profile p1, one document of profile p2. *)
Definition stored_vectors : list VectorEntry :=
  [ vector "a-doc" [0; 1]%float;
    learned "b-example" [3; 4]%float;
    {| ve_id := "c-other"; ve_profileId := "p2"; embedding := [1; 0]%float;
       sourceType := st_document; sourceId := "d9"; ve_text := "c-other";
       ve_createdAt := 0 |};
    vector "d-doc" [2; 0]%float ].

(** A provider that limits the rate twice, then answers. *)
Definition limited_twice (attempt : nat) : OpenRouterClient.FetchResult string :=
  if Nat.ltb attempt 2
  then OpenRouterClient.responds
         {| OpenRouterClient.status := 429;
            OpenRouterClient.error_message := Some "Rate limit exceeded";
            OpenRouterClient.json :=
              OpenRouterClient.thrown (OpenRouterClient.other_error "not read") |}
  else OpenRouterClient.responds
         {| OpenRouterClient.status := 200;
            OpenRouterClient.error_message := None;
            OpenRouterClient.json := OpenRouterClient.returned "gen-1" |}.

(** A provider that rejects the key. *)
Definition unauthorized (attempt : nat) : OpenRouterClient.FetchResult string :=
  OpenRouterClient.responds
    {| OpenRouterClient.status := 401;
       OpenRouterClient.error_message := Some "No auth credentials found";
       OpenRouterClient.json :=
         OpenRouterClient.thrown (OpenRouterClient.other_error "not read") |}.

(** The user corrects the value that the exact-key tier proposed, and
    then the value that the model proposed. *)
Definition edit_of (m : FieldMapping) (v : string) : LearningService.EditEvent :=
  {| LearningService.edit_formSignature := form_of [text_field "f-notes"];
     LearningService.originalMapping := m;
     LearningService.newValue := v;
     LearningService.edit_timestamp := 2000 |}.

Definition learning (pending : gmap string (list LearningService.EditEvent))
  : LearningService.World :=
  {| LearningService.config := LearningService.DEFAULT_CONFIG;
     LearningService.pendingEdits := pending;
     LearningService.learnedExamples := {[ "p1" := [] ]} |}.

Definition one_pending : gmap string (list LearningService.EditEvent) :=
  {[ "p1" := [edit_of bell_mapping "Knock twice"] ]}.

(** A field whose label is harmless and whose [name] attribute holds a
    denylisted word. *)
Definition pin_by_name : FieldSignature :=
  field "f-code" "access code" unknown it_text
        {| attr_name := Some "user-pin"; attr_id := None; attr_placeholder := None;
           attr_autocomplete := None; attr_ariaLabel := None |}.

(** The request that [second_request_fails] answers for [texts21]. *)
Definition first_answer : list (list string * EmbeddingService.EmbeddingResponse) :=
  [(firstn 20 texts21,
    {| EmbeddingService.data := map (fun _ => [1 # 2; 1 # 2]%Q) (firstn 20 texts21);
       EmbeddingService.totalTokens := 40 |})].

(** A provider that answers the requests before the [k]-th and fails
    from there on. *)
Definition fails_from (k n : nat) (batch : list string)
  : Result EmbeddingService.EmbeddingResponse :=
  if Nat.ltb n k
  then Ok {| EmbeddingService.data := map (fun _ => [1 # 2; 1 # 2]%Q) batch;
             EmbeddingService.totalTokens := 2 * Z.of_nat (length batch) |}
  else Throw (OpenRouterError "HTTP 503" SERVER_ERROR).

Definition texts541 : list string :=
  map (fun n => "chunk " +:+ JS.nat_to_string n) (seq 0 541).

(** A vector store that has loaded nothing yet. *)
Definition empty_store : VectorStore.State := {| VectorStore.cache := ∅ |}.

End Sample.

(* ===================================================================== *)
(** * Properties *)
(* ===================================================================== *)

(** ** The scenarios of the specification, run on the embedding *)

Example scenario_email_tier1 :
  FieldMapper.createSuggestedMappings
    [Sample.field "f1" "your email" email it_email Sample.no_attributes]
    (Sample.profile_of [Sample.plain "email" "j@x.com"])
  = [FieldMapper.mkStatic
       (Sample.field "f1" "your email" email it_email Sample.no_attributes) "j@x.com" 1].
Proof. vm_compute. reflexivity. Qed.

Example scenario_linkedin_partial :
  FieldMapper.createSuggestedMappings
    [Sample.field "f1" "linkedin" unknown it_text Sample.no_attributes]
    (Sample.profile_of [Sample.plain "linkedin_url" "https://linkedin.com/in/j"])
  = [FieldMapper.mkStatic
       (Sample.field "f1" "linkedin" unknown it_text Sample.no_attributes)
       "https://linkedin.com/in/j" (7 # 10)].
Proof. vm_compute. reflexivity. Qed.

Example scenario_normalizeText :
  normalizeText "  Your   E-mail!! (required) " = "your e-mail required".
Proof. vm_compute. reflexivity. Qed.

Example scenario_hashText :
  EmbeddingService.hashText "hello world" = "to5x38".
Proof. vm_compute. reflexivity. Qed.

Example scenario_search :
  map (fun r => (ve_id (VectorStore.entry r), VectorStore.similarity r))
      (snd (VectorStore.search {| VectorStore.cache := ∅ |} Sample.vectors
                               "p1" [1; 0]%float 2 0.5%float))
  = [("same", 1%float); ("nearer", (0x1.999999999999ap-1)%float)].
Proof. vm_compute. reflexivity. Qed.

(** The doubles round: a vector of three ones has the similarity
    1.0000000000000002 with itself, one of two ones 0.9999999999999998. *)
Example scenario_search_rounding :
  VectorStore.cosineSimilarity [1; 1; 1]%float [1; 1; 1]%float
  = (0x1.0000000000001p+0)%float /\
  VectorStore.cosineSimilarity [1; 1]%float [1; 1]%float
  = (0x1.ffffffffffffep-1)%float.
Proof. split; vm_compute; reflexivity. Qed.

(** When the sums overflow, the similarity is NaN, which reaches no
    threshold: the entry is not returned. *)
Example scenario_search_overflow :
  PrimFloat.is_nan
    (VectorStore.cosineSimilarity [0x1p+700; 0x1p+700]%float [0x1p+700; 0x1p+700]%float)
  = true /\
  snd (VectorStore.search {| VectorStore.cache := ∅ |} Sample.huge
                          "p1" [0x1p+700; 0x1p+700]%float 5 0%float)
  = [].
Proof. split; vm_compute; reflexivity. Qed.

(** A negative count is taken from the end of the ranking. *)
Example scenario_search_negative_count :
  map (fun r => ve_id (VectorStore.entry r))
      (snd (VectorStore.search {| VectorStore.cache := ∅ |} Sample.vectors
                               "p1" [1; 0]%float (-2) 0.5%float))
  = ["same"].
Proof. vm_compute. reflexivity. Qed.

Example scenario_security_violation :
  ResponseValidator.valid
    (ResponseValidator.validate
       (fun _ => Ok [("f-pw", "hunter2")]) Sample.never_a_number "raw"
       (Sample.form_of [Sample.password_input]))
  = false.
Proof. vm_compute. reflexivity. Qed.

(** ** Static matcher and denylist (C1, C8) *)

Lemma SemanticClass_eqb_eq (a b : SemanticClass) :
  SemanticClass_eqb a b = true <-> a = b.
Proof. destruct a, b; simpl; split; intros H; try reflexivity; discriminate H. Qed.

Lemma tryFuzzyMatch_field field pf m :
  FieldMapper.tryFuzzyMatch field pf = Some m -> fieldSignature m = field.
Proof.
  unfold FieldMapper.tryFuzzyMatch.
  destruct (FieldMapper.exactKeyMatch _ pf); [intros [= <-]; reflexivity|].
  destruct (FieldMapper.patternMatch _ pf _); [intros [= <-]; reflexivity|].
  destruct (FieldMapper.partialKeyMatch _ pf); [intros [= <-]; reflexivity|].
  discriminate.
Qed.

Lemma mapField_field pf field m :
  FieldMapper.mapField pf field = Some m ->
  fieldSignature m = field /\ semanticClass field <> password.
Proof.
  unfold FieldMapper.mapField.
  destruct (SemanticClass_eqb (semanticClass field) password) eqn:Hpw; [discriminate|].
  assert (semanticClass field <> password) as Hne.
  { intros Heq. apply SemanticClass_eqb_eq in Heq. congruence. }
  destruct (SemanticClass_eqb (semanticClass field) unknown).
  - intros H. split; [eapply tryFuzzyMatch_field; eassumption | assumption].
  - destruct (FieldMapper.firstKeyValue pf _).
    + intros [= <-]. split; [reflexivity | assumption].
    + intros H. split; [eapply tryFuzzyMatch_field; eassumption | assumption].
Qed.

Lemma mapFields_not_password pf fs :
  Forall (fun m => semanticClass (fieldSignature m) <> password)
         (FieldMapper.mapFields pf fs).
Proof.
  induction fs as [|f fs IH]; simpl; [constructor|].
  destruct (FieldMapper.mapField pf f) as [m|] eqn:Hm; [|assumption].
  apply mapField_field in Hm as [Hf Hne].
  constructor; [rewrite Hf; exact Hne | exact IH].
Qed.

Lemma findClass_class c fs f :
  FieldMapper.findClass c fs = Some f -> semanticClass f = c.
Proof.
  unfold FieldMapper.findClass. intros H.
  apply find_some in H as [_ H]. apply SemanticClass_eqb_eq in H. exact H.
Qed.

Lemma Forall_snoc_static (P : FieldMapping -> Prop) l f v c :
  Forall P l -> P (FieldMapper.mkStatic f v c) ->
  Forall P (l ++ [FieldMapper.mkStatic f v c]).
Proof. intros Hl Hp. apply Forall_app. split; [assumption | constructor; [assumption | constructor]]. Qed.

Lemma createSuggestedMappings_not_password fs p :
  Forall (fun m => semanticClass (fieldSignature m) <> password)
         (FieldMapper.createSuggestedMappings fs p).
Proof.
  pose proof (mapFields_not_password (sc_fields (staticContext p)) fs) as Hbase.
  unfold FieldMapper.createSuggestedMappings, FieldMapper.mapFieldsToProfile.
  set (base := FieldMapper.mapFields _ fs) in *.
  assert (forall c f v l,
             c <> password -> FieldMapper.findClass c fs = Some f ->
             Forall (fun m => semanticClass (fieldSignature m) <> password) l ->
             Forall (fun m => semanticClass (fieldSignature m) <> password)
                    (l ++ [FieldMapper.mkStatic f v (9 # 10)])) as Hadd.
  { intros c f v l Hc Hf Hl. apply Forall_snoc_static; [assumption|].
    simpl. apply findClass_class in Hf. congruence. }
  repeat match goal with
         | |- Forall _ (match ?x with _ => _ end) => destruct x eqn:?
         | |- Forall _ (if ?x then _ else _) => destruct x eqn:?
         | |- Forall _ (_ ++ [_]) => eapply Hadd; [| eassumption |]; [discriminate|]
         | |- Forall _ base => exact Hbase
         end.
Qed.

(** C1, the claim as stated fails: a field that [isFieldDenylisted] flags
    (by its label [ssn], or by its input kind [password]) still receives a
    mapping from the static tiers, here from the exact-key tier at
    confidence 0.95 and from the semantic-class tier at confidence 1. *)
Lemma C1_denylisted_field_is_mapped :
  FieldDenylist.isFieldDenylisted Sample.ssn_field = true /\
  FieldMapper.createSuggestedMappings
    [Sample.ssn_field] (Sample.profile_of [Sample.plain "ssn" "078-05-1120"])
  = [FieldMapper.mkStatic Sample.ssn_field "078-05-1120" (95 # 100)] /\
  FieldDenylist.isFieldDenylisted Sample.password_input = true /\
  FieldMapper.createSuggestedMappings
    [Sample.password_input] (Sample.profile_of [Sample.plain "email" "j@x.com"])
  = [FieldMapper.mkStatic Sample.password_input "j@x.com" 1].
Proof. repeat split; vm_compute; reflexivity. Qed.

(** The static matcher maps the three fields of this form; executeFill
    asks the page for the name field only: the field labelled SSN and
    the password input are passed over. *)
Example executeFill_skips_denylisted :
  let mappings :=
    FieldMapper.createSuggestedMappings
      [Sample.ssn_field; Sample.full_name_field; Sample.password_input]
      (Sample.profile_of [Sample.plain "ssn" "078-05-1120";
                          Sample.plain "fullName" "Ada Lovelace";
                          Sample.plain "email" "ada@example.com"]) in
  map (fun m => fs_id (fieldSignature m)) mappings = ["f-ssn"; "f-name"; "f-pw"] /\
  FillExecutor.pageCalls nat (fun i _ => Some i) (fun _ _ _ => Ok tt) None (fun _ => "")
                         mappings
  = [FillExecutor.find_element Sample.full_name_field;
     FillExecutor.fill_field Sample.full_name_field "Ada Lovelace"].
Proof. vm_compute. split; reflexivity. Qed.

Section PageCalls.
Import FillExecutor.

Variable Element : Type.
Variable findFieldElement : nat -> FieldSignature -> option Element.
Variable fillField : nat -> Element -> string -> Result unit.
Variable onProgress : option (nat -> nat -> string -> Result unit).
Variable String_of : JsError -> string.

(** The loop asks the page only about fields that pass the denylist
    test. *)
Lemma executeFill_loop_calls i total mappings filled errs calls :
  Forall (fun c => FieldDenylist.isFieldDenylisted (call_signature c) = false) calls ->
  Forall (fun c => FieldDenylist.isFieldDenylisted (call_signature c) = false)
         (snd (executeFill_loop Element findFieldElement fillField onProgress String_of
                                i total mappings filled errs calls)).
Proof.
  revert i filled errs calls.
  induction mappings as [|mapping rest IH]; intros i filled errs calls Hcalls; simpl;
    [exact Hcalls|].
  destruct (FieldDenylist.isFieldDenylisted (fieldSignature mapping)) eqn:Hdeny;
    [apply IH, Hcalls|].
  assert (Forall (fun c => FieldDenylist.isFieldDenylisted (call_signature c) = false)
                 (calls ++ [find_element (fieldSignature mapping)])) as Hfind.
  { apply Forall_app. split; [exact Hcalls|]. constructor; [exact Hdeny | constructor]. }
  assert (Forall (fun c => FieldDenylist.isFieldDenylisted (call_signature c) = false)
                 ((calls ++ [find_element (fieldSignature mapping)])
                  ++ [fill_field (fieldSignature mapping) (value mapping)])) as Hfill.
  { apply Forall_app. split; [exact Hfind|]. constructor; [exact Hdeny | constructor]. }
  destruct (findFieldElement i (fieldSignature mapping)) as [element|]; [|apply IH, Hfind].
  destruct (fillField i element (value mapping)) as [[]|e]; [|apply IH, Hfill].
  destruct onProgress as [callback|]; [|apply IH, Hfill].
  destruct (callback (S i) total (normalizedLabel (fieldSignature mapping))) as [[]|e];
    apply IH, Hfill.
Qed.

(** And it looks up every field that passes the test: the signatures of
    the [findFieldElement] calls are those of the [attempted] mappings,
    in order. *)
Lemma executeFill_loop_lookups i total mappings filled errs calls :
  omap (fun c => match c with find_element s => Some s | fill_field _ _ => None end)
       (snd (executeFill_loop Element findFieldElement fillField onProgress String_of
                              i total mappings filled errs calls))
  = omap (fun c => match c with find_element s => Some s | fill_field _ _ => None end) calls
    ++ map fieldSignature (attempted mappings).
Proof.
  revert i filled errs calls.
  induction mappings as [|mapping rest IH]; intros i filled errs calls; simpl;
    [rewrite app_nil_r; reflexivity|].
  unfold attempted. simpl.
  destruct (FieldDenylist.isFieldDenylisted (fieldSignature mapping)); simpl; [apply IH|].
  fold (attempted rest).
  destruct (findFieldElement i (fieldSignature mapping)) as [element|].
  2:{ rewrite IH, omap_app. simpl. rewrite <- app_assoc. reflexivity. }
  assert (omap (fun c => match c with
                         | find_element s => Some s
                         | fill_field _ _ => None
                         end)
               ((calls ++ [find_element (fieldSignature mapping)])
                ++ [fill_field (fieldSignature mapping) (value mapping)])
          ++ map fieldSignature (attempted rest)
          = omap (fun c => match c with
                           | find_element s => Some s
                           | fill_field _ _ => None
                           end) calls
            ++ fieldSignature mapping :: map fieldSignature (attempted rest)) as Hcalls.
  { rewrite !omap_app. simpl. rewrite app_nil_r, <- app_assoc. reflexivity. }
  destruct (fillField i element (value mapping)) as [[]|e]; [|rewrite IH; exact Hcalls].
  destruct onProgress as [callback|]; [|rewrite IH; exact Hcalls].
  destruct (callback (S i) total (normalizedLabel (fieldSignature mapping))) as [[]|e];
    rewrite IH; exact Hcalls.
Qed.

End PageCalls.

(** C1, amended: for every field list and every profile, no mapping
    produced by the static tiers of mapFieldsToProfile and by the
    post-pass of createSuggestedMappings belongs to a field whose semantic
    class is [password]; and on every page and for every list of
    mappings, executeFill calls findFieldElement and fillField only for
    fields that [isFieldDenylisted] does not flag, and looks up exactly
    the fields of the mappings that pass that test, in order. *)
Theorem C1_static_matcher_skips_password_class (fs : list FieldSignature) (p : Profile) :
  Forall (fun m => semanticClass (fieldSignature m) <> password)
         (FieldMapper.mapFieldsToProfile fs p) /\
  Forall (fun m => semanticClass (fieldSignature m) <> password)
         (FieldMapper.createSuggestedMappings fs p) /\
  forall (Element : Type)
         (findFieldElement : nat -> FieldSignature -> option Element)
         (fillField : nat -> Element -> string -> Result unit)
         (onProgress : option (nat -> nat -> string -> Result unit))
         (String_of : JsError -> string)
         (mappings : list FieldMapping),
    let calls := FillExecutor.pageCalls Element findFieldElement fillField onProgress
                                        String_of mappings in
    Forall (fun c => FieldDenylist.isFieldDenylisted (FillExecutor.call_signature c) = false)
           calls /\
    omap (fun c => match c with
                   | FillExecutor.find_element s => Some s
                   | FillExecutor.fill_field _ _ => None
                   end) calls
    = map fieldSignature (FillExecutor.attempted mappings).
Proof.
  split; [apply mapFields_not_password|].
  split; [apply createSuggestedMappings_not_password|].
  intros Element findFieldElement fillField onProgress String_of mappings calls.
  subst calls. unfold FillExecutor.pageCalls. split.
  - apply executeFill_loop_calls. constructor.
  - rewrite executeFill_loop_lookups. reflexivity.
Qed.

Lemma or_else_truthy v b : v <> EmptyString -> JS.or_else (Some v) b = Some v.
Proof. intros Hv. destruct v; [contradiction | reflexivity]. Qed.

(** C8: when the profile has a non-empty firstName and a non-empty
    lastName and no fullName entry, and the form has a full_name-class
    field and neither a first_name-class nor a last_name-class field,
    createSuggestedMappings appends, for the (first) full-name field that
    the tiers left unmapped, exactly one mapping: value firstName, one
    blank, lastName; confidence 0.9; source static. *)
Theorem C8_full_name_is_joined
        (fs : list FieldSignature) (p : Profile)
        (firstName lastName : ContextField) (fullNameField : FieldSignature) :
  FieldMapper.findField (sc_fields (staticContext p)) "firstName" = Some firstName ->
  cf_value firstName <> EmptyString ->
  FieldMapper.findField (sc_fields (staticContext p)) "lastName" = Some lastName ->
  cf_value lastName <> EmptyString ->
  FieldMapper.findField (sc_fields (staticContext p)) "fullName" = None ->
  FieldMapper.hasClass first_name fs = false ->
  FieldMapper.hasClass last_name fs = false ->
  FieldMapper.findClass full_name fs = Some fullNameField ->
  FieldMapper.isMapped (FieldMapper.mapFieldsToProfile fs p) fullNameField = false ->
  FieldMapper.createSuggestedMappings fs p =
    FieldMapper.mapFieldsToProfile fs p ++
    [ {| fieldSignature := fullNameField;
         value := cf_value firstName +:+ " " +:+ cf_value lastName;
         confidence := 9 # 10;
         source := src_static |} ].
Proof.
  intros Hfirst Hfv Hlast Hlv Hfull Hnf Hnl Hfn Hunmapped.
  assert (FieldMapper.hasClass full_name fs = true) as Hhas.
  { unfold FieldMapper.hasClass, FieldMapper.findClass in *.
    apply find_some in Hfn as [Hin Hc]. apply existsb_exists. eauto. }
  unfold FieldMapper.createSuggestedMappings.
  rewrite Hhas, Hnf, Hnl, Hfirst, Hlast, Hfull, Hfn. cbn [negb andb fmap option_fmap option_map].
  rewrite !or_else_truthy by assumption.
  rewrite Hunmapped. reflexivity.
Qed.

Lemma C8_full_name_is_joined_witness :
  FieldMapper.createSuggestedMappings
    [Sample.full_name_field]
    (Sample.profile_of [Sample.plain "firstName" "Ada"; Sample.plain "lastName" "Lovelace"])
  = [ {| fieldSignature := Sample.full_name_field; value := "Ada Lovelace";
         confidence := 9 # 10; source := src_static |} ].
Proof.
  exact (C8_full_name_is_joined
           [Sample.full_name_field]
           (Sample.profile_of [Sample.plain "firstName" "Ada"; Sample.plain "lastName" "Lovelace"])
           (Sample.plain "firstName" "Ada") (Sample.plain "lastName" "Lovelace")
           Sample.full_name_field
           eq_refl ltac:(discriminate) eq_refl ltac:(discriminate)
           eq_refl eq_refl eq_refl eq_refl eq_refl).
Defined.

(** ** Confidence merge (C4) *)

Section Merge.
Import ResponseValidator MergeSpec.

Lemma map_get_set m k v k' :
  map_get (map_set m k v) k' = if String.eqb k k' then Some v else map_get m k'.
Proof.
  induction m as [|[k0 v0] m IH]; simpl.
  - reflexivity.
  - destruct (String.eqb_spec k0 k) as [->|Hk0]; simpl.
    + destruct (String.eqb k k'); reflexivity.
    + rewrite IH. destruct (String.eqb_spec k0 k') as [->|Hk0']; [|reflexivity].
      destruct (String.eqb_spec k k') as [->|]; [contradiction | reflexivity].
Qed.

Lemma map_set_keys m k v k' :
  In k' (map fst (map_set m k v)) <-> k' = k \/ In k' (map fst m).
Proof.
  induction m as [|[k0 v0] m IH]; simpl.
  - intuition.
  - destruct (String.eqb k0 k) eqn:Hk0; simpl.
    + apply String.eqb_eq in Hk0 as ->. intuition.
    + rewrite IH. intuition.
Qed.

Lemma map_set_NoDup m k v :
  List.NoDup (map fst m) -> List.NoDup (map fst (map_set m k v)).
Proof.
  induction m as [|[k0 v0] m IH]; simpl; intros Hnd.
  - constructor; [intros [] | constructor].
  - inversion Hnd as [|? ? Hnotin Hnd']; subst.
    destruct (String.eqb k0 k) eqn:Hk0; simpl.
    + constructor; assumption.
    + constructor; [|auto].
      rewrite map_set_keys. intros [->|Hin]; [|contradiction].
      rewrite String.eqb_refl in Hk0. discriminate.
Qed.

Lemma map_set_keyed m k v :
  keyed m -> k = fid v -> keyed (map_set m k v).
Proof.
  unfold keyed. induction m as [|[k0 v0] m IH]; simpl; intros Hm Hk.
  - constructor; [assumption | constructor].
  - inversion Hm as [|? ? Hhd Htl]; subst.
    destruct (String.eqb k0 (fid v)) eqn:Hk0.
    + apply String.eqb_eq in Hk0. constructor; assumption.
    + constructor; [assumption | auto].
Qed.

Lemma map_set_values m k v x :
  In x (map snd (map_set m k v)) -> x = v \/ In x (map snd m).
Proof.
  induction m as [|[k0 v0] m IH]; simpl.
  - intuition.
  - destruct (String.eqb k0 k); simpl; intuition.
Qed.

Lemma map_get_In m k v : map_get m k = Some v -> In v (map snd m).
Proof.
  induction m as [|[k0 v0] m IH]; simpl; [discriminate|].
  destruct (String.eqb k0 k); [intros [= ->]; auto | auto].
Qed.

Lemma map_get_None m k : map_get m k = None <-> ~ In k (map fst m).
Proof.
  induction m as [|[k0 v0] m IH]; simpl.
  - intuition.
  - destruct (String.eqb k0 k) eqn:Hk0.
    + apply String.eqb_eq in Hk0. split; [discriminate | intuition].
    + apply String.eqb_neq in Hk0. rewrite IH. intuition.
Qed.

Lemma addStatic_wf m x : wf m -> wf (addStatic m x).
Proof.
  intros [Hnd Hk]. unfold addStatic.
  split; [apply map_set_NoDup | apply map_set_keyed]; auto.
Qed.

Lemma addLLM_wf m x : wf m -> wf (addLLM m x).
Proof.
  intros [Hnd Hk]. unfold addLLM.
  destruct (map_get m _) as [e|]; [destruct (Qgtb _ _)|];
    try (split; [apply map_set_NoDup | apply map_set_keyed]; auto); split; auto.
Qed.

Lemma fold_addStatic_wf l m : wf m -> wf (fold_left addStatic l m).
Proof. revert m. induction l; simpl; auto using addStatic_wf. Qed.

Lemma fold_addLLM_wf l m : wf m -> wf (fold_left addLLM l m).
Proof. revert m. induction l; simpl; auto using addLLM_wf. Qed.

Lemma addLLM_keys m x k :
  In k (map fst (addLLM m x)) <-> k = fid x \/ In k (map fst m).
Proof.
  unfold addLLM. destruct (map_get m _) as [e|] eqn:Hget.
  - assert (In (fid x) (map fst m)) as Hin.
    { destruct (in_dec string_dec (fid x) (map fst m)) as [|Hn]; [assumption|].
      apply map_get_None in Hn. unfold fid in Hn. congruence. }
    destruct (Qgtb _ _); [rewrite map_set_keys; reflexivity|].
    split; [auto | intros [->|]; assumption].
  - apply map_set_keys.
Qed.

Lemma fold_addStatic_keys l m k :
  In k (map fst (fold_left addStatic l m)) <-> In k (map fid l) \/ In k (map fst m).
Proof.
  revert m. induction l as [|x l IH]; simpl; intros m; [intuition|].
  rewrite IH. unfold addStatic. rewrite map_set_keys. unfold fid. intuition.
Qed.

Lemma fold_addLLM_keys l m k :
  In k (map fst (fold_left addLLM l m)) <-> In k (map fid l) \/ In k (map fst m).
Proof.
  revert m. induction l as [|x l IH]; simpl; intros m; [intuition|].
  rewrite IH, addLLM_keys. intuition.
Qed.

Lemma addLLM_values m x v :
  In v (map snd (addLLM m x)) -> v = x \/ In v (map snd m).
Proof.
  unfold addLLM. destruct (map_get m _); [destruct (Qgtb _ _)|];
    intros H; try (apply map_set_values in H); tauto.
Qed.

Lemma fold_addStatic_values l m v :
  In v (map snd (fold_left addStatic l m)) -> In v l \/ In v (map snd m).
Proof.
  revert m. induction l as [|x l IH]; simpl; intros m; [auto|].
  intros H. apply IH in H as [H|H]; [auto|].
  apply map_set_values in H as [->|H]; auto.
Qed.

Lemma fold_addLLM_values l m v :
  In v (map snd (fold_left addLLM l m)) -> In v l \/ In v (map snd m).
Proof.
  revert m. induction l as [|x l IH]; simpl; intros m; [auto|].
  intros H. apply IH in H as [H|H]; [auto|].
  apply addLLM_values in H as [->|H]; auto.
Qed.

Lemma fold_addStatic_get l m i :
  map_get (fold_left addStatic l m) i = fold_left keep_last (with_id i l) (map_get m i).
Proof.
  revert m. induction l as [|x l IH]; simpl; intros m; [reflexivity|].
  rewrite IH. unfold addStatic. rewrite map_get_set. fold (fid x).
  destruct (String.eqb (fid x) i); reflexivity.
Qed.

Lemma fold_addLLM_get l m i :
  map_get (fold_left addLLM l m) i = fold_left keep_better (with_id i l) (map_get m i).
Proof.
  revert m. induction l as [|x l IH]; simpl; intros m; [reflexivity|].
  rewrite IH. unfold with_id at 2. simpl. fold (with_id i l).
  assert (map_get (addLLM m x) i =
          if String.eqb (fid x) i then keep_better (map_get m i) x else map_get m i) as ->.
  { unfold addLLM. fold (fid x).
    destruct (String.eqb_spec (fid x) i) as [<-|Hi].
    - destruct (map_get m (fid x)) as [e|] eqn:Hget; simpl.
      + destruct (Qgtb _ _); [|assumption].
        rewrite map_get_set, String.eqb_refl. reflexivity.
      + rewrite map_get_set, String.eqb_refl. reflexivity.
    - destruct (map_get m (fid x)) as [e|]; [destruct (Qgtb _ _)|];
        rewrite ?map_get_set; try reflexivity;
        destruct (String.eqb_spec (fid x) i); try contradiction; reflexivity. }
  destruct (String.eqb (fid x) i); reflexivity.
Qed.

Lemma keyed_ids m : keyed m -> map fid (map snd m) = map fst m.
Proof.
  unfold keyed. induction 1 as [|[k v] m Hk _ IH]; simpl; [reflexivity|].
  simpl in Hk. rewrite IH, Hk. reflexivity.
Qed.

Lemma merge_wf llm static :
  wf (fold_left addLLM llm (fold_left addStatic static [])).
Proof.
  apply fold_addLLM_wf, fold_addStatic_wf. split; constructor.
Qed.

Lemma keyed_find m i :
  keyed m -> List.find (fun x => String.eqb (fid x) i) (map snd m) = map_get m i.
Proof.
  unfold keyed. induction 1 as [|[k v] m Hk _ IH]; simpl; [reflexivity|].
  simpl in Hk. rewrite Hk, IH. reflexivity.
Qed.

(** The whole of the merge, one field id at a time and for any two
    lists: among the static mappings of an id the last one stands, and
    the LLM mappings of that id then replace what stands, in order, each
    only when its confidence is strictly higher. *)
Lemma merge_find llm static i :
  List.find (fun x => String.eqb (fid x) i) (mergeWithStaticMappings llm static)
  = fold_left keep_better (with_id i llm)
              (fold_left keep_last (with_id i static) None).
Proof.
  unfold mergeWithStaticMappings.
  rewrite keyed_find by apply merge_wf.
  rewrite fold_addLLM_get, fold_addStatic_get. reflexivity.
Qed.

Lemma Qgtb_true a b : Qgtb a b = true <-> (b < a)%Q.
Proof.
  unfold Qgtb. rewrite negb_true_iff. split; intros H.
  - apply Qnot_le_lt. intros Hle. apply Qle_bool_iff in Hle. congruence.
  - destruct (Qle_bool a b) eqn:Hle; [|reflexivity].
    apply Qle_bool_iff in Hle. exfalso. eapply Qlt_not_le; eassumption.
Qed.

Lemma Qgtb_false a b : Qgtb a b = false <-> (a <= b)%Q.
Proof.
  unfold Qgtb. rewrite negb_false_iff. apply Qle_bool_iff.
Qed.

End Merge.

(** C4: mergeWithStaticMappings returns exactly one mapping per field id
    of either list, each taken from one of the two lists; for a field id
    that has a static mapping [s] and an LLM mapping [l], it keeps [l]
    when the confidence of [l] is strictly higher, and keeps the static
    mapping [s] otherwise, in particular when the two are equal. *)
Theorem C4_merge_keeps_higher_confidence (llm static : list FieldMapping) :
  List.NoDup (map MergeSpec.fid (ResponseValidator.mergeWithStaticMappings llm static)) /\
  (forall i,
      In i (map MergeSpec.fid (ResponseValidator.mergeWithStaticMappings llm static))
      <-> In i (map MergeSpec.fid static) \/ In i (map MergeSpec.fid llm)) /\
  (forall m,
      In m (ResponseValidator.mergeWithStaticMappings llm static) ->
      In m static \/ In m llm) /\
  (forall s l,
      MergeSpec.with_id (MergeSpec.fid s) static = [s] ->
      MergeSpec.with_id (MergeSpec.fid s) llm = [l] ->
      ((confidence s < confidence l)%Q ->
       In l (ResponseValidator.mergeWithStaticMappings llm static)) /\
      ((confidence l <= confidence s)%Q ->
       In s (ResponseValidator.mergeWithStaticMappings llm static))).
Proof.
  unfold ResponseValidator.mergeWithStaticMappings.
  destruct (merge_wf llm static) as [Hnd Hkeyed].
  split; [|split; [|split]].
  - rewrite keyed_ids by assumption. exact Hnd.
  - intros i. rewrite keyed_ids by assumption.
    rewrite fold_addLLM_keys, fold_addStatic_keys. simpl. tauto.
  - intros m H. apply fold_addLLM_values in H as [H|H]; [auto|].
    apply fold_addStatic_values in H as [H|[]]. auto.
  - intros s l Hs Hl. split.
    + intros Hlt. apply map_get_In with (k := MergeSpec.fid s).
      rewrite fold_addLLM_get, fold_addStatic_get, Hs, Hl. simpl.
      apply Qgtb_true in Hlt. rewrite Hlt. reflexivity.
    + intros Hle. apply map_get_In with (k := MergeSpec.fid s).
      rewrite fold_addLLM_get, fold_addStatic_get, Hs, Hl. simpl.
      apply Qgtb_false in Hle. rewrite Hle. reflexivity.
Qed.

Lemma C4_merge_keeps_higher_confidence_witness :
  In (Sample.llm_mapping "a" "from the model" (9 # 10))
     (ResponseValidator.mergeWithStaticMappings Sample.llm_mappings Sample.static_mappings) /\
  In (FieldMapper.mkStatic (Sample.text_field "b") "from the profile" (9 # 10))
     (ResponseValidator.mergeWithStaticMappings Sample.llm_mappings Sample.static_mappings).
Proof.
  destruct (C4_merge_keeps_higher_confidence Sample.llm_mappings Sample.static_mappings)
    as (_ & _ & _ & H).
  split.
  - apply (H (FieldMapper.mkStatic (Sample.text_field "a") "guess" (7 # 10))
             (Sample.llm_mapping "a" "from the model" (9 # 10)));
      reflexivity.
  - apply (H (FieldMapper.mkStatic (Sample.text_field "b") "from the profile" (9 # 10))
             (Sample.llm_mapping "b" "also from the model" (9 # 10)));
      [reflexivity | reflexivity | discriminate].
Defined.

(** ** RAG context packer (C6) *)

Section Packer.
Import RAGEngine PackSpec.

Lemma estimateTokens_nonneg t : 0 <= estimateTokens t.
Proof. unfold estimateTokens, CHARS_PER_TOKEN. apply Z.div_pos; lia. Qed.

Lemma sumTokens_nonneg l : 0 <= sumTokens l.
Proof.
  induction l as [|r l IH]; simpl; [lia|].
  pose proof (estimateTokens_nonneg (hit_text r)). lia.
Qed.

(** While the entries fit, the loop only moves them to the accumulators. *)
Lemma buildContext_loop_whole pre rest maxTokens ctx sources total :
  total + sumTokens pre <= maxTokens ->
  buildContext_loop (pre ++ rest) maxTokens ctx sources total =
  buildContext_loop rest maxTokens (ctx ++ map hit_text pre) (sources ++ map whole pre)
                    (total + sumTokens pre).
Proof.
  revert ctx sources total.
  induction pre as [|r pre IH]; intros ctx sources total Hfit; simpl in *.
  - rewrite !app_nil_r, Z.add_0_r. reflexivity.
  - pose proof (sumTokens_nonneg pre). pose proof (estimateTokens_nonneg (hit_text r)).
    destruct (Z.ltb_spec maxTokens (total + estimateTokens (hit_text r))) as [Hover|_]; [lia|].
    rewrite IH by lia.
    rewrite <- !app_assoc, Z.add_assoc. reflexivity.
Qed.

End Packer.

(** C6, the claim as stated fails: with the default budget of 1500
    tokens, after a first entry of 1450 tokens exactly 50 tokens remain;
    the next entry (51 tokens) overflows and is dropped, not truncated. *)
Lemma C6_fifty_tokens_left_drops_entry :
  RAGEngine.estimateTokens (RAGEngine.hit_text (Sample.hit "first" 5800%N)) = 1450 /\
  RAGEngine.estimateTokens (RAGEngine.hit_text (Sample.hit "second" 204%N)) = 51 /\
  RAGEngine.DEFAULT_maxContextTokens - 1450 = 50 /\
  RAGEngine.pk_context
    (RAGEngine.buildContext [Sample.hit "first" 5800%N; Sample.hit "second" 204%N]
                            RAGEngine.DEFAULT_maxContextTokens)
  = [Sample.text_of_length 5800%N].
Proof. repeat split; vm_compute; reflexivity. Qed.

(** C6, amended: buildContext accumulates whole entries, in order, while
    each fits the remaining budget (tokens are the character count
    divided by 4, rounded up); at the first entry that would overflow it
    stops, adding no further entry, and it adds that entry, truncated to
    four characters per remaining token and followed by an ellipsis, if
    and only if more than 50 tokens remain. *)
Theorem C6_context_packing :
  (forall results maxTokens,
      PackSpec.sumTokens results <= maxTokens ->
      RAGEngine.buildContext results maxTokens = PackSpec.packed results []) /\
  (forall pre r post maxTokens,
      PackSpec.sumTokens pre <= maxTokens ->
      maxTokens < PackSpec.sumTokens pre + RAGEngine.estimateTokens (RAGEngine.hit_text r) ->
      RAGEngine.buildContext (pre ++ r :: post) maxTokens =
      PackSpec.packed pre
        (if 50 <? maxTokens - PackSpec.sumTokens pre
         then [ (RAGEngine.truncatedText r (maxTokens - PackSpec.sumTokens pre) +:+ "...",
                 RAGEngine.truncated r (maxTokens - PackSpec.sumTokens pre)) ]
         else [])).
Proof.
  split.
  - intros results maxTokens Hfit. unfold RAGEngine.buildContext.
    rewrite <- (app_nil_r results) at 1.
    rewrite buildContext_loop_whole by (simpl; lia).
    unfold PackSpec.packed. simpl. rewrite !app_nil_r. reflexivity.
  - intros pre r post maxTokens Hfit Hover. unfold RAGEngine.buildContext.
    rewrite buildContext_loop_whole by (simpl; lia).
    simpl. rewrite Z.add_0_l.
    destruct (Z.ltb_spec maxTokens
                (PackSpec.sumTokens pre + RAGEngine.estimateTokens (RAGEngine.hit_text r)))
      as [_|Hno]; [|lia].
    unfold PackSpec.packed.
    destruct (50 <? maxTokens - PackSpec.sumTokens pre); simpl;
      rewrite ?app_nil_r; reflexivity.
Qed.

Lemma C6_context_packing_witness :
  RAGEngine.buildContext [Sample.hit "first" 5600%N; Sample.hit "second" 600%N]
                         RAGEngine.DEFAULT_maxContextTokens
  = PackSpec.packed [Sample.hit "first" 5600%N]
      [ (Sample.text_of_length 400%N +:+ "...",
         RAGEngine.truncated (Sample.hit "second" 600%N) 100) ].
Proof.
  exact (proj2 C6_context_packing
               [Sample.hit "first" 5600%N] (Sample.hit "second" 600%N) []
               RAGEngine.DEFAULT_maxContextTokens
               ltac:(vm_compute; discriminate) ltac:(vm_compute; reflexivity)).
Defined.

(** ** Vector search (C7) *)

(** *** IEEE 754 doubles: rounding keeps the sign of a difference *)

Section FloatOrder.
Import Double.

Lemma digits2_pos_bounds (m : positive) :
  2 ^ (Z.pos (digits2_pos m) - 1) <= Z.pos m < 2 ^ Z.pos (digits2_pos m).
Proof.
  induction m as [m IH|m IH|]; simpl digits2_pos.
  - rewrite Pos2Z.inj_succ, (Pos2Z.inj_xI m).
    replace (Z.succ (Z.pos (digits2_pos m)) - 1) with (Z.succ (Z.pos (digits2_pos m) - 1)) by lia.
    rewrite !Z.pow_succ_r by lia.
    generalize dependent (2 ^ (Z.pos (digits2_pos m) - 1)).
    generalize (2 ^ Z.pos (digits2_pos m)). intros; lia.
  - rewrite Pos2Z.inj_succ, (Pos2Z.inj_xO m).
    replace (Z.succ (Z.pos (digits2_pos m)) - 1) with (Z.succ (Z.pos (digits2_pos m) - 1)) by lia.
    rewrite !Z.pow_succ_r by lia.
    generalize dependent (2 ^ (Z.pos (digits2_pos m) - 1)).
    generalize (2 ^ Z.pos (digits2_pos m)). intros; lia.
  - simpl. lia.
Qed.

Lemma shr_1_bound mrs :
  0 <= shr_m mrs ->
  0 <= shr_m (shr_1 mrs) /\ shr_m mrs < 2 * (shr_m (shr_1 mrs) + 1).
Proof.
  destruct mrs as [m r s]. simpl. intros Hm.
  destruct m as [|[p|p|]|p]; simpl; lia.
Qed.

Lemma iter_shr_1_bound (n : positive) mrs :
  0 <= shr_m mrs ->
  0 <= shr_m (SpecFloat.iter_pos shr_1 n mrs)
  /\ shr_m mrs < 2 ^ Z.pos n * (shr_m (SpecFloat.iter_pos shr_1 n mrs) + 1).
Proof.
  revert mrs. induction n as [n IH|n IH|]; intros mrs Hm; cbn [SpecFloat.iter_pos].
  - destruct (shr_1_bound mrs Hm) as [H0 H1].
    destruct (IH _ H0) as [H2 H3]. destruct (IH _ H2) as [H4 H5].
    split; [exact H4|].
    rewrite (Pos2Z.inj_xI n).
    replace (2 * Z.pos n + 1) with (1 + Z.pos n + Z.pos n) by lia.
    rewrite !Z.pow_add_r by lia. change (2 ^ 1) with 2.
    pose proof (Z.pow_pos_nonneg 2 (Z.pos n) ltac:(lia) ltac:(lia)) as Hpow.
    generalize dependent (2 ^ Z.pos n). intros P IH H3 H5 Hpow.
    assert (shr_m (SpecFloat.iter_pos shr_1 n (shr_1 mrs)) + 1
            <= P * (shr_m (SpecFloat.iter_pos shr_1 n
                             (SpecFloat.iter_pos shr_1 n (shr_1 mrs))) + 1)) as Hb by lia.
    assert (P * (shr_m (SpecFloat.iter_pos shr_1 n (shr_1 mrs)) + 1)
            <= P * (P * (shr_m (SpecFloat.iter_pos shr_1 n
                                  (SpecFloat.iter_pos shr_1 n (shr_1 mrs))) + 1))) as Hc
        by (apply Z.mul_le_mono_nonneg_l; lia).
    lia.
  - destruct (IH _ Hm) as [H2 H3]. destruct (IH _ H2) as [H4 H5].
    split; [exact H4|].
    rewrite (Pos2Z.inj_xO n).
    replace (2 * Z.pos n) with (Z.pos n + Z.pos n) by lia.
    rewrite !Z.pow_add_r by lia.
    pose proof (Z.pow_pos_nonneg 2 (Z.pos n) ltac:(lia) ltac:(lia)) as Hpow.
    generalize dependent (2 ^ Z.pos n). intros P IH H3 H5 Hpow.
    assert (shr_m (SpecFloat.iter_pos shr_1 n mrs) + 1
            <= P * (shr_m (SpecFloat.iter_pos shr_1 n
                             (SpecFloat.iter_pos shr_1 n mrs)) + 1)) as Hb by lia.
    assert (P * (shr_m (SpecFloat.iter_pos shr_1 n mrs) + 1)
            <= P * (P * (shr_m (SpecFloat.iter_pos shr_1 n
                                  (SpecFloat.iter_pos shr_1 n mrs)) + 1))) as Hc
        by (apply Z.mul_le_mono_nonneg_l; lia).
    lia.
  - destruct (shr_1_bound mrs Hm) as [H0 H1]. split; [exact H0|].
    change (2 ^ 1) with 2. lia.
Qed.

Lemma shr_fexp_pos (m : positive) e l :
  SpecFloat.emin prec emax <= e ->
  0 < shr_m (fst (shr_fexp prec emax (Z.pos m) e l))
  /\ SpecFloat.emin prec emax <= snd (shr_fexp prec emax (Z.pos m) e l).
Proof.
  intros He. unfold shr_fexp, shr, fexp, Zdigits2.
  assert (shr_m (shr_record_of_loc (Z.pos m) l) = Z.pos m) as Hm
      by (destruct l as [|[]]; reflexivity).
  destruct (Z.max (Z.pos (digits2_pos m) + e - prec) (SpecFloat.emin prec emax) - e)
    as [|n|n] eqn:Hn; simpl fst; simpl snd; rewrite ?Hm; try (split; lia).
  pose proof (iter_shr_1_bound n (shr_record_of_loc (Z.pos m) l)) as Hb.
  rewrite Hm in Hb. destruct Hb as [H0 H1]; [lia|].
  pose proof (digits2_pos_bounds m) as [Hd _].
  assert (Z.pos n = Z.pos (digits2_pos m) - prec) as Hp by lia.
  assert (2 ^ Z.pos n <= 2 ^ (Z.pos (digits2_pos m) - 1)) as Hle.
  { apply Z.pow_le_mono_r; [lia|]. unfold prec in Hp. lia. }
  pose proof (Z.pow_pos_nonneg 2 (Z.pos n) ltac:(lia) ltac:(lia)) as Hpow.
  split; [nia | lia].
Qed.

Lemma round_nearest_even_ge m l : m <= round_nearest_even m l.
Proof.
  unfold round_nearest_even. destruct l as [|[]]; try lia.
  destruct (Z.even m); lia.
Qed.

Lemma binary_round_aux_sign s (m : positive) e l :
  SpecFloat.emin prec emax <= e ->
  (exists m' e', binary_round_aux prec emax s (Z.pos m) e l = S754_finite s m' e')
  \/ binary_round_aux prec emax s (Z.pos m) e l = S754_infinity s.
Proof.
  intros He. unfold binary_round_aux.
  destruct (shr_fexp_pos m e l He) as [Hm1 He1].
  destruct (shr_fexp prec emax (Z.pos m) e l) as [mrs1 e1]. simpl in Hm1, He1.
  pose proof (round_nearest_even_ge (shr_m mrs1) (loc_of_shr_record mrs1)) as Hr.
  destruct (round_nearest_even (shr_m mrs1) (loc_of_shr_record mrs1)) as [|m2|m2] eqn:Hm2;
    try lia.
  destruct (shr_fexp_pos m2 e1 loc_Exact He1) as [Hm3 He3].
  destruct (shr_fexp prec emax (Z.pos m2) e1 loc_Exact) as [mrs3 e3]. simpl in Hm3, He3.
  destruct (shr_m mrs3) as [|m3|m3]; try lia.
  destruct (e3 <=? emax - prec); [left; eauto | right; reflexivity].
Qed.

Lemma binary_round_sign s (m : positive) e :
  SpecFloat.emin prec emax <= e ->
  (exists m' e', binary_round prec emax s m e = S754_finite s m' e')
  \/ binary_round prec emax s m e = S754_infinity s.
Proof.
  intros He. unfold binary_round.
  destruct (shl_align m e (fexp prec emax (Z.pos (digits2_pos m) + e))) as [mz ez] eqn:Hal.
  apply binary_round_aux_sign.
  unfold shl_align, fexp in Hal.
  destruct (Z.max (Z.pos (digits2_pos m) + e - prec) (SpecFloat.emin prec emax) - e);
    injection Hal as <- <-; lia.
Qed.

Lemma binary_normalize_sign D e :
  SpecFloat.emin prec emax <= e ->
  SFltb (S754_zero false) (binary_normalize prec emax D e false) = (0 <? D).
Proof.
  intros He. destruct D as [|m|m]; simpl; [reflexivity| |].
  - destruct (binary_round_sign false m e He) as [(m' & e' & ->)| ->]; reflexivity.
  - destruct (binary_round_sign true m e He) as [(m' & e' & ->)| ->]; reflexivity.
Qed.


Lemma pos_iter_xO (m d : positive) :
  Z.pos (Pos.iter xO m d) = Z.pos m * 2 ^ Z.pos d.
Proof.
  induction d as [|d IH] using Pos.peano_ind.
  - simpl. rewrite (Pos2Z.inj_xO m). change (2 ^ 1) with 2. lia.
  - rewrite Pos.iter_succ, (Pos2Z.inj_xO (Pos.iter xO m d)), IH, Pos2Z.inj_succ,
      Z.pow_succ_r by lia.
    generalize (2 ^ Z.pos d). intros; lia.
Qed.

Lemma shl_align_value (m : positive) e ez :
  ez <= e -> Z.pos (fst (shl_align m e ez)) = Z.pos m * 2 ^ (e - ez).
Proof.
  intros Hle. unfold shl_align.
  destruct (ez - e) as [|d|d] eqn:Hd; simpl fst; try lia.
  - replace (e - ez) with 0 by lia. lia.
  - rewrite pos_iter_xO. f_equal. f_equal. lia.
Qed.

Lemma bounded_mantissa (m : positive) e :
  bounded prec emax m e = true ->
  -1074 <= e <= 971 /\ Z.pos m < 9007199254740992
  /\ (-1074 < e -> 4503599627370496 <= Z.pos m).
Proof.
  unfold bounded, canonical_mantissa, fexp, SpecFloat.emin, prec, emax.
  intros H. apply andb_prop in H as [Hc He].
  apply Z.eqb_eq in Hc. apply Z.leb_le in He.
  pose proof (digits2_pos_bounds m) as [Hlow Hhigh].
  assert (Z.pos (digits2_pos m) <= 53) as Hd by lia.
  split; [lia|]. split.
  - apply Z.lt_le_trans with (1 := Hhigh).
    change 9007199254740992 with (2 ^ 53). apply Z.pow_le_mono_r; lia.
  - intros Hnormal. assert (Z.pos (digits2_pos m) = 53) as Hfull by lia.
    rewrite Hfull in Hlow. exact Hlow.
Qed.

Lemma SFcompare_ord x y :
  valid_binary x = true -> valid_binary y = true ->
  number x = true -> number y = true ->
  SFcompare x y = Some (ord x ?= ord y).
Proof.
  intros Hx Hy Nx Ny.
  destruct x as [sx|sx| |sx mx ex]; try discriminate Nx;
    destruct y as [sy|sy| |sy my ey]; try discriminate Ny;
    simpl in Hx, Hy;
    try (apply bounded_mantissa in Hx as (Hex & Hmx & Hnx));
    try (apply bounded_mantissa in Hy as (Hey & Hmy & Hny));
    unfold SFcompare, ord, cond_Zopp; f_equal; symmetry;
    repeat match goal with
           | |- context [if ?b then _ else _] => destruct b
           end;
    try (apply Z.compare_eq_iff; lia);
    try (apply Z.compare_lt_iff; lia);
    try (apply Z.compare_gt_iff; lia).
  - change (PosDef.Pos.compare_cont Eq mx my) with (Pos.compare mx my).
    rewrite (Pos2Z.inj_compare mx my).
    destruct (Z.compare_spec ex ey) as [-> | Hlt | Hgt].
    + destruct (Z.compare_spec (Z.pos mx) (Z.pos my)) as [Heq | Hlt | Hgt]; simpl.
      * apply Z.compare_eq_iff. lia.
      * apply Z.compare_gt_iff. lia.
      * apply Z.compare_lt_iff. lia.
    + apply Z.compare_gt_iff. lia.
    + apply Z.compare_lt_iff. lia.
  - change (PosDef.Pos.compare_cont Eq mx my) with (Pos.compare mx my).
    rewrite (Pos2Z.inj_compare mx my).
    destruct (Z.compare_spec ex ey) as [-> | Hlt | Hgt].
    + destruct (Z.compare_spec (Z.pos mx) (Z.pos my)) as [Heq | Hlt | Hgt]; simpl.
      * apply Z.compare_eq_iff. lia.
      * apply Z.compare_lt_iff. lia.
      * apply Z.compare_gt_iff. lia.
    + apply Z.compare_lt_iff. lia.
    + apply Z.compare_gt_iff. lia.
Qed.


Lemma align_order (mx : positive) ex (my : positive) ey :
  bounded prec emax mx ex = true -> bounded prec emax my ey = true ->
  Z.pos mx * 2 ^ (ex - Z.min ey ex) < Z.pos my * 2 ^ (ey - Z.min ey ex)
  <-> (ex + 1075) * 9007199254740992 + Z.pos mx
      < (ey + 1075) * 9007199254740992 + Z.pos my.
Proof.
  intros Hx Hy.
  apply bounded_mantissa in Hx as (Hex & Hmx & Hnx).
  apply bounded_mantissa in Hy as (Hey & Hmy & Hny).
  destruct (Z.lt_trichotomy ex ey) as [Hlt | [-> | Hgt]].
  - rewrite Z.min_r by lia. replace (ex - ex) with 0 by lia.
    assert (2 ^ 1 <= 2 ^ (ey - ex)) as Hpow by (apply Z.pow_le_mono_r; lia).
    change (2 ^ 1) with 2 in Hpow. change (2 ^ 0) with 1.
    generalize dependent (2 ^ (ey - ex)). intros P HP.
    assert (Z.pos my * 2 <= Z.pos my * P) by (apply Z.mul_le_mono_nonneg_l; lia).
    split; intros _; lia.
  - rewrite Z.min_l by lia. replace (ey - ey) with 0 by lia. change (2 ^ 0) with 1. lia.
  - rewrite Z.min_l by lia. replace (ey - ey) with 0 by lia.
    assert (2 ^ 1 <= 2 ^ (ex - ey)) as Hpow by (apply Z.pow_le_mono_r; lia).
    change (2 ^ 1) with 2 in Hpow. change (2 ^ 0) with 1.
    generalize dependent (2 ^ (ex - ey)). intros P HP.
    assert (Z.pos mx * 2 <= Z.pos mx * P) by (apply Z.mul_le_mono_nonneg_l; lia).
    split; intros ?; lia.
Qed.

Lemma SFsub_sign x y :
  valid_binary x = true -> valid_binary y = true ->
  number x = true -> number y = true ->
  SFltb (S754_zero false) (SFsub prec emax y x) = (ord x <? ord y).
Proof.
  intros Hx Hy Nx Ny.
  destruct x as [sx|sx| |sx mx ex]; try discriminate Nx;
    destruct y as [sy|sy| |sy my ey]; try discriminate Ny.
  1-8: simpl in Hx, Hy;
    try (apply bounded_mantissa in Hx as (Hex & Hmx & Hnx));
    try (apply bounded_mantissa in Hy as (Hey & Hmy & Hny));
    repeat match goal with s : bool |- _ => destruct s end;
    unfold SFsub, SFltb, SFcompare, ord, cond_Zopp, negb; symmetry;
    first [apply Z.ltb_lt; lia | apply Z.ltb_ge; lia].
  simpl in Hx, Hy. unfold SFsub.
  pose proof (bounded_mantissa _ _ Hx) as (Hex & _).
  pose proof (bounded_mantissa _ _ Hy) as (Hey & _).
  rewrite binary_normalize_sign
    by (unfold SpecFloat.emin, prec, emax; lia).
  rewrite !shl_align_value by lia.
  pose proof (align_order mx ex my ey Hx Hy) as Hxy.
  pose proof (align_order my ey mx ex Hy Hx) as Hyx.
  rewrite (Z.min_comm ex ey) in Hyx.
  assert (0 < Z.pos mx * 2 ^ (ex - Z.min ey ex)) as Hposx
      by (apply Z.mul_pos_pos; [lia | apply Z.pow_pos_nonneg; lia]).
  assert (0 < Z.pos my * 2 ^ (ey - Z.min ey ex)) as Hposy
      by (apply Z.mul_pos_pos; [lia | apply Z.pow_pos_nonneg; lia]).
  generalize dependent (Z.pos mx * 2 ^ (ex - Z.min ey ex)).
  generalize dependent (Z.pos my * 2 ^ (ey - Z.min ey ex)).
  intros B A Hxy Hyx HA HB.
  unfold ord, cond_Zopp.
  apply Bool.eq_iff_eq_true. rewrite !Z.ltb_lt.
  destruct sx, sy; lia.
Qed.

Lemma Prim2SF_number_leb t x :
  (t <=? x)%float = true -> number (Prim2SF x) = true.
Proof.
  rewrite leb_spec. unfold SFleb, SFcompare.
  destruct (Prim2SF t), (Prim2SF x); simpl; congruence.
Qed.

Lemma float_ltb_ord x y :
  number (Prim2SF x) = true -> number (Prim2SF y) = true ->
  (x <? y)%float = (ord (Prim2SF x) <? ord (Prim2SF y)).
Proof.
  intros Nx Ny. rewrite ltb_spec. unfold SFltb.
  rewrite (SFcompare_ord _ _ (Prim2SF_valid x) (Prim2SF_valid y) Nx Ny).
  unfold Z.ltb. destruct (ord (Prim2SF x) ?= ord (Prim2SF y)); reflexivity.
Qed.

Lemma float_leb_ord x y :
  number (Prim2SF x) = true -> number (Prim2SF y) = true ->
  (x <=? y)%float = (ord (Prim2SF x) <=? ord (Prim2SF y)).
Proof.
  intros Nx Ny. rewrite leb_spec. unfold SFleb.
  rewrite (SFcompare_ord _ _ (Prim2SF_valid x) (Prim2SF_valid y) Nx Ny).
  unfold Z.leb. destruct (ord (Prim2SF x) ?= ord (Prim2SF y)); reflexivity.
Qed.

(** On numbers, the sign of the rounded difference is the sign of the
    difference. *)
Lemma float_sub_sign x y :
  number (Prim2SF x) = true -> number (Prim2SF y) = true ->
  (0 <? y - x)%float = (ord (Prim2SF x) <? ord (Prim2SF y)).
Proof.
  intros Nx Ny. rewrite ltb_spec, sub_spec.
  change (Prim2SF 0) with (S754_zero false).
  apply SFsub_sign; auto using Prim2SF_valid.
Qed.

End FloatOrder.

Section Search.
Import VectorStore SearchSpec Double.

Lemma insert_desc_perm x l : Permutation (x :: l) (insert_desc x l).
Proof.
  induction l as [|y l IH]; simpl; [apply Permutation_refl|].
  destruct (0 <? similarity y - similarity x)%float; [|apply Permutation_refl].
  eapply perm_trans; [apply perm_swap|]. apply perm_skip, IH.
Qed.

Lemma sort_desc_perm l : Permutation l (sort_desc l).
Proof.
  induction l as [|x l IH]; simpl; [apply perm_nil|].
  eapply perm_trans; [apply perm_skip, IH | apply insert_desc_perm].
Qed.

(** Ranking is the order of the doubles, on the results whose
    similarity is a number. *)
Lemma ranks_before_ord a b :
  number (Prim2SF (similarity a)) = true -> number (Prim2SF (similarity b)) = true ->
  ranks_before a b <-> ord (Prim2SF (similarity b)) <= ord (Prim2SF (similarity a)).
Proof.
  intros Na Nb. unfold ranks_before. rewrite (float_leb_ord _ _ Nb Na).
  apply Z.leb_le.
Qed.

Lemma insert_desc_sorted x l :
  number (Prim2SF (similarity x)) = true ->
  Forall (fun r => number (Prim2SF (similarity r)) = true) l ->
  StronglySorted ranks_before l -> StronglySorted ranks_before (insert_desc x l).
Proof.
  intros Nx Nl Hsorted. induction Hsorted as [|y l Hsorted IH Hall]; simpl.
  - constructor; constructor.
  - inversion Nl as [|y' l' Ny Nl']; subst.
    rewrite (float_sub_sign _ _ Nx Ny).
    destruct (ord (Prim2SF (similarity x)) <? ord (Prim2SF (similarity y))) eqn:Hlt.
    + apply Z.ltb_lt in Hlt.
      constructor; [apply IH, Nl'|].
      eapply Permutation_Forall; [apply insert_desc_perm|].
      constructor; [|exact Hall].
      apply ranks_before_ord; [assumption | assumption | lia].
    + apply Z.ltb_ge in Hlt.
      constructor; [constructor; assumption|].
      constructor; [apply ranks_before_ord; assumption|].
      apply List.Forall_forall. intros z Hz.
      pose proof (proj1 (List.Forall_forall _ _) Hall z Hz) as Hyz.
      pose proof (proj1 (List.Forall_forall _ _) Nl' z Hz) as Nz.
      apply ranks_before_ord in Hyz; [|assumption|assumption].
      apply ranks_before_ord; [assumption | assumption | lia].
Qed.

Lemma sort_desc_sorted l :
  Forall (fun r => number (Prim2SF (similarity r)) = true) l ->
  StronglySorted ranks_before (sort_desc l).
Proof.
  induction l as [|x l IH]; simpl; intros Nl; [constructor|].
  inversion Nl as [|x' l' Nx Nl']; subst.
  apply insert_desc_sorted; [exact Nx | | apply IH, Nl'].
  eapply Permutation_Forall; [apply sort_desc_perm | exact Nl'].
Qed.

(** What reaches a threshold is a number. *)
Lemma filter_numbers threshold (results : list SearchResult) :
  Forall (fun r => number (Prim2SF (similarity r)) = true)
         (List.filter (fun r => (threshold <=? similarity r)%float) results).
Proof.
  apply List.Forall_forall. intros r Hr. apply List.filter_In in Hr as [_ Hr].
  eapply Prim2SF_number_leb, Hr.
Qed.

(** The loop of [cosineSimilarity] computes the three sums of the
    cosine. *)
Lemma sums_dot a b dotProduct normA normB :
  length a = length b ->
  sums a b dotProduct normA normB
  = (fold_left (fun acc p => (acc + fst p * snd p)%float) (combine a b) dotProduct,
     fold_left (fun acc p => (acc + fst p * snd p)%float) (combine a a) normA,
     fold_left (fun acc p => (acc + fst p * snd p)%float) (combine b b) normB).
Proof.
  revert b dotProduct normA normB.
  induction a as [|x a IH]; intros [|y b] dotProduct normA normB Hlen;
    try discriminate Hlen; simpl; [reflexivity|].
  apply IH. simpl in Hlen. lia.
Qed.

Lemma cosineSimilarity_cosine a b : cosineSimilarity a b = cosine a b.
Proof.
  unfold cosineSimilarity, cosine, norm, dot.
  destruct (Nat.eqb_spec (length a) (length b)) as [Hlen|Hlen]; simpl; [|reflexivity].
  rewrite (sums_dot a b _ _ _ Hlen). reflexivity.
Qed.

Lemma cosineSimilarity_mismatch a b :
  length a <> length b -> cosineSimilarity a b = 0%float.
Proof.
  intros Hne. unfold cosineSimilarity.
  destruct (Nat.eqb_spec (length a) (length b)); [contradiction | reflexivity].
Qed.

Lemma searchVectors_ranked vectors q topK threshold :
  searchVectors vectors q topK threshold =
  JS.slice_to
    (sort_desc (List.filter (fun r => (threshold <=? similarity r)%float)
                            (map (score q) vectors)))
    topK.
Proof.
  destruct vectors; [|reflexivity].
  unfold JS.slice_to. simpl. destruct (topK <? 0); rewrite ?firstn_nil; reflexivity.
Qed.

End Search.

(** C7: search answers from the collection of the profile: the one
    cached for it, or else the records of the profile in the vectors
    store.  With each entry scored by its cosine similarity with the
    query (the dot product over the product of the lengths, in doubles,
    zero for vectors of different dimension), the result is cut from a
    ranking that consists of exactly the scored entries whose similarity
    is at least the threshold, ordered by similarity, highest first: for
    a count [topK] that is not negative the result is the first [topK]
    elements of the ranking, so at most [topK] results; a negative count
    drops that many from the end of the ranking.  An embedding whose
    dimension differs from the query's has similarity zero. *)
Theorem C7_search_filters_sorts_truncates
        (st : VectorStore.State) (db : list VectorEntry) (profileId : string)
        (queryEmbedding : list float) (topK : Z) (threshold : float) :
  let collection :=
    match VectorStore.cache st !! profileId with
    | Some cached => cached
    | None => List.filter (fun v => String.eqb (ve_profileId v) profileId) db
    end in
  let scored :=
    map (fun v => {| VectorStore.entry := v;
                     VectorStore.similarity :=
                       SearchSpec.cosine queryEmbedding (embedding v) |})
        collection in
  let found :=
    snd (VectorStore.search st db profileId queryEmbedding topK threshold) in
  (exists ranked,
      Permutation ranked
        (List.filter (fun r => (threshold <=? VectorStore.similarity r)%float) scored) /\
      StronglySorted SearchSpec.ranks_before ranked /\
      (0 <= topK -> found = firstn (Z.to_nat topK) ranked) /\
      (topK < 0 -> found = firstn (length ranked - Z.to_nat (- topK)) ranked)) /\
  (0 <= topK -> Z.of_nat (length found) <= topK) /\
  (forall v, length (embedding v) <> length queryEmbedding ->
             VectorStore.similarity (VectorStore.score queryEmbedding v) = 0%float).
Proof.
  intros collection scored found.
  assert (found
          = JS.slice_to
              (VectorStore.sort_desc
                 (List.filter (fun r => (threshold <=? VectorStore.similarity r)%float)
                              scored))
              topK) as Hfound.
  { subst found scored collection.
    unfold VectorStore.search, VectorStore.getVectors, VectorStore.getVectorsByProfile.
    destruct (VectorStore.cache st !! profileId) as [cached|]; simpl;
      rewrite searchVectors_ranked; do 3 f_equal; apply map_ext; intros v;
      unfold VectorStore.score; rewrite cosineSimilarity_cosine; reflexivity. }
  split; [|split].
  - eexists. split; [apply Permutation_sym, sort_desc_perm|].
    split; [apply sort_desc_sorted, filter_numbers|].
    rewrite Hfound. unfold JS.slice_to. split; intros Hk.
    + destruct (Z.ltb_spec topK 0); [lia | reflexivity].
    + destruct (Z.ltb_spec topK 0); [reflexivity | lia].
  - intros Hk. rewrite Hfound. unfold JS.slice_to.
    destruct (Z.ltb_spec topK 0); [lia|].
    pose proof (firstn_le_length (Z.to_nat topK)
                  (VectorStore.sort_desc
                     (List.filter
                        (fun r => (threshold <=? VectorStore.similarity r)%float)
                        scored))).
    lia.
  - intros v Hne. simpl. apply cosineSimilarity_mismatch. congruence.
Qed.

(** The two best of five stored vectors for the query (1, 0). *)
Lemma C7_search_filters_sorts_truncates_witness :
  exists ranked,
    Permutation ranked
      (List.filter
         (fun r => (0.5 <=? VectorStore.similarity r)%float)
         (map (fun v => {| VectorStore.entry := v;
                           VectorStore.similarity :=
                             SearchSpec.cosine [1; 0]%float (embedding v) |})
              (match VectorStore.cache Sample.empty_store !! "p1" with
               | Some cached => cached
               | None => List.filter (fun v => String.eqb (ve_profileId v) "p1")
                                     Sample.vectors
               end))) /\
    StronglySorted SearchSpec.ranks_before ranked /\
    snd (VectorStore.search Sample.empty_store Sample.vectors "p1" [1; 0]%float 2
                            0.5%float)
    = firstn 2 ranked.
Proof.
  destruct (C7_search_filters_sorts_truncates
              Sample.empty_store Sample.vectors "p1" [1; 0]%float 2 0.5%float)
    as [[ranked (Hperm & Hsorted & Hfirst & _)] _].
  exists ranked. split; [exact Hperm|]. split; [exact Hsorted|].
  apply Hfirst. lia.
Defined.


(** ** Embedding gateway (C9) *)

Section Embedding.
Import EmbeddingService EmbedSpec.

Variable createEmbedding : nat -> list string -> Result EmbeddingResponse.

(** Requests are issued in order; a failure ends the loop where it is. *)
Lemma embed_batches_app useCache n pre rest c batchResults total :
  embed_batches createEmbedding useCache n (pre ++ rest) c batchResults total =
  match embed_batches createEmbedding useCache n pre c batchResults total with
  | (c1, Ok (batchResults1, total1)) =>
      embed_batches createEmbedding useCache (n + length pre) rest c1 batchResults1 total1
  | (c1, Throw e) => (c1, Throw e)
  end.
Proof.
  revert n c batchResults total.
  induction pre as [|b pre IH]; intros n c batchResults total; simpl.
  - rewrite Nat.add_0_r. reflexivity.
  - destruct (createEmbedding n b) as [response|e]; [|reflexivity].
    destruct (store_batch useCache b 0 (data response) c batchResults) as [c' [br'|e]];
      [|reflexivity].
    rewrite IH. replace (S n + length pre)%nat with (n + S (length pre))%nat by lia.
    reflexivity.
Qed.

Lemma store_batch_no_cache batch j vectors c batchResults :
  fst (store_batch false batch j vectors c batchResults) = c.
Proof.
  revert j batchResults.
  induction vectors as [|v vectors IH]; intros j batchResults; simpl; [reflexivity|].
  apply IH.
Qed.

Lemma embed_batches_no_cache n batches c batchResults total :
  fst (embed_batches createEmbedding false n batches c batchResults total) = c.
Proof.
  revert n c batchResults total.
  induction batches as [|b batches IH]; intros n c batchResults total; simpl; [reflexivity|].
  destruct (createEmbedding n b) as [response|e]; [|reflexivity].
  pose proof (store_batch_no_cache b 0 (data response) c batchResults) as Hc.
  destruct (store_batch false b 0 (data response) c batchResults) as [c' [br'|e]];
    simpl in Hc; subst c'; [apply IH | reflexivity].
Qed.

(** The cache as a map: what [set] and [cacheEmbedding] change. *)
Lemma cache_set_lookup c k v k' :
  cache_get (cache_set c k v) k' = if String.eqb k k' then Some v else cache_get c k'.
Proof.
  induction c as [|[k0 v0] c IH]; simpl; [reflexivity|].
  destruct (String.eqb k0 k) eqn:Hk0; simpl.
  - apply String.eqb_eq in Hk0. subst k0. destruct (String.eqb k k'); reflexivity.
  - rewrite IH. destruct (String.eqb k0 k') eqn:Hk0'; [|reflexivity].
    apply String.eqb_eq in Hk0'. subst k0. rewrite String.eqb_sym, Hk0. reflexivity.
Qed.

Lemma cache_set_In c k v x :
  In x (cache_set c k v) -> x = (k, v) \/ In x c.
Proof.
  induction c as [|[k0 v0] c IH]; simpl; [intros [<-|[]]; left; reflexivity|].
  destruct (String.eqb k0 k) eqn:Hk0; simpl.
  - apply String.eqb_eq in Hk0. subst k0. intros [<-|Hin]; [left; reflexivity | right; right; exact Hin].
  - intros [<-|Hin]; [right; left; reflexivity|].
    destruct (IH Hin) as [->|Hin']; [left; reflexivity | right; right; exact Hin'].
Qed.

Lemma cache_set_grows c k v : (length (cache_set c k v) <= S (length c))%nat.
Proof.
  induction c as [|[k0 v0] c IH]; simpl; [lia|].
  destruct (String.eqb k0 k); simpl; lia.
Qed.

Lemma cacheEmbedding_In c t v x :
  In x (cacheEmbedding c t v) -> x = (hashText t, v) \/ In x c.
Proof.
  unfold cacheEmbedding. intros Hin. apply cache_set_In in Hin as [->|Hin];
    [left; reflexivity | right].
  destruct (Nat.leb MAX_CACHE_SIZE (length c)); [|exact Hin].
  destruct c; [destruct Hin | right; exact Hin].
Qed.

Lemma cacheEmbedding_lookup c t v k :
  (length c < MAX_CACHE_SIZE)%nat ->
  cache_get (cacheEmbedding c t v) k
  = if String.eqb (hashText t) k then Some v else cache_get c k.
Proof.
  intros Hlen. unfold cacheEmbedding.
  destruct (Nat.leb MAX_CACHE_SIZE (length c)) eqn:Hfull;
    [apply Nat.leb_le in Hfull; lia|].
  apply cache_set_lookup.
Qed.

Lemma cacheEmbedding_grows c t v :
  (length (cacheEmbedding c t v) <= S (length c))%nat.
Proof.
  unfold cacheEmbedding.
  destruct (Nat.leb MAX_CACHE_SIZE (length c)).
  - pose proof (cache_set_grows (tl c) (hashText t) v). destruct c; simpl in *; lia.
  - apply cache_set_grows.
Qed.

(** Storing a list of embeddings one after the other. *)
Lemma stored_In pairs c x :
  In x (fold_left (fun c p => cacheEmbedding c (fst p) (snd p)) pairs c) ->
  In x c \/ exists t, In (t, snd x) pairs /\ fst x = hashText t.
Proof.
  revert c. induction pairs as [|[t v] pairs IH]; intros c; simpl; [left; assumption|].
  intros Hin. destruct (IH _ Hin) as [Hc|(t' & Hin' & Hkey)].
  - apply cacheEmbedding_In in Hc as [->|Hc]; [|left; exact Hc].
    right. exists t. split; [left; reflexivity | reflexivity].
  - right. exists t'. split; [right; exact Hin' | exact Hkey].
Qed.

Lemma stored_lookup pairs c k :
  (length c + length pairs <= MAX_CACHE_SIZE)%nat ->
  cache_get (fold_left (fun c p => cacheEmbedding c (fst p) (snd p)) pairs c) k
  = match last_stored k pairs with
    | Some v => Some v
    | None => cache_get c k
    end.
Proof.
  revert c. induction pairs as [|[t v] pairs IH]; intros c Hlen; simpl; [reflexivity|].
  simpl in Hlen. pose proof (cacheEmbedding_grows c t v) as Hgrows.
  rewrite IH by lia. destruct (last_stored k pairs); [reflexivity|].
  rewrite cacheEmbedding_lookup by lia. destruct (String.eqb (hashText t) k); reflexivity.
Qed.

(** A response with no more vectors than the batch has texts is stored
    text by text. *)
Lemma store_batch_stores batch j vectors c batchResults :
  (j + length vectors <= length batch)%nat ->
  exists batchResults',
    store_batch true batch j vectors c batchResults
    = (fold_left (fun c p => cacheEmbedding c (fst p) (snd p))
                 (combine (skipn j batch) vectors) c,
       Ok batchResults').
Proof.
  revert j c batchResults.
  induction vectors as [|v vectors IH]; intros j c batchResults Hlen; simpl.
  - rewrite combine_nil. simpl. eauto.
  - simpl in Hlen.
    destruct (nth_error batch j) as [txt|] eqn:Hnth;
      [|apply nth_error_None in Hnth; lia].
    destruct (IH (S j) (cacheEmbedding c txt v)
                 (batchResults ++ [{| text := Some txt; emb := v |}])) as [br Hbr];
      [lia|].
    exists br. rewrite Hbr. f_equal.
    assert (skipn j batch = txt :: skipn (S j) batch) as ->; [|reflexivity].
    clear -Hnth. revert j Hnth.
    induction batch as [|b batch IHb]; intros [|j] Hnth; simpl in *;
      try discriminate.
    + injection Hnth as ->. reflexivity.
    + apply IHb, Hnth.
Qed.

Lemma embed_batches_stores n batches answered c batchResults total :
  answers createEmbedding n batches = Some answered ->
  Forall (fun a => (length (data (snd a)) <= length (fst a))%nat) answered ->
  exists batchResults' total',
    embed_batches createEmbedding true n batches c batchResults total
    = (fold_left (fun c p => cacheEmbedding c (fst p) (snd p)) (stored answered) c,
       Ok (batchResults', total')).
Proof.
  revert n answered c batchResults total.
  induction batches as [|batch rest IH]; intros n answered c batchResults total; simpl.
  - intros [= <-] _. simpl. eauto.
  - destruct (createEmbedding n batch) as [response|e]; [|discriminate].
    destruct (answers createEmbedding (S n) rest) as [answered'|] eqn:Hrest;
      [|discriminate].
    intros [= <-] Hall. inversion Hall as [|a l Hhead Htail]; subst. simpl in Hhead.
    destruct (store_batch_stores batch 0 (data response) c batchResults) as [br Hbr];
      [simpl; lia|].
    rewrite Hbr. change (skipn 0 batch) with batch.
    destruct (IH (S n) answered'
                 (fold_left (fun c p => cacheEmbedding c (fst p) (snd p))
                            (combine batch (data response)) c)
                 br (total + totalTokens response) Hrest Htail) as (br' & total' & Hloop).
    exists br', total'. rewrite Hloop. unfold stored. simpl.
    rewrite fold_left_app. reflexivity.
Qed.

Lemma chunk_nil n : chunk n [] = [].
Proof. reflexivity. Qed.

Lemma partition_cached_nil useCache c i :
  partition_cached useCache c i [] = ([], [], []).
Proof. reflexivity. Qed.

End Embedding.

(** C9, the claim as stated fails: of twenty-one uncached texts the
    first twenty are embedded by a first request that succeeds; the
    second request fails, the failure is thrown, and the twenty vectors
    of the first request stay in the cache. *)
Lemma C9_earlier_batches_stay_cached :
  snd (EmbeddingService.embedBatch Sample.second_request_fails [] Sample.texts21 true)
  = Throw (OpenRouterError "HTTP 503" SERVER_ERROR) /\
  length (fst (EmbeddingService.embedBatch Sample.second_request_fails [] Sample.texts21 true))
  = 20%nat /\
  EmbeddingService.cache_get
    (fst (EmbeddingService.embedBatch Sample.second_request_fails [] Sample.texts21 true))
    (EmbeddingService.hashText "chunk 0")
  = Some [1 # 2; 1 # 2]%Q.
Proof. repeat split; vm_compute; reflexivity. Qed.

(** Beyond 500 entries the oldest key is evicted: after twenty-seven
    answered requests of twenty texts each, the vector of the first text
    is gone from the cache when the twenty-eighth request fails. *)
Example embedBatch_evicts_oldest :
  let r := EmbeddingService.embedBatch (Sample.fails_from 27) [] Sample.texts541 true in
  snd r = Throw (OpenRouterError "HTTP 503" SERVER_ERROR) /\
  length (fst r) = 500%nat /\
  EmbeddingService.cache_get (fst r) (EmbeddingService.hashText "chunk 0") = None /\
  EmbeddingService.cache_get (fst r) (EmbeddingService.hashText "chunk 539")
  = Some [1 # 2; 1 # 2]%Q.
Proof. vm_compute. repeat split; reflexivity. Qed.

(** C9, amended: when a request of embedBatch to the provider fails, the
    failure is thrown to the caller and no list of vectors is returned.
    With caching on, the cache is then the one left by the requests
    answered before the failing one: each of its entries was in the cache
    before the call or is the embedding of a text of an answered request
    under the hash of that text, so nothing of the failing request or of
    a later batch is in it; and as long as the cache stays within its 500
    entries, so that nothing is evicted, a look-up gives for each text of
    an answered request the vector last returned for its hash, and for
    every other key what the cache held before.  The cache is the one
    before the call when the failing request is the first one or when
    caching is off. *)
Theorem C9_embedBatch_failure_propagates
        (createEmbedding : nat -> list string -> Result EmbeddingService.EmbeddingResponse)
        (c : EmbeddingService.Cache) (texts : list string) (useCache : bool) :
  (forall pre failing post e c1 done total,
      EmbedSpec.requests useCache c texts = pre ++ failing :: post ->
      EmbeddingService.embed_batches createEmbedding useCache 0 pre c [] 0
      = (c1, Ok (done, total)) ->
      createEmbedding (length pre) failing = Throw e ->
      EmbeddingService.embedBatch createEmbedding c texts useCache = (c1, Throw e)) /\
  (forall failing post e,
      EmbedSpec.requests useCache c texts = failing :: post ->
      createEmbedding 0%nat failing = Throw e ->
      EmbeddingService.embedBatch createEmbedding c texts useCache = (c, Throw e)) /\
  fst (EmbeddingService.embedBatch createEmbedding c texts false) = c /\
  (forall pre failing post e answered,
      EmbedSpec.requests true c texts = pre ++ failing :: post ->
      EmbedSpec.answers createEmbedding 0 pre = Some answered ->
      Forall (fun a => (length (EmbeddingService.data (snd a)) <= length (fst a))%nat)
             answered ->
      createEmbedding (length pre) failing = Throw e ->
      let c' := fst (EmbeddingService.embedBatch createEmbedding c texts true) in
      snd (EmbeddingService.embedBatch createEmbedding c texts true) = Throw e /\
      (forall k v,
          In (k, v) c' ->
          In (k, v) c \/
          exists t, In (t, v) (EmbedSpec.stored answered)
                    /\ k = EmbeddingService.hashText t) /\
      ((length c + length (EmbedSpec.stored answered)
        <= EmbeddingService.MAX_CACHE_SIZE)%nat ->
       forall k,
         EmbeddingService.cache_get c' k
         = match EmbedSpec.last_stored k (EmbedSpec.stored answered) with
           | Some v => Some v
           | None => EmbeddingService.cache_get c k
           end)).
Proof.
  assert (forall useCache pre failing post e c1 done total,
             EmbedSpec.requests useCache c texts = pre ++ failing :: post ->
             EmbeddingService.embed_batches createEmbedding useCache 0 pre c [] 0
             = (c1, Ok (done, total)) ->
             createEmbedding (length pre) failing = Throw e ->
             EmbeddingService.embedBatch createEmbedding c texts useCache = (c1, Throw e))
    as Hgeneral.
  { clear useCache. intros useCache pre failing post e c1 done total Hreq Hpre Hfail.
    unfold EmbedSpec.requests, EmbedSpec.textsToEmbed in Hreq.
    unfold EmbeddingService.embedBatch.
    destruct texts as [|t texts']; [destruct pre; discriminate Hreq|].
    destruct (EmbeddingService.partition_cached useCache c 0 (t :: texts'))
      as [[results toEmbed] indexMap].
    simpl in Hreq.
    destruct toEmbed as [|t0 toEmbed]; [destruct pre; discriminate Hreq|].
    rewrite Hreq, embed_batches_app, Hpre. simpl. rewrite Hfail. reflexivity. }
  split; [apply Hgeneral|]. split; [|split].
  - intros failing post e Hreq Hfail.
    apply (Hgeneral useCache [] failing post e c [] 0 Hreq eq_refl Hfail).
  - unfold EmbeddingService.embedBatch.
    destruct texts as [|t texts']; [reflexivity|].
    destruct (EmbeddingService.partition_cached false c 0 (t :: texts'))
      as [[results toEmbed] indexMap].
    destruct toEmbed as [|t0 toEmbed]; [reflexivity|].
    pose proof (embed_batches_no_cache createEmbedding 0
                  (EmbeddingService.chunk EmbeddingService.MAX_BATCH_SIZE (t0 :: toEmbed))
                  c [] 0) as Hc.
    destruct (EmbeddingService.embed_batches _ _ _ _ _ _ _) as [c' [[br tot]|e]];
      simpl in *; exact Hc.
  - intros pre failing post e answered Hreq Hanswered Hsizes Hfail c'. subst c'.
    destruct (embed_batches_stores createEmbedding 0 pre answered c [] 0 Hanswered Hsizes)
      as (done & total & Hpre).
    rewrite (Hgeneral true pre failing post e _ done total Hreq Hpre Hfail). simpl.
    split; [reflexivity|]. split.
    + intros k v Hin. apply stored_In in Hin. exact Hin.
    + intros Hroom k. apply stored_lookup, Hroom.
Qed.

(** Twenty-one new texts, the second request fails: the twenty vectors
    of the first request are what a look-up finds afterwards. *)
Lemma C9_embedBatch_failure_propagates_witness :
  let c' := fst (EmbeddingService.embedBatch Sample.second_request_fails []
                                             Sample.texts21 true) in
  snd (EmbeddingService.embedBatch Sample.second_request_fails [] Sample.texts21 true)
  = Throw (OpenRouterError "HTTP 503" SERVER_ERROR) /\
  (forall k v,
      In (k, v) c' ->
      In (k, v) [] \/
      exists t, In (t, v) (EmbedSpec.stored Sample.first_answer)
                /\ k = EmbeddingService.hashText t) /\
  ((length (@nil (string * list Q)) + length (EmbedSpec.stored Sample.first_answer)
    <= EmbeddingService.MAX_CACHE_SIZE)%nat ->
   forall k,
     EmbeddingService.cache_get c' k
     = match EmbedSpec.last_stored k (EmbedSpec.stored Sample.first_answer) with
       | Some v => Some v
       | None => EmbeddingService.cache_get [] k
       end).
Proof.
  exact (proj2 (proj2 (proj2 (C9_embedBatch_failure_propagates
                                Sample.second_request_fails [] Sample.texts21 true)))
               [firstn 20 Sample.texts21] (skipn 20 Sample.texts21) []
               (OpenRouterError "HTTP 503" SERVER_ERROR)
               Sample.first_answer
               eq_refl eq_refl
               ltac:(repeat constructor)
               eq_refl).
Defined.

(** ** Orchestrator (C2, C3) *)

Section Orchestrator.
Import LLMOrchestrator FillSpec.

Variable client_init : Result unit.
Variable isConfigured : bool.
Variable chatCompletion : list ChatMessage -> Result ChatCompletionResponse.
Variable parseJSON : string -> Result (list (string * string)).
Variable Number_isNaN : string -> bool.
Variable JSON_stringify : list PromptBuilder.FieldSchemaEntry -> string.

Local Abbreviation fill :=
  (fill client_init isConfigured chatCompletion parseJSON Number_isNaN JSON_stringify).
Local Abbreviation attempt :=
  (attempt chatCompletion parseJSON Number_isNaN JSON_stringify).

Lemma init_config st : config (fst (init client_init st)) = config st.
Proof. unfold init. destruct (initialized st), client_init; reflexivity. Qed.

(** With [fallbackToStatic] set, the [catch] block always answers with
    the static result and a reason. *)
Lemma recover_static st request e :
  fallbackToStatic (config st) = true ->
  exists reason,
    recover st request e = Ok (staticFill (formSignature request) (profile request) reason).
Proof.
  intros Hfb. unfold recover. rewrite Hfb.
  destruct e as [msg code| msg |]; [destruct code|..]; eexists; reflexivity.
Qed.


Lemma attempt_stage_fails st request :
  fallbackToStatic (config st) = true ->
  stage_fails chatCompletion parseJSON Number_isNaN JSON_stringify request ->
  (exists e, attempt st request = Throw e) \/
  exists reason,
    attempt st request = Ok (staticFill (formSignature request) (profile request) reason).
Proof.
  intros Hfb Hfail. unfold attempt, bind.
  destruct Hfail as [e He | response e Hresp He | response raw Hresp Hraw Hinvalid].
  - rewrite He. left. eexists. reflexivity.
  - rewrite Hresp, He. left. eexists. reflexivity.
  - rewrite Hresp, Hraw, Hinvalid, Hfb. simpl. right. eexists. reflexivity.
Qed.

End Orchestrator.

(** C2: with the default configuration (and the client configuration
    loaded), fill does not throw, whatever the prompt, generation and
    validation stage does; and when that stage fails -- the request
    throws any error (an invalid API key and a rate limit among them),
    the response is empty, or the validator marks it invalid -- fill
    returns the mappings of createSuggestedMappings with source static
    and a fallback reason. *)
Theorem C2_fill_falls_back_to_static
        (client_init : Result unit) (isConfigured : bool)
        (chatCompletion :
           list LLMOrchestrator.ChatMessage ->
           Result LLMOrchestrator.ChatCompletionResponse)
        (parseJSON : string -> Result (list (string * string)))
        (Number_isNaN : string -> bool)
        (JSON_stringify : list PromptBuilder.FieldSchemaEntry -> string)
        (st : LLMOrchestrator.State) (request : LLMOrchestrator.FillRequest) :
  LLMOrchestrator.config st = LLMOrchestrator.DEFAULT_CONFIG ->
  snd (LLMOrchestrator.init client_init st) = Ok tt ->
  (exists response,
      snd (LLMOrchestrator.fill client_init isConfigured chatCompletion parseJSON
                                Number_isNaN JSON_stringify st request)
      = Ok response) /\
  (FillSpec.stage_fails chatCompletion parseJSON Number_isNaN JSON_stringify request ->
   exists reason,
     snd (LLMOrchestrator.fill client_init isConfigured chatCompletion parseJSON
                               Number_isNaN JSON_stringify st request)
     = Ok {| LLMOrchestrator.mappings :=
               FieldMapper.createSuggestedMappings
                 (fields (LLMOrchestrator.formSignature request))
                 (LLMOrchestrator.profile request);
             LLMOrchestrator.fill_source := LLMOrchestrator.fill_static;
             LLMOrchestrator.llmUsed := false;
             LLMOrchestrator.tokensUsed := None;
             LLMOrchestrator.fallbackReason := Some reason |}).
Proof.
  intros Hconfig Hinit.
  pose proof (init_config client_init st) as Hcfg.
  unfold LLMOrchestrator.fill.
  destruct (LLMOrchestrator.init client_init st) as [st' [u|e]]; [|discriminate Hinit].
  simpl in Hcfg.
  assert (LLMOrchestrator.fallbackToStatic (LLMOrchestrator.config st') = true) as Hfb.
  { rewrite Hcfg, Hconfig. reflexivity. }
  unfold LLMOrchestrator.isAvailable.
  destruct isConfigured; simpl.
  - split.
    + destruct (LLMOrchestrator.attempt chatCompletion parseJSON Number_isNaN
                                        JSON_stringify st' request) as [r|e] eqn:Hattempt;
        simpl; [eexists; reflexivity|].
      destruct (recover_static st' request e Hfb) as [reason ->]. eexists. reflexivity.
    + intros Hfail.
      destruct (attempt_stage_fails chatCompletion parseJSON Number_isNaN JSON_stringify
                                    st' request Hfb Hfail) as [[e ->]|[reason ->]]; simpl.
      * destruct (recover_static st' request e Hfb) as [reason ->].
        exists reason. reflexivity.
      * exists reason. reflexivity.
  - split; [eexists; reflexivity|]. intros _. eexists. reflexivity.
Qed.

Lemma C2_fill_falls_back_to_static_witness :
  exists reason,
    snd (LLMOrchestrator.fill Sample.client_ready true Sample.rejects_key
                              Sample.parse_notes Sample.never_a_number Sample.stringify
                              LLMOrchestrator.fresh Sample.notes_request)
    = Ok {| LLMOrchestrator.mappings :=
              FieldMapper.createSuggestedMappings
                (fields (LLMOrchestrator.formSignature Sample.notes_request))
                (LLMOrchestrator.profile Sample.notes_request);
            LLMOrchestrator.fill_source := LLMOrchestrator.fill_static;
            LLMOrchestrator.llmUsed := false;
            LLMOrchestrator.tokensUsed := None;
            LLMOrchestrator.fallbackReason := Some reason |}.
Proof.
  apply (C2_fill_falls_back_to_static
           Sample.client_ready true Sample.rejects_key Sample.parse_notes
           Sample.never_a_number Sample.stringify LLMOrchestrator.fresh
           Sample.notes_request eq_refl eq_refl).
  eapply FillSpec.request_throws. reflexivity.
Defined.




(** ** Prompt builder (C5) *)

(** Every line that the field loop emits is the position of a field in
    the array, a colon, and the value of that field; the field has a
    non-empty value and is not encrypted.  The profile key does not
    occur. *)
Lemma fieldEntries_lines i fs line :
  In line (PromptBuilder.fieldEntries i fs) ->
  exists k field,
    nth_error fs k = Some field /\
    cf_value field <> EmptyString /\ isEncrypted field = false /\
    line = JS.nat_to_string (i + k) +:+ ": " +:+ cf_value field.
Proof.
  revert i. induction fs as [|f fs IH]; intros i; simpl; [intros []|].
  destruct (JS.truthy (cf_value f) && negb (isEncrypted f)) eqn:Hkeep.
  - intros [<-|Hin].
    + apply andb_true_iff in Hkeep as [Hv He].
      exists 0%nat, f. rewrite Nat.add_0_r. repeat split.
      * intros Hempty. rewrite Hempty in Hv. discriminate.
      * destruct (isEncrypted f); [discriminate | reflexivity].
    + apply IH in Hin as (k & field & Hnth & Hv & He & ->).
      exists (S k), field. rewrite Nat.add_succ_r. repeat split; assumption.
  - intros Hin. apply IH in Hin as (k & field & Hnth & Hv & He & ->).
    exists (S k), field. rewrite Nat.add_succ_r. repeat split; assumption.
Qed.

(** C5, the code at a profile with a plain, an encrypted and an empty
    entry and one long document: the encrypted and the empty entry are
    left out and the document is cut to its first 500 characters, but
    the lines of the kept entries start with their positions in the
    array, 0 and 3, not with their profile keys [email] and [city]; the
    user instruction of the prompt carries those lines. *)
Theorem C5_profile_lines_carry_array_index :
  PromptBuilder.buildProfileContext Sample.mixed_profile
  = JS.join PromptBuilder.nl
      [ "0: j@x.com"; "3: Lyon";
        "[resume] cv.txt: " +:+ Sample.text_of_length 500%N +:+ "..." ] /\
  JS.includes
    (PromptBuilder.userPrompt
       (PromptBuilder.buildPrompt Sample.stringify
          {| PromptBuilder.pc_profile := Sample.mixed_profile;
             PromptBuilder.pc_formSignature := Sample.form_of [Sample.text_field "f-notes"];
             PromptBuilder.pc_ragContext := None;
             PromptBuilder.pc_maxTokens := None |}))
    "email: j@x.com" = false /\
  JS.includes
    (PromptBuilder.userPrompt
       (PromptBuilder.buildPrompt Sample.stringify
          {| PromptBuilder.pc_profile := Sample.mixed_profile;
             PromptBuilder.pc_formSignature := Sample.form_of [Sample.text_field "f-notes"];
             PromptBuilder.pc_ragContext := None;
             PromptBuilder.pc_maxTokens := None |}))
    "0: j@x.com" = true.
Proof. repeat split; vm_compute; reflexivity. Qed.

(** ** Response cache (C10) *)

Section Cache.
Import CacheService.

(** A service that is not initialised never completes [init]: each call
    of [init] waits for [cleanExpired], which waits for [init]. *)
Lemma init_does_not_return fuel w now :
  initialized w = false ->
  init fuel w now = None /\ cleanExpired fuel w now = None.
Proof.
  intros Hw. induction fuel as [|fuel [IHinit IHclean]]; simpl; [split; reflexivity|].
  rewrite Hw, IHinit, IHclean. split; reflexivity.
Qed.

(** Were the service initialised, [init] would return at once. *)
Lemma init_returns_when_initialized fuel w now :
  initialized w = true -> init (S fuel) w now = Some w.
Proof. intros Hw. simpl. rewrite Hw. reflexivity. Qed.

(** The statements after [await this.init()] do what C10 describes: a
    live entry is returned with its hit counter incremented and is
    written back with an expiry of a full TTL from the time of the
    read. *)
Lemma get_body_slides_expiry w form profileId now e :
  store w !! buildCacheKey form profileId = Some e ->
  StorageService.expired e now = false ->
  ttlMs w <> 0 ->
  exists cached,
    snd (get_body w form profileId now) = Some cached /\
    hitCount cached = hitCount (ce_value e) + 1 /\
    cached_mappings cached = cached_mappings (ce_value e) /\
    store (fst (get_body w form profileId now)) !! buildCacheKey form profileId
    = Some {| ce_key := buildCacheKey form profileId; ce_value := cached;
              ce_createdAt := now; expiresAt := Some (now + ttlMs w) |}.
Proof.
  intros Hlookup Hlive Httl. unfold get_body, StorageService.getCache.
  rewrite Hlookup, Hlive. simpl. eexists. split; [reflexivity|].
  split; [reflexivity|]. split; [reflexivity|].
  unfold StorageService.setCache. rewrite lookup_insert_eq.
  destruct (Z.eqb_spec (ttlMs w) 0); [contradiction | reflexivity].
Qed.

End Cache.

(** C10, the code on a newly constructed service: get does not return,
    for any store (so also when the store holds a live entry under the
    key), any form, profile and time, however many nested calls are
    allowed: its first statement awaits init, init awaits cleanExpired
    before it sets the initialised flag, and cleanExpired first awaits
    init.  No hit counter is incremented and no entry is written back. *)
Theorem C10_get_does_not_return
        (fuel : nat) (s : gmap string CacheEntry)
        (form : FormSignature) (profileId : string) (now : Z) :
  CacheService.get fuel (CacheService.fresh s) form profileId now = None.
Proof.
  unfold CacheService.get.
  destruct (init_does_not_return fuel (CacheService.fresh s) now eq_refl) as [-> _].
  reflexivity.
Qed.


(* ===================================================================== *)
(** * Further properties of the sources *)
(* ===================================================================== *)

(** ** shared/utils: normalizeText *)

Section Normalize.
Import TextSpec.

Lemma lower_ascii_not_upper c : not_upper (JS.lower_ascii c) = true.
Proof. destruct c as [[] [] [] [] [] [] [] []]; vm_compute; reflexivity. Qed.

Lemma toLowerCase_not_upper s : all_chars not_upper (JS.toLowerCase s) = true.
Proof.
  induction s as [|c s IH]; simpl; [reflexivity|].
  rewrite lower_ascii_not_upper, IH. reflexivity.
Qed.

Lemma trimStart_all p s : all_chars p s = true -> all_chars p (JS.trimStart s) = true.
Proof.
  induction s as [|c s IH]; simpl; [auto|].
  intros H. apply andb_true_iff in H as [Hc Hs].
  destruct (JS.is_space c); [auto|]. simpl. rewrite Hc, Hs. reflexivity.
Qed.

Lemma trimEnd_all p s : all_chars p s = true -> all_chars p (JS.trimEnd s) = true.
Proof.
  induction s as [|c s IH]; simpl; [auto|].
  intros H. apply andb_true_iff in H as [Hc Hs].
  destruct (JS.is_space c && JS.is_empty (JS.trimEnd s)); [reflexivity|].
  simpl. rewrite Hc, IH by assumption. reflexivity.
Qed.

Lemma collapse_ws_all p b s :
  p " "%char = true -> all_chars p s = true -> all_chars p (JS.collapse_ws b s) = true.
Proof.
  intros Hblank. revert b. induction s as [|c s IH]; intros b; simpl; [auto|].
  intros H. apply andb_true_iff in H as [Hc Hs].
  destruct (JS.is_space c); [destruct b|]; simpl;
    rewrite ?Hblank, ?Hc, IH by assumption; reflexivity.
Qed.

Lemma collapse_ws_blank b s : all_chars blank_or_not_space (JS.collapse_ws b s) = true.
Proof.
  revert b. induction s as [|c s IH]; intros b; simpl; [reflexivity|].
  destruct (JS.is_space c) eqn:Hc; [destruct b|]; simpl; rewrite ?IH; try reflexivity.
  unfold blank_or_not_space. rewrite Hc. reflexivity.
Qed.

Lemma kept_char_normal c :
  not_upper c = true -> blank_or_not_space c = true ->
  JS.is_word c || JS.is_space c || Ascii.eqb c "-"%char = true ->
  normal_char c = true.
Proof.
  destruct c as [[] [] [] [] [] [] [] []]; vm_compute; intros; congruence.
Qed.

Lemma strip_punct_normal s :
  all_chars not_upper s = true -> all_chars blank_or_not_space s = true ->
  all_chars normal_char (JS.strip_punct s) = true.
Proof.
  induction s as [|c s IH]; simpl; [reflexivity|].
  intros H1 H2. apply andb_true_iff in H1 as [Hu Hs1]. apply andb_true_iff in H2 as [Hb Hs2].
  destruct (JS.is_word c || JS.is_space c || Ascii.eqb c "-"%char) eqn:Hkeep; [|auto].
  simpl. rewrite (kept_char_normal c Hu Hb Hkeep), IH by assumption. reflexivity.
Qed.

Lemma lower_ascii_normal c : normal_char c = true -> JS.lower_ascii c = c.
Proof. destruct c as [[] [] [] [] [] [] [] []]; vm_compute; intros; congruence. Qed.

Lemma toLowerCase_normal s : all_chars normal_char s = true -> JS.toLowerCase s = s.
Proof.
  induction s as [|c s IH]; simpl; [reflexivity|].
  intros H. apply andb_true_iff in H as [Hc Hs].
  rewrite (lower_ascii_normal c Hc), IH by assumption. reflexivity.
Qed.

End Normalize.

(** X1: the text that normalizeText returns consists of lower-case
    letters, digits, underscores, blanks and hyphens only; the
    [toLowerCase] that the matcher applies to it afterwards changes
    nothing. *)
Theorem X1_normalizeText_alphabet (text : string) :
  TextSpec.all_chars TextSpec.normal_char (normalizeText text) = true /\
  JS.toLowerCase (normalizeText text) = normalizeText text.
Proof.
  assert (TextSpec.all_chars TextSpec.normal_char (normalizeText text) = true) as H.
  { unfold normalizeText. apply strip_punct_normal.
    - apply collapse_ws_all; [reflexivity|].
      unfold JS.trim. apply trimEnd_all, trimStart_all, toLowerCase_not_upper.
    - apply collapse_ws_blank. }
  split; [exact H | apply toLowerCase_normal, H].
Qed.


(** ** shared/matching: further properties of the field mapper *)

Section Mapper.
Import FieldMapper MapperSpec.

Lemma firstKeyValue_truthy pf keys v :
  firstKeyValue pf keys = Some v -> v <> EmptyString.
Proof.
  induction keys as [|k keys IH]; simpl; [discriminate|].
  destruct (findField pf k) as [f|]; [|exact IH].
  destruct (JS.truthy (cf_value f)) eqn:Ht; [|exact IH].
  intros [= <-] Hempty. rewrite Hempty in Ht. discriminate.
Qed.

Lemma patternMatch_truthy label pf patterns v :
  patternMatch label pf patterns = Some v -> v <> EmptyString.
Proof.
  induction patterns as [|[pattern keys] patterns IH]; simpl; [discriminate|].
  destruct (Regex.test pattern label); [|exact IH].
  destruct (firstKeyValue pf keys) as [w|] eqn:Hw; [|exact IH].
  intros [= <-]. eapply firstKeyValue_truthy, Hw.
Qed.

Lemma tryFuzzyMatch_shape field pf m :
  tryFuzzyMatch field pf = Some m ->
  source m = src_static /\
  (confidence m = (95 # 100)%Q \/ confidence m = (8 # 10)%Q \/ confidence m = (7 # 10)%Q) /\
  (confidence m = (8 # 10)%Q -> value m <> EmptyString).
Proof.
  unfold tryFuzzyMatch.
  destruct (exactKeyMatch _ pf); [intros [= <-]; simpl; intuition discriminate|].
  destruct (patternMatch _ pf _) as [v|] eqn:Hv.
  { intros [= <-]. simpl. repeat split; auto.
    intros _. eapply patternMatch_truthy, Hv. }
  destruct (partialKeyMatch _ pf); [intros [= <-]; simpl; intuition discriminate|].
  discriminate.
Qed.

Lemma mapField_shape pf field m :
  mapField pf field = Some m ->
  fieldSignature m = field /\ source m = src_static /\ tier_confidence (confidence m) /\
  (confidence m = 1%Q \/ confidence m = (8 # 10)%Q -> value m <> EmptyString).
Proof.
  intros H. pose proof (mapField_field pf field m H) as [Hf _].
  split; [exact Hf|]. revert H. unfold mapField, tier_confidence.
  destruct (SemanticClass_eqb (semanticClass field) password); [discriminate|].
  assert (forall m0, tryFuzzyMatch field pf = Some m0 ->
                     source m0 = src_static /\
                     (confidence m0 = 1%Q \/ confidence m0 = (95 # 100)%Q \/
                      confidence m0 = (8 # 10)%Q \/ confidence m0 = (7 # 10)%Q) /\
                     (confidence m0 = 1%Q \/ confidence m0 = (8 # 10)%Q ->
                      value m0 <> EmptyString)) as Hfuzzy.
  { intros m0 H0. apply tryFuzzyMatch_shape in H0 as (Hs & Hc & Hv).
    repeat split; [exact Hs | tauto |].
    intros [H1|H8]; [|auto].
    destruct Hc as [Hc|[Hc|Hc]]; rewrite Hc in H1; discriminate H1. }
  destruct (SemanticClass_eqb (semanticClass field) unknown); [apply Hfuzzy|].
  destruct (firstKeyValue pf _) as [v|] eqn:Hv; [|apply Hfuzzy].
  intros [= <-]. simpl. repeat split; auto.
  intros _. eapply firstKeyValue_truthy, Hv.
Qed.

Lemma mapFields_sublist pf fs :
  sublist (map fieldSignature (mapFields pf fs)) fs.
Proof.
  induction fs as [|f fs IH]; simpl; [constructor|].
  destruct (mapField pf f) as [m|] eqn:Hm.
  - apply mapField_shape in Hm as [<- _]. simpl. constructor. exact IH.
  - constructor. exact IH.
Qed.

Lemma mapFields_shape pf fs :
  Forall (fun m => source m = src_static /\ tier_confidence (confidence m) /\
                   (confidence m = 1%Q \/ confidence m = (8 # 10)%Q ->
                    value m <> EmptyString))
         (mapFields pf fs).
Proof.
  induction fs as [|f fs IH]; simpl; [constructor|].
  destruct (mapField pf f) as [m|] eqn:Hm; [|exact IH].
  apply mapField_shape in Hm as (_ & Hs). constructor; [exact Hs | exact IH].
Qed.

(** With no entry in the profile no tier finds anything. *)
Lemma mapFields_empty_profile fs : mapFields [] fs = [].
Proof.
  assert (forall keys, firstKeyValue [] keys = None) as Hkeys.
  { induction keys; simpl; auto. }
  assert (forall label patterns, patternMatch label [] patterns = None) as Hpat.
  { intros label. induction patterns as [|[pattern keys] patterns IH]; simpl; [reflexivity|].
    rewrite Hkeys, IH. destruct (Regex.test pattern label); reflexivity. }
  induction fs as [|f fs IH]; simpl; [reflexivity|].
  unfold mapField, tryFuzzyMatch. rewrite Hkeys, Hpat. simpl.
  destruct (SemanticClass_eqb (semanticClass f) password),
           (SemanticClass_eqb (semanticClass f) unknown); exact IH.
Qed.

End Mapper.

(** X2: mapFieldsToProfile yields at most one mapping per field of the
    form, in the order of the form: the fields of its mappings are a
    subsequence of the field list.  Each mapping has source static and
    one of the tier confidences 1, 0.95, 0.8 and 0.7, and a mapping of
    the semantic-class tier (1) or of the pattern tier (0.8) never has an
    empty value. *)
Theorem X2_mapFieldsToProfile_follows_the_form (fs : list FieldSignature) (p : Profile) :
  sublist (map fieldSignature (FieldMapper.mapFieldsToProfile fs p)) fs /\
  Forall (fun m => source m = src_static /\ MapperSpec.tier_confidence (confidence m) /\
                   (confidence m = 1%Q \/ confidence m = (8 # 10)%Q ->
                    value m <> EmptyString))
         (FieldMapper.mapFieldsToProfile fs p).
Proof.
  split; [apply mapFields_sublist | apply mapFields_shape].
Qed.

Section Suggested.
Import FieldMapper MapperSpec MergeSpec.

Lemma isMapped_false_not_in l f :
  isMapped l f = false -> ~ In (fs_id f) (map fid l).
Proof.
  unfold isMapped. intros Hno Hin. apply in_map_iff in Hin as (m & Hid & Hm).
  assert (existsb (fun m0 => String.eqb (fs_id (fieldSignature m0)) (fs_id f)) l = true)
    as Hyes.
  { apply existsb_exists. exists m. split; [exact Hm|]. apply String.eqb_eq. exact Hid. }
  congruence.
Qed.

Lemma NoDup_snoc_unmapped l f v c :
  List.NoDup (map fid l) -> isMapped l f = false ->
  List.NoDup (map fid (l ++ [mkStatic f v c])).
Proof.
  intros Hnd Hno. rewrite map_app. simpl.
  apply NoDup_ListNoDup. apply NoDup_app. repeat split.
  - apply NoDup_ListNoDup. exact Hnd.
  - intros x Hx Hx'. apply list_elem_of_In in Hx.
    apply list_elem_of_singleton in Hx'. subst x.
    apply (isMapped_false_not_in l f Hno). exact Hx.
  - apply NoDup_singleton.
Qed.

Lemma mapFields_ids_NoDup pf fs :
  List.NoDup (map fs_id fs) -> List.NoDup (map fid (mapFields pf fs)).
Proof.
  intros Hnd. apply NoDup_ListNoDup.
  apply sublist_NoDup with (l2 := map fs_id fs); [apply NoDup_ListNoDup, Hnd|].
  replace (map fid (mapFields pf fs))
    with (map fs_id (map fieldSignature (mapFields pf fs)))
    by (rewrite map_map; reflexivity).
  apply (fmap_sublist fs_id), mapFields_sublist.
Qed.

Lemma createSuggestedMappings_ids_NoDup fs p :
  List.NoDup (map fs_id fs) -> List.NoDup (map fid (createSuggestedMappings fs p)).
Proof.
  intros Hnd.
  pose proof (mapFields_ids_NoDup (sc_fields (staticContext p)) fs Hnd) as Hbase.
  unfold createSuggestedMappings, mapFieldsToProfile.
  set (base := mapFields _ fs) in *.
  repeat match goal with
         | |- List.NoDup (map fid (if negb ?x then _ else _)) =>
             destruct x eqn:?; simpl negb; cbv iota
         | |- List.NoDup (map fid (match ?x with _ => _ end)) => destruct x eqn:?
         | |- List.NoDup (map fid (_ ++ [_])) => apply NoDup_snoc_unmapped; [|assumption]
         | |- List.NoDup (map fid base) => exact Hbase
         end.
Qed.

Lemma createSuggestedMappings_shape fs p :
  Forall (fun m => source m = src_static /\ static_confidence (confidence m))
         (createSuggestedMappings fs p).
Proof.
  assert (Forall (fun m => source m = src_static /\ static_confidence (confidence m))
                 (mapFields (sc_fields (staticContext p)) fs)) as Hbase.
  { eapply List.Forall_impl; [|apply mapFields_shape].
    intros m (Hs & Hc & _). split; [exact Hs | left; exact Hc]. }
  unfold createSuggestedMappings, mapFieldsToProfile.
  set (base := mapFields _ fs) in *.
  repeat match goal with
         | |- Forall _ (match ?x with _ => _ end) => destruct x eqn:?
         | |- Forall _ (if ?x then _ else _) => destruct x eqn:?
         | |- Forall _ (_ ++ [_]) =>
             apply Forall_snoc_static; [|split; [reflexivity | right; reflexivity]]
         | |- Forall _ base => exact Hbase
         end.
Qed.

Lemma static_confidence_high c : static_confidence c -> Qle_bool (7 # 10) c = true.
Proof.
  unfold static_confidence, tier_confidence.
  intros [[->|[->|[->| ->]]]| ->]; reflexivity.
Qed.

Lemma filter_all_true {A} (f : A -> bool) l :
  Forall (fun x => f x = true) l -> List.filter f l = l.
Proof.
  induction 1 as [|x l Hx _ IH]; simpl; [reflexivity|]. rewrite Hx, IH. reflexivity.
Qed.

End Suggested.

(** X3: when the fields of the form have pairwise distinct ids,
    createSuggestedMappings returns at most one mapping per field id:
    the name post-pass adds a mapping only for a field that has none. *)
Theorem X3_createSuggestedMappings_one_per_field (fs : list FieldSignature) (p : Profile) :
  List.NoDup (map fs_id fs) ->
  List.NoDup (map MergeSpec.fid (FieldMapper.createSuggestedMappings fs p)).
Proof. apply createSuggestedMappings_ids_NoDup. Qed.

Lemma X3_createSuggestedMappings_one_per_field_witness :
  List.NoDup
    (map MergeSpec.fid
         (FieldMapper.createSuggestedMappings
            [Sample.full_name_field; Sample.ssn_field]
            (Sample.profile_of [Sample.plain "firstName" "Ada";
                                Sample.plain "lastName" "Lovelace"]))).
Proof.
  apply (X3_createSuggestedMappings_one_per_field
           [Sample.full_name_field; Sample.ssn_field]).
  repeat constructor; simpl; intuition discriminate.
Defined.

(** X4: every mapping of createSuggestedMappings has source static and
    a confidence among 1, 0.95, 0.9, 0.8 and 0.7; so
    filterHighConfidenceMappings at its default threshold 0.7 drops none
    of them. *)
Theorem X4_default_threshold_keeps_static_mappings (fs : list FieldSignature) (p : Profile) :
  Forall (fun m => source m = src_static /\ MapperSpec.static_confidence (confidence m))
         (FieldMapper.createSuggestedMappings fs p) /\
  FieldMapper.filterHighConfidenceMappings (FieldMapper.createSuggestedMappings fs p) (7 # 10)
  = FieldMapper.createSuggestedMappings fs p.
Proof.
  split; [apply createSuggestedMappings_shape|].
  unfold FieldMapper.filterHighConfidenceMappings. apply filter_all_true.
  eapply List.Forall_impl; [|apply createSuggestedMappings_shape].
  intros m [_ Hc]. apply static_confidence_high, Hc.
Qed.


(** X5: a profile without any entry gives no static mapping, whatever
    the form: no tier matches and the name post-pass finds nothing to
    split or join. *)
Theorem X5_empty_profile_maps_nothing (fs : list FieldSignature) (p : Profile) :
  sc_fields (staticContext p) = [] ->
  FieldMapper.createSuggestedMappings fs p = [].
Proof.
  intros Hempty.
  unfold FieldMapper.createSuggestedMappings, FieldMapper.mapFieldsToProfile.
  rewrite Hempty, mapFields_empty_profile. simpl.
  destruct (negb (FieldMapper.hasClass full_name fs)
            && FieldMapper.hasClass first_name fs && FieldMapper.hasClass last_name fs),
           (FieldMapper.hasClass full_name fs
            && negb (FieldMapper.hasClass first_name fs)
            && negb (FieldMapper.hasClass last_name fs)); reflexivity.
Qed.

Lemma X5_empty_profile_maps_nothing_witness :
  FieldMapper.createSuggestedMappings
    [Sample.full_name_field; Sample.ssn_field] (Sample.profile_of []) = [].
Proof.
  exact (X5_empty_profile_maps_nothing
           [Sample.full_name_field; Sample.ssn_field] (Sample.profile_of []) eq_refl).
Defined.

(** ** shared/constants/fieldDenylist.ts: reasons *)

Section Reasons.
Import FieldDenylist.

Lemma find_none_existsb {A} (f : A -> bool) l :
  List.find f l = None <-> existsb f l = false.
Proof.
  induction l as [|x l IH]; simpl; [tauto|].
  destruct (f x); simpl; [split; discriminate | exact IH].
Qed.

End Reasons.

(** X6: isFieldDenylisted flags a field on one of four grounds: the
    input kind password, a denylisted autocomplete token, a denylisted
    word in the label, or a denylisted word in the name or id attribute.
    getDenylistReason gives a reason exactly for the first three: so a
    field flagged only through its name or id attribute is denylisted
    without a reason. *)
Theorem X6_denylist_reason_covers_all_but_name_and_id (field : FieldSignature) :
  FieldDenylist.isFieldDenylisted field
  = DenylistSpec.by_type field || DenylistSpec.by_autocomplete field
    || DenylistSpec.by_label field || DenylistSpec.by_name_or_id field /\
  (is_Some (FieldDenylist.getDenylistReason field) <->
   DenylistSpec.by_type field || DenylistSpec.by_autocomplete field
   || DenylistSpec.by_label field = true) /\
  (DenylistSpec.by_type field = false ->
   DenylistSpec.by_autocomplete field = false ->
   DenylistSpec.by_label field = false ->
   FieldDenylist.getDenylistReason field = None /\
   FieldDenylist.isFieldDenylisted field = DenylistSpec.by_name_or_id field).
Proof.
  unfold FieldDenylist.isFieldDenylisted, FieldDenylist.getDenylistReason,
    DenylistSpec.by_type, DenylistSpec.by_autocomplete, DenylistSpec.by_label,
    DenylistSpec.by_name_or_id.
  destruct (InputType_eqb (inputType field) it_password); cbn [orb].
  { split; [reflexivity|]. split; [|discriminate]. split; [reflexivity | eauto]. }
  assert (forall b : bool,
             (if b then true
              else if existsb (fun denied =>
                                 JS.includes (JS.toLowerCase (normalizedLabel field)) denied)
                              FieldDenylist.FIELD_DENYLIST
                   then true
                   else existsb
                          (fun denied =>
                             JS.includes
                               (JS.toLowerCase (default "" (attr_name (attributes field))))
                               denied
                             || JS.includes
                                  (JS.toLowerCase (default "" (attr_id (attributes field))))
                                  denied)
                          FieldDenylist.FIELD_DENYLIST)
             = b || existsb (fun denied =>
                               JS.includes (JS.toLowerCase (normalizedLabel field)) denied)
                            FieldDenylist.FIELD_DENYLIST
               || existsb
                    (fun denied =>
                       JS.includes
                         (JS.toLowerCase (default "" (attr_name (attributes field))))
                         denied
                       || JS.includes
                            (JS.toLowerCase (default "" (attr_id (attributes field))))
                            denied)
                    FieldDenylist.FIELD_DENYLIST) as Hor.
  { intros []; [reflexivity|]. cbn [orb]. destruct (existsb _ _); reflexivity. }
  split; [apply Hor|]. clear Hor.
  destruct (attr_autocomplete (attributes field)) as [ac|];
    [destruct (JS.truthy ac && _); cbn [orb]|cbn [orb]].
  - split; [split; [reflexivity | eauto] | discriminate].
  - destruct (List.find _ FieldDenylist.FIELD_DENYLIST) as [d|] eqn:Hfind.
    + destruct (existsb _ FieldDenylist.FIELD_DENYLIST) eqn:Hex;
        [|apply find_none_existsb in Hex; congruence].
      split; [split; [reflexivity | eauto] | discriminate].
    + apply find_none_existsb in Hfind. rewrite Hfind.
      split; [split; [intros [? ?] |]; discriminate | intros _ _ _; split; reflexivity].
  - destruct (List.find _ FieldDenylist.FIELD_DENYLIST) as [d|] eqn:Hfind.
    + destruct (existsb _ FieldDenylist.FIELD_DENYLIST) eqn:Hex;
        [|apply find_none_existsb in Hex; congruence].
      split; [split; [reflexivity | eauto] | discriminate].
    + apply find_none_existsb in Hfind. rewrite Hfind.
      split; [split; [intros [? ?] |]; discriminate | intros _ _ _; split; reflexivity].
Qed.

(** A field flagged only through its [name] attribute. *)
Lemma X6_denylist_reason_covers_all_but_name_and_id_witness :
  FieldDenylist.getDenylistReason Sample.pin_by_name = None /\
  FieldDenylist.isFieldDenylisted Sample.pin_by_name = true.
Proof.
  exact (proj2 (proj2 (X6_denylist_reason_covers_all_but_name_and_id Sample.pin_by_name))
           eq_refl eq_refl eq_refl).
Defined.


(** ** background/ai/ResponseValidator.ts: what validate lets through *)

Section Validate.
Import ResponseValidator ValidateSpec.
Variable parseJSON : string -> Result (list (string * string)).
Variable Number_isNaN : string -> bool.

Lemma fieldMap_get_some form fieldId field :
  fieldMap_get form fieldId = Some field ->
  In field (fields form) /\ fs_id field = fieldId.
Proof.
  unfold fieldMap_get. intros H. apply List.find_some in H as [Hin Heq].
  split; [apply in_rev; exact Hin | apply String.eqb_eq; exact Heq].
Qed.

Lemma validateValueType_confidence v field :
  In (fst (validateValueType Number_isNaN v field))
     [(9 # 10)%Q; (6 # 10)%Q; (5 # 10)%Q; (4 # 10)%Q].
Proof.
  unfold validateValueType.
  destruct (inputType field);
    repeat match goal with
           | |- context [if ?b then _ else _] => destruct b
           end;
    vm_compute; tauto.
Qed.

Lemma is_empty_trim_value v :
  JS.is_empty (JS.trim v) = false -> JS.trim v <> EmptyString.
Proof.
  intros H Hempty. rewrite Hempty in H. discriminate.
Qed.

(** One turn of the loop adds at most one mapping, a sound one for the
    field that the key of the entry names. *)
Lemma step_mappings form acc entry :
  exists ms,
    acc_mappings (step Number_isNaN form acc entry) = acc_mappings acc ++ ms /\
    sublist (map MergeSpec.fid ms) [fst entry] /\
    Forall (sound form) ms.
Proof.
  destruct entry as [fieldId v]. unfold step.
  destruct (fieldMap_get form fieldId) as [field|] eqn:Hget.
  2:{ exists []. simpl. rewrite app_nil_r. repeat split; [apply sublist_nil_l | constructor]. }
  destruct (FieldDenylist.isFieldDenylisted field) eqn:Hdeny.
  { exists []. simpl. rewrite app_nil_r. repeat split; [apply sublist_nil_l | constructor]. }
  destruct (negb (JS.truthy v) || JS.is_empty (JS.trim v)) eqn:Hblank.
  { exists []. simpl. rewrite app_nil_r. repeat split; [apply sublist_nil_l | constructor]. }
  pose proof (validateValueType_confidence v field) as Hconf.
  destruct (validateValueType Number_isNaN v field) as [c w]. simpl in Hconf.
  apply fieldMap_get_some in Hget as [Hin Hid].
  apply orb_false_iff in Hblank as [_ Hblank].
  eexists. simpl. split; [reflexivity|]. split.
  - unfold MergeSpec.fid. simpl. rewrite Hid. reflexivity.
  - constructor; [|constructor]. unfold sound. simpl.
    repeat split; auto using is_empty_trim_value.
Qed.

Lemma fold_step_mappings form parsed acc :
  exists ms,
    acc_mappings (fold_left (step Number_isNaN form) parsed acc) = acc_mappings acc ++ ms /\
    sublist (map MergeSpec.fid ms) (map fst parsed) /\
    Forall (sound form) ms.
Proof.
  revert acc. induction parsed as [|entry parsed IH]; intros acc; simpl.
  { exists []. rewrite app_nil_r. repeat split; constructor. }
  destruct (step_mappings form acc entry) as (ms1 & E1 & S1 & F1).
  destruct (IH (step Number_isNaN form acc entry)) as (ms2 & E2 & S2 & F2).
  exists (ms1 ++ ms2). rewrite E2, E1, app_assoc. split; [reflexivity|]. split.
  - rewrite map_app. change (fst entry :: map fst parsed) with ([fst entry] ++ map fst parsed).
    apply sublist_app; assumption.
  - apply Forall_app. split; assumption.
Qed.

Lemma step_blocking form acc entry :
  existsb is_blocking (acc_errors (step Number_isNaN form acc entry)) =
  existsb is_blocking (acc_errors acc) || names_denylisted form entry.
Proof.
  destruct entry as [fieldId v]. unfold step, names_denylisted. simpl fst.
  destruct (fieldMap_get form fieldId) as [field|].
  2:{ simpl. rewrite existsb_app. simpl. reflexivity. }
  destruct (FieldDenylist.isFieldDenylisted field).
  { simpl. rewrite existsb_app. simpl. reflexivity. }
  destruct (negb (JS.truthy v) || JS.is_empty (JS.trim v)).
  { simpl. rewrite orb_false_r. reflexivity. }
  destruct (validateValueType Number_isNaN v field). simpl.
  rewrite orb_false_r. reflexivity.
Qed.

Lemma fold_step_blocking form parsed acc :
  existsb is_blocking (acc_errors (fold_left (step Number_isNaN form) parsed acc)) =
  existsb is_blocking (acc_errors acc) || existsb (names_denylisted form) parsed.
Proof.
  revert acc. induction parsed as [|entry parsed IH]; intros acc; simpl.
  { rewrite orb_false_r. reflexivity. }
  rewrite IH, step_blocking, orb_assoc. reflexivity.
Qed.

(** The mappings of a validation result, whether or not it is valid. *)
Lemma validate_mappings raw form :
  Forall (sound form) (vr_mappings (validate parseJSON Number_isNaN raw form)) /\
  forall parsed, parseJSON raw = Ok parsed ->
    sublist (map MergeSpec.fid (vr_mappings (validate parseJSON Number_isNaN raw form)))
            (map fst parsed).
Proof.
  unfold validate. destruct (parseJSON raw) as [parsed|e]; simpl.
  - destruct (fold_step_mappings form parsed
                {| acc_mappings := []; acc_errors := []; acc_warnings := [] |})
      as (ms & E & S & F).
    rewrite E. simpl. split; [exact F|]. intros ? [= <-]. exact S.
  - split; [constructor | discriminate].
Qed.

End Validate.

(** X7: every mapping in a validation result is for a field of the form
    that is not on the security denylist, has source llm, a value that
    is not empty, and a confidence of 0.9, 0.6, 0.5 or 0.4, whatever the
    model answered. *)
Theorem X7_validate_lets_only_sound_mappings_through
  (parseJSON : string -> Result (list (string * string)))
  (Number_isNaN : string -> bool) (raw : string) (form : FormSignature) :
  Forall (ValidateSpec.sound form)
         (ResponseValidator.vr_mappings
            (ResponseValidator.validate parseJSON Number_isNaN raw form)).
Proof.
  apply validate_mappings.
Qed.

(** X8: a response that does not parse is invalid and yields no mapping.
    A response that parses is valid exactly when no entry names a
    denylisted field of the form and at least one mapping results: one
    denylisted key invalidates the whole response, while unknown field
    ids and empty values alone do not. *)
Theorem X8_validate_validity
  (parseJSON : string -> Result (list (string * string)))
  (Number_isNaN : string -> bool) (raw : string) (form : FormSignature) :
  let result := ResponseValidator.validate parseJSON Number_isNaN raw form in
  match parseJSON raw with
  | Throw _ =>
      ResponseValidator.valid result = false /\ ResponseValidator.vr_mappings result = []
  | Ok parsed =>
      ResponseValidator.valid result =
      negb (existsb (ValidateSpec.names_denylisted form) parsed)
      && negb (Nat.eqb (length (ResponseValidator.vr_mappings result)) 0)
  end.
Proof.
  unfold ResponseValidator.validate.
  destruct (parseJSON raw) as [parsed|e]; simpl; [|split; reflexivity].
  rewrite fold_step_blocking. simpl.
  destruct (length _); reflexivity.
Qed.

(** X9: the mappings of a validation result follow the entries of the
    parsed response: their field ids are a subsequence of the keys, so
    with unique keys no field is mapped twice. *)
Theorem X9_validate_one_mapping_per_key
  (parseJSON : string -> Result (list (string * string)))
  (Number_isNaN : string -> bool) (raw : string) (form : FormSignature)
  (parsed : list (string * string)) :
  parseJSON raw = Ok parsed ->
  sublist (map MergeSpec.fid
             (ResponseValidator.vr_mappings
                (ResponseValidator.validate parseJSON Number_isNaN raw form)))
          (map fst parsed) /\
  (List.NoDup (map fst parsed) ->
   List.NoDup (map MergeSpec.fid
                 (ResponseValidator.vr_mappings
                    (ResponseValidator.validate parseJSON Number_isNaN raw form)))).
Proof.
  intros Hparse.
  pose proof (proj2 (validate_mappings parseJSON Number_isNaN raw form) parsed Hparse) as Hsub.
  split; [exact Hsub|].
  intros Hnodup. apply NoDup_ListNoDup. apply NoDup_ListNoDup in Hnodup.
  eapply sublist_NoDup; eassumption.
Qed.


Lemma X9_validate_one_mapping_per_key_witness :
  map MergeSpec.fid
      (ResponseValidator.vr_mappings
         (ResponseValidator.validate Sample.parse_notes Sample.never_a_number
            Sample.notes_json (Sample.form_of [Sample.text_field "f-notes"])))
  `sublist_of` ["f-notes"].
Proof.
  exact (proj1 (X9_validate_one_mapping_per_key
                  Sample.parse_notes Sample.never_a_number Sample.notes_json
                  (Sample.form_of [Sample.text_field "f-notes"])
                  [("f-notes", "Call me after 5pm")] eq_refl)).
Defined.

(** ** background/ai/LLMOrchestrator.ts: what a fill result is made of *)

Section FillResult.
Import LLMOrchestrator ResponseValidator MergeSpec ValidateSpec.

Variable client_init : Result unit.
Variable isConfigured : bool.
Variable chatCompletion : list ChatMessage -> Result ChatCompletionResponse.
Variable parseJSON : string -> Result (list (string * string)).
Variable Number_isNaN : string -> bool.
Variable JSON_stringify : list PromptBuilder.FieldSchemaEntry -> string.

Local Abbreviation fill :=
  (fill client_init isConfigured chatCompletion parseJSON Number_isNaN JSON_stringify).
Local Abbreviation attempt :=
  (attempt chatCompletion parseJSON Number_isNaN JSON_stringify).
Local Abbreviation validate := (validate parseJSON Number_isNaN).

Lemma recover_ok st request e r :
  recover st request e = Ok r ->
  exists reason, r = staticFill (formSignature request) (profile request) reason.
Proof.
  unfold recover.
  destruct e as [msg code| msg |]; [destruct code|..];
    destruct (fallbackToStatic (config st));
    intros [= <-] || discriminate; eexists; reflexivity.
Qed.

(** A result of [fill] is the static result with some reason, or the
    merge of a response that the validator accepted. *)
Lemma fill_cases st request r :
  snd (fill st request) = Ok r ->
  (exists reason, r = staticFill (formSignature request) (profile request) reason) \/
  (exists raw,
      valid (validate raw (formSignature request)) = true /\
      mappings r =
      mergeWithStaticMappings
        (vr_mappings (validate raw (formSignature request)))
        (FieldMapper.createSuggestedMappings (fields (formSignature request))
                                             (profile request))).
Proof.
  unfold LLMOrchestrator.fill.
  destruct (init client_init st) as [st' [[]|e]]; simpl; [|discriminate].
  destruct (negb (isAvailable isConfigured)); simpl.
  { intros [= <-]. left. eexists. reflexivity. }
  unfold try_catch.
  destruct (attempt st' request) as [r'|e] eqn:Hattempt.
  2:{ intros H. left. eapply recover_ok, H. }
  intros [= ->]. revert Hattempt. unfold LLMOrchestrator.attempt, bind.
  destruct (chatCompletion _) as [response|e]; [|discriminate].
  destruct (rawContentOf response) as [raw|e]; [|discriminate].
  destruct (valid (validate raw (formSignature request))) eqn:Hvalid; simpl.
  - intros [= <-]. right. exists raw. split; [exact Hvalid | reflexivity].
  - destruct (fallbackToStatic (config st')); [|discriminate].
    intros [= <-]. left. eexists. reflexivity.
Qed.

Lemma merge_values llm static m :
  In m (mergeWithStaticMappings llm static) -> In m llm \/ In m static.
Proof.
  unfold mergeWithStaticMappings. intros H.
  apply fold_addLLM_values in H as [H|H]; [left; exact H|].
  apply fold_addStatic_values in H as [H|H]; [right; exact H|]. destruct H.
Qed.

Lemma with_id_absent i l : ~ In i (map fid l) -> with_id i l = [].
Proof.
  induction l as [|x l IH]; simpl; [reflexivity|]. intros Hnot.
  destruct (String.eqb_spec (fid x) i) as [Heq|_]; [tauto|]. apply IH. tauto.
Qed.

Lemma with_id_unique s l :
  List.NoDup (map fid l) -> In s l -> with_id (fid s) l = [s].
Proof.
  induction l as [|x l IH]; simpl; [tauto|].
  intros Hnd Hin. inversion Hnd as [|? ? Hnot Hnd']; subst.
  destruct Hin as [->|Hin].
  - rewrite String.eqb_refl, with_id_absent by exact Hnot. reflexivity.
  - destruct (String.eqb_spec (fid x) (fid s)) as [Heq|_]; [|apply IH; assumption].
    exfalso. apply Hnot. rewrite Heq. apply in_map. exact Hin.
Qed.

Lemma keep_better_stays s l :
  Forall (fun x => (confidence x <= confidence s)%Q) l ->
  fold_left keep_better l (Some s) = Some s.
Proof.
  induction 1 as [|x l Hx _ IH]; simpl; [reflexivity|].
  apply Qgtb_false in Hx. rewrite Hx. exact IH.
Qed.

Lemma sound_confidence form m : sound form m -> (confidence m <= 9 # 10)%Q.
Proof.
  intros (_ & _ & _ & _ & Hc). simpl in Hc.
  destruct Hc as [<-|[<-|[<-|[<-|[]]]]]; apply Qle_bool_iff; reflexivity.
Qed.

(** X10: whatever the provider answers, every mapping of a fill result is
    a static mapping of the form and profile, or a mapping that the
    validator let through: for a field of the form that is not on the
    denylist, with source llm, a value that is not empty and a confidence
    of at most 0.9. *)
Theorem X10_fill_result_is_static_or_validated
  (st : State) (request : FillRequest) (r : FillResponse) :
  snd (fill st request) = Ok r ->
  Forall (fun m =>
            In m (FieldMapper.createSuggestedMappings
                    (fields (formSignature request)) (profile request)) \/
            sound (formSignature request) m)
         (mappings r).
Proof.
  intros Hfill. apply List.Forall_forall. intros m Hm.
  apply fill_cases in Hfill as [[reason ->]|(raw & _ & Hmerge)].
  - left. exact Hm.
  - rewrite Hmerge in Hm. apply merge_values in Hm as [Hm|Hm]; [right | left; exact Hm].
    pose proof (proj1 (validate_mappings parseJSON Number_isNaN raw (formSignature request)))
      as Hsound.
    rewrite List.Forall_forall in Hsound. apply Hsound, Hm.
Qed.

(** X11: on a form whose field ids are distinct, a static mapping with
    confidence 0.9 or more (semantic-class tier, exact-key tier, name
    post-pass) is part of every fill result: no answer of the model
    replaces it. *)
Theorem X11_confident_static_mapping_survives
  (st : State) (request : FillRequest) (r : FillResponse) (s : FieldMapping) :
  snd (fill st request) = Ok r ->
  List.NoDup (map fs_id (fields (formSignature request))) ->
  In s (FieldMapper.createSuggestedMappings
          (fields (formSignature request)) (profile request)) ->
  (9 # 10 <= confidence s)%Q ->
  In s (mappings r).
Proof.
  intros Hfill Hnd Hs Hconf.
  apply fill_cases in Hfill as [[reason ->]|(raw & _ & Hmerge)]; [exact Hs|].
  rewrite Hmerge.
  pose proof (merge_find (vr_mappings (validate raw (formSignature request)))
                (FieldMapper.createSuggestedMappings
                   (fields (formSignature request)) (profile request)) (fid s)) as Hfind.
  rewrite (with_id_unique s (FieldMapper.createSuggestedMappings _ _)) in Hfind
    by (try apply createSuggestedMappings_ids_NoDup; assumption).
  simpl in Hfind. unfold keep_last in Hfind.
  rewrite keep_better_stays in Hfind.
  - apply List.find_some in Hfind as [Hin _]. exact Hin.
  - apply List.Forall_forall. intros x Hx. unfold with_id in Hx.
    apply List.filter_In in Hx as [Hx _].
    pose proof (proj1 (validate_mappings parseJSON Number_isNaN raw (formSignature request)))
      as Hsound.
    rewrite List.Forall_forall in Hsound.
    eapply Qle_trans; [eapply sound_confidence, Hsound, Hx | exact Hconf].
Qed.

(** X12: with fallbackToStatic switched off, a configured orchestrator
    still answers statically when the provider rejects the key or limits
    the rate; every other error of the request is thrown on unchanged, a
    response without content is thrown as 'Empty response from LLM', and
    a response that the validator rejects as 'LLM response validation
    failed'. *)
Theorem X12_without_fallback_failures_reach_the_caller
  (st : State) (request : FillRequest) :
  fallbackToStatic (config st) = false ->
  snd (init client_init st) = Ok tt ->
  isConfigured = true ->
  (forall e, chatCompletion (promptMessages JSON_stringify request) = Throw e ->
     snd (fill st request) =
     match e with
     | OpenRouterError _ INVALID_API_KEY =>
         Ok (staticFill (formSignature request) (profile request) "Invalid API key")
     | OpenRouterError _ RATE_LIMITED =>
         Ok (staticFill (formSignature request) (profile request) "Rate limited")
     | _ => Throw e
     end) /\
  (forall response e,
     chatCompletion (promptMessages JSON_stringify request) = Ok response ->
     rawContentOf response = Throw e ->
     snd (fill st request) = Throw (Error "Empty response from LLM")) /\
  (forall response raw,
     chatCompletion (promptMessages JSON_stringify request) = Ok response ->
     rawContentOf response = Ok raw ->
     valid (validate raw (formSignature request)) = false ->
     snd (fill st request) = Throw (Error "LLM response validation failed")).
Proof.
  intros Hfb Hinit Hconfigured.
  assert (snd (fill st request) =
                    try_catch (attempt (fst (init client_init st)) request)
                              (recover (fst (init client_init st)) request)) as Hfill.
  { unfold LLMOrchestrator.fill, isAvailable. rewrite Hconfigured. revert Hinit.
    destruct (init client_init st) as [st' [[]|e]]; simpl; [reflexivity | discriminate]. }
  pose proof (init_config client_init st) as Hcfg.
  set (st' := fst (init client_init st)) in *.
  assert (fallbackToStatic (config st') = false) as Hfb' by (rewrite Hcfg; exact Hfb).
  split; [|split].
  - intros e He. rewrite Hfill. unfold LLMOrchestrator.attempt, bind. rewrite He. simpl.
    unfold recover. rewrite Hfb'.
    destruct e as [msg code| msg |]; [destruct code|..]; reflexivity.
  - intros response e Hresp He. rewrite Hfill.
    unfold LLMOrchestrator.attempt, bind. rewrite Hresp.
    assert (e = Error "Empty response from LLM") as ->.
    { revert He. unfold rawContentOf.
      destruct (choices response) as [|c ?]; [intros [= <-]; reflexivity|].
      destruct (choice_content c) as [s0|]; [|intros [= <-]; reflexivity].
      destruct (JS.truthy s0); [discriminate | intros [= <-]; reflexivity]. }
    rewrite He. simpl. unfold recover. rewrite Hfb'. reflexivity.
  - intros response raw Hresp Hraw Hinvalid. rewrite Hfill.
    unfold LLMOrchestrator.attempt, bind. rewrite Hresp, Hraw, Hinvalid, Hfb'. simpl.
    unfold recover. rewrite Hfb'. reflexivity.
Qed.

End FillResult.


Lemma X10_fill_result_is_static_or_validated_witness :
  Forall (fun m =>
            In m (FieldMapper.createSuggestedMappings
                    (fields (LLMOrchestrator.formSignature Sample.bell_request))
                    (LLMOrchestrator.profile Sample.bell_request)) \/
            ValidateSpec.sound (LLMOrchestrator.formSignature Sample.bell_request) m)
         [Sample.bell_mapping].
Proof.
  exact (X10_fill_result_is_static_or_validated
           Sample.client_ready true Sample.answers_notes Sample.parse_notes
           Sample.never_a_number Sample.stringify LLMOrchestrator.fresh
           Sample.bell_request Sample.bell_response eq_refl).
Defined.

Lemma X11_confident_static_mapping_survives_witness :
  In Sample.bell_mapping (LLMOrchestrator.mappings Sample.bell_response).
Proof.
  apply (X11_confident_static_mapping_survives
           Sample.client_ready true Sample.answers_notes Sample.parse_notes
           Sample.never_a_number Sample.stringify LLMOrchestrator.fresh
           Sample.bell_request Sample.bell_response Sample.bell_mapping eq_refl).
  - repeat constructor. simpl. tauto.
  - left. reflexivity.
  - vm_compute. discriminate.
Defined.

Lemma X12_without_fallback_failures_reach_the_caller_witness :
  snd (LLMOrchestrator.fill Sample.client_ready true Sample.server_down
                            Sample.parse_notes Sample.never_a_number Sample.stringify
                            Sample.strict Sample.notes_request)
  = Throw (OpenRouterError "HTTP 503" SERVER_ERROR).
Proof.
  exact (proj1 (X12_without_fallback_failures_reach_the_caller
                  Sample.client_ready true Sample.server_down Sample.parse_notes
                  Sample.never_a_number Sample.stringify Sample.strict
                  Sample.notes_request eq_refl eq_refl eq_refl)
               (OpenRouterError "HTTP 503" SERVER_ERROR) eq_refl).
Defined.


(** ** background/ai/RAGEngine.ts: the budget of the packed context *)

Section Budget.
Import RAGEngine BudgetSpec.

Lemma length_append (a b : string) :
  String.length (a +:+ b) = (String.length a + String.length b)%nat.
Proof. induction a as [|c a IH]; simpl; [reflexivity|]. rewrite IH. reflexivity. Qed.

Lemma length_slice0 s n : (String.length (JS.slice0 s n) <= n)%nat.
Proof.
  unfold JS.slice0. revert s. induction n as [|n IH]; intros [|c s]; simpl; try lia.
  specialize (IH s). lia.
Qed.

Lemma chars_app a b : chars (a ++ b) = chars a + chars b.
Proof. induction a as [|s a IH]; simpl; [reflexivity|]. rewrite IH. lia. Qed.

(** The estimate is the character count divided by four, rounded up. *)
Lemma estimateTokens_ceiling text :
  4 * (estimateTokens text - 1) < Z.of_nat (String.length text) <= 4 * estimateTokens text.
Proof.
  unfold estimateTokens, CHARS_PER_TOKEN.
  pose proof (Z.div_mod (Z.of_nat (String.length text) + 4 - 1) 4 ltac:(lia)).
  pose proof (Z.mod_pos_bound (Z.of_nat (String.length text) + 4 - 1) 4 ltac:(lia)).
  lia.
Qed.

Lemma buildContext_loop_budget results maxTokens ctx sources total :
  0 <= total <= Z.max 0 maxTokens ->
  chars ctx <= 4 * total ->
  length ctx = length sources ->
  let r := buildContext_loop results maxTokens ctx sources total in
  0 <= tokenEstimate r <= Z.max 0 maxTokens /\
  chars (pk_context r) <= 4 * Z.max 0 maxTokens + 3 /\
  length (pk_context r) = length (pk_sources r) /\
  exists added, pk_sources r = sources ++ added /\
                map rs_id added `prefix_of` map hit_id results.
Proof.
  revert ctx sources total.
  induction results as [|result rest IH]; intros ctx sources total Htotal Hchars Hlen; simpl.
  { repeat split; try lia. exists []. rewrite app_nil_r. split; [reflexivity|]. apply prefix_nil. }
  pose proof (estimateTokens_ceiling (hit_text result)) as Hceil.
  pose proof (estimateTokens_nonneg (hit_text result)) as Hpos.
  destruct (Z.ltb_spec maxTokens (total + estimateTokens (hit_text result))) as [Hover|Hfit].
  - destruct (Z.ltb_spec 50 (maxTokens - total)) as [Hroom|_]; simpl.
    + repeat split; try lia.
      * rewrite chars_app. simpl. rewrite length_append. simpl.
        pose proof (length_slice0 (hit_text result)
                      (Z.to_nat ((maxTokens - total) * CHARS_PER_TOKEN))) as Hcut.
        fold (truncatedText result (maxTokens - total)) in Hcut.
        unfold CHARS_PER_TOKEN in Hcut. lia.
      * rewrite !length_app. simpl. lia.
      * exists [truncated result (maxTokens - total)]. split; [reflexivity|].
        simpl. apply prefix_cons, prefix_nil.
    + repeat split; try lia.
      exists []. rewrite app_nil_r. split; [reflexivity|]. apply prefix_nil.
  - destruct (IH (ctx ++ [hit_text result]) (sources ++ [whole result])
                 (total + estimateTokens (hit_text result)))
      as (Htok & Hch & Hl & added & Hsrc & Hpre).
    + lia.
    + rewrite chars_app. simpl. lia.
    + rewrite !length_app. simpl. lia.
    + repeat split; try lia; try exact Hl.
      exists (whole result :: added). split.
      * rewrite Hsrc, <- app_assoc. reflexivity.
      * simpl. apply prefix_cons, Hpre.
Qed.

End Budget.

(** X15: the packed context keeps to the budget.  For every list of
    search results and every budget, the token estimate of the result
    lies between 0 and the budget, the texts of the context have at most
    four characters per token of the budget plus the three of the
    ellipsis, there is one source per text, and the sources are the
    first results, in their order. *)
Theorem X15_buildContext_keeps_to_the_budget
  (results : list RAGEngine.SearchHit) (maxTokens : Z) :
  let r := RAGEngine.buildContext results maxTokens in
  0 <= RAGEngine.tokenEstimate r <= Z.max 0 maxTokens /\
  BudgetSpec.chars (RAGEngine.pk_context r) <= 4 * Z.max 0 maxTokens + 3 /\
  length (RAGEngine.pk_context r) = length (RAGEngine.pk_sources r) /\
  map RAGEngine.rs_id (RAGEngine.pk_sources r) `prefix_of` map RAGEngine.hit_id results.
Proof.
  pose proof (buildContext_loop_budget results maxTokens [] [] 0
                ltac:(lia) ltac:(simpl; lia) eq_refl) as (Htok & Hch & Hl & added & Hsrc & Hpre).
  unfold RAGEngine.buildContext. cbv zeta.
  repeat split; try tauto.
  rewrite Hsrc. exact Hpre.
Qed.


(** ** background/ai/PromptBuilder.ts: what reaches the provider *)

Section Prompt.
Import PromptBuilder PromptSpec.

Lemma fieldEntries_visible i fs1 fs2 :
  map visible fs1 = map visible fs2 -> fieldEntries i fs1 = fieldEntries i fs2.
Proof.
  revert i fs2. induction fs1 as [|f1 fs1 IH]; intros i [|f2 fs2]; simpl;
    try discriminate; [reflexivity|].
  intros [= Hhead Htail]. rewrite (IH (S i) fs2 Htail).
  unfold visible in Hhead.
  destruct (isEncrypted f1), (isEncrypted f2); try discriminate Hhead.
  - rewrite !andb_false_r. reflexivity.
  - injection Hhead as ->. reflexivity.
Qed.

End Prompt.

(** X13: the messages sent to the provider do not depend on the values
    of encrypted profile entries (nor on any key or category): two
    requests for the same form and retrieved context, whose profiles have
    the same documents and agree, position by position, on which entries
    are encrypted and on the values of the others, send the same
    messages. *)
Theorem X13_encrypted_values_do_not_reach_the_prompt
  (JSON_stringify : list PromptBuilder.FieldSchemaEntry -> string)
  (r1 r2 : LLMOrchestrator.FillRequest) :
  LLMOrchestrator.formSignature r1 = LLMOrchestrator.formSignature r2 ->
  LLMOrchestrator.ragContext r1 = LLMOrchestrator.ragContext r2 ->
  documents (staticContext (LLMOrchestrator.profile r1)) =
  documents (staticContext (LLMOrchestrator.profile r2)) ->
  map PromptSpec.visible (sc_fields (staticContext (LLMOrchestrator.profile r1))) =
  map PromptSpec.visible (sc_fields (staticContext (LLMOrchestrator.profile r2))) ->
  LLMOrchestrator.promptMessages JSON_stringify r1 =
  LLMOrchestrator.promptMessages JSON_stringify r2.
Proof.
  intros Hform Hrag Hdocs Hvisible.
  unfold LLMOrchestrator.promptMessages, PromptBuilder.buildPrompt,
    PromptBuilder.buildProfileContext. simpl.
  rewrite Hform, Hrag, Hdocs, (fieldEntries_visible 0 _ _ Hvisible). reflexivity.
Qed.

Lemma X13_encrypted_values_do_not_reach_the_prompt_witness :
  LLMOrchestrator.promptMessages Sample.stringify (Sample.request_of Sample.mixed_profile) =
  LLMOrchestrator.promptMessages Sample.stringify (Sample.request_of Sample.renewed_profile).
Proof.
  exact (X13_encrypted_values_do_not_reach_the_prompt
           Sample.stringify (Sample.request_of Sample.mixed_profile)
           (Sample.request_of Sample.renewed_profile) eq_refl eq_refl eq_refl eq_refl).
Defined.


(** ** background/services/CacheService.ts: the cache key *)

Section CacheKey.
Import CacheService.

Lemma N_of_ascii_inj c d : N_of_ascii c = N_of_ascii d -> c = d.
Proof.
  intros H. rewrite <- (ascii_N_embedding c), <- (ascii_N_embedding d), H. reflexivity.
Qed.

Lemma compare_not_gt_trans a b c :
  String.compare a b <> Gt -> String.compare b c <> Gt -> String.compare a c <> Gt.
Proof.
  revert b c. induction a as [|x a IH]; intros [|y b] [|z c]; simpl; try congruence.
  unfold Ascii.compare.
  destruct (N.compare_spec (N_of_ascii x) (N_of_ascii y)) as [Hxy|Hxy|Hxy];
    destruct (N.compare_spec (N_of_ascii y) (N_of_ascii z)) as [Hyz|Hyz|Hyz];
    destruct (N.compare_spec (N_of_ascii x) (N_of_ascii z)) as [Hxz|Hxz|Hxz];
    try congruence; try lia.
  apply IH.
Qed.

Lemma string_leb_trans a b c :
  String.leb a b = true -> String.leb b c = true -> String.leb a c = true.
Proof.
  unfold String.leb. intros Hab Hbc.
  pose proof (compare_not_gt_trans a b c) as H.
  destruct (String.compare a b), (String.compare b c), (String.compare a c);
    try reflexivity; try discriminate; exfalso; apply H; congruence.
Qed.

Lemma insert_sorted_comm x y l :
  insert_sorted x (insert_sorted y l) = insert_sorted y (insert_sorted x l).
Proof.
  induction l as [|z l IH]; simpl.
  - destruct (String.leb x y) eqn:Hxy, (String.leb y x) eqn:Hyx; try reflexivity.
    + rewrite (String.leb_antisym _ _ Hxy Hyx). reflexivity.
    + destruct (String.leb_total x y); congruence.
  - destruct (String.leb y z) eqn:Hyz, (String.leb x z) eqn:Hxz; simpl;
      destruct (String.leb x y) eqn:Hxy, (String.leb y x) eqn:Hyx; simpl;
      rewrite ?Hyz, ?Hxz; try reflexivity;
      try (rewrite (String.leb_antisym _ _ Hxy Hyx); reflexivity);
      try (destruct (String.leb_total x y); congruence);
      try (rewrite (string_leb_trans _ _ _ Hxy Hyz) in Hxz; discriminate);
      try (rewrite (string_leb_trans _ _ _ Hyx Hxz) in Hyz; discriminate);
      try (rewrite IH; reflexivity).
Qed.

(** Sorting forgets the order of the array. *)
Lemma sort_strings_perm l1 l2 :
  Permutation l1 l2 -> sort_strings l1 = sort_strings l2.
Proof.
  induction 1; simpl; try congruence. apply insert_sorted_comm.
Qed.

End CacheKey.

(** X14: the cache key of a form reads only the domain and, per field,
    the semantic class and the input type, in no order: two forms of one
    domain whose fields have the same classes and types, counted with
    multiplicity, get the same key for a profile, whatever their field
    ids, labels, urls and field order. *)
Theorem X14_cache_key_reads_domain_and_field_kinds
  (form1 form2 : FormSignature) (profileId : string) :
  domain form1 = domain form2 ->
  Permutation (map CacheSpec.kind (fields form1)) (map CacheSpec.kind (fields form2)) ->
  CacheService.buildCacheKey form1 profileId = CacheService.buildCacheKey form2 profileId.
Proof.
  intros Hdomain Hperm.
  unfold CacheService.buildCacheKey, CacheService.hashFormSignature.
  rewrite Hdomain.
  apply (Permutation_map
           (fun k => SemanticClass_to_string (fst k) +:+ ":" +:+ InputType_to_string (snd k)))
    in Hperm.
  rewrite !map_map in Hperm. simpl in Hperm.
  rewrite (sort_strings_perm _ _ Hperm). reflexivity.
Qed.

Lemma X14_cache_key_reads_domain_and_field_kinds_witness :
  CacheService.buildCacheKey Sample.contact_form "p1" =
  CacheService.buildCacheKey Sample.order_form "p1".
Proof.
  apply (X14_cache_key_reads_domain_and_field_kinds
           Sample.contact_form Sample.order_form "p1" eq_refl).
  apply perm_swap.
Defined.

(** ** shared/storage/StorageService.ts: the llm_cache object store *)

Section CacheStore.
Import StorageService.

Lemma kept_lookup (store : gmap string CacheEntry) now k e :
  fst (clearExpiredCache store now) !! k = Some e <->
  store !! k = Some e /\ in_expired_range now e = false.
Proof.
  unfold clearExpiredCache. simpl. rewrite map_lookup_filter_Some. simpl. reflexivity.
Qed.

End CacheStore.

(** X16: what setCache writes, getCache reads back until it expires.
    With a positive time to live, an entry written at time t0 is served
    at every time up to and including t0 + ttl and reported missing
    after; without a time to live it is served at every time; and a
    write under one key does not change what is read under another. *)
Theorem X16_setCache_getCache_round_trip
  (store : gmap string CacheEntry) (k : string) (v : CachedFillResponse)
  (ttl t0 t : Z) :
  0 < ttl -> 0 <= t0 ->
  snd (StorageService.getCache (StorageService.setCache store k v (Some ttl) t0) k t)
  = (if t0 + ttl <? t then None else Some v) /\
  snd (StorageService.getCache (StorageService.setCache store k v None t0) k t) = Some v /\
  (forall k', k' <> k ->
     snd (StorageService.getCache (StorageService.setCache store k v (Some ttl) t0) k' t)
     = snd (StorageService.getCache store k' t)).
Proof.
  intros Httl Ht0. unfold StorageService.getCache, StorageService.setCache.
  split; [|split].
  - rewrite lookup_insert_eq. unfold StorageService.expired. simpl.
    destruct (Z.eqb_spec ttl 0) as [|_]; [lia|]. simpl.
    destruct (Z.eqb_spec (t0 + ttl) 0) as [|_]; [lia|]. simpl.
    destruct (t0 + ttl <? t); reflexivity.
  - rewrite lookup_insert_eq. reflexivity.
  - intros k' Hne. rewrite lookup_insert_ne by congruence.
    destruct (store !! k') as [e|]; [|reflexivity].
    destruct (StorageService.expired e t); reflexivity.
Qed.

Lemma X16_setCache_getCache_round_trip_witness :
  snd (StorageService.getCache
         (StorageService.setCache ∅ "k" Sample.cached_notes (Some 1000) 5000) "k" 6000)
  = Some Sample.cached_notes.
Proof.
  exact (proj1 (X16_setCache_getCache_round_trip
                  ∅ "k" Sample.cached_notes 1000 5000 6000
                  ltac:(lia) ltac:(lia))).
Defined.

(** X17: clearExpiredCache against getCache.  It removes every entry
    that getCache reports expired at that time, it serves every entry
    that it keeps, and the number it returns is the number of entries
    removed; the two disagree at the boundary: an entry that expires
    exactly now is still served by getCache and is removed by
    clearExpiredCache. *)
Theorem X17_clearExpiredCache_against_getCache
  (store : gmap string CacheEntry) (now : Z) (k : string) :
  let kept := fst (StorageService.clearExpiredCache store now) in
  (snd (StorageService.getCache store k now) = None -> kept !! k = None) /\
  (forall e, kept !! k = Some e ->
     StorageService.getCache kept k now = (kept, Some (ce_value e))) /\
  (snd (StorageService.clearExpiredCache store now) + size kept = size store)%nat /\
  (forall e, store !! k = Some e -> expiresAt e = Some now -> now <> 0 ->
     snd (StorageService.getCache store k now) = Some (ce_value e) /\ kept !! k = None).
Proof.
  cbv zeta. split; [|split; [|split]].
  - unfold StorageService.getCache.
    destruct (store !! k) as [e|] eqn:Hk.
    + destruct (StorageService.expired e now) eqn:Hexp; [|discriminate]. intros _.
      destruct (fst (StorageService.clearExpiredCache store now) !! k) as [e'|] eqn:Hkept;
        [|reflexivity].
      apply kept_lookup in Hkept as [Hk' Hrange]. rewrite Hk in Hk'. injection Hk' as <-.
      unfold StorageService.expired in Hexp. unfold StorageService.in_expired_range in Hrange.
      destruct (expiresAt e) as [t|]; [|discriminate].
      apply andb_true_iff in Hexp as [_ Hlt]. lia.
    + intros _.
      destruct (fst (StorageService.clearExpiredCache store now) !! k) as [e'|] eqn:Hkept;
        [|reflexivity].
      apply kept_lookup in Hkept as [Hk' _]. congruence.
  - intros e Hkept. unfold StorageService.getCache. rewrite Hkept.
    apply kept_lookup in Hkept as [_ Hrange].
    unfold StorageService.expired. unfold StorageService.in_expired_range in Hrange.
    destruct (expiresAt e) as [t|]; [|reflexivity].
    destruct (Z.ltb_spec t now); [lia|]. rewrite andb_false_r. reflexivity.
  - unfold StorageService.clearExpiredCache. simpl.
    pose proof (map_size_filter
                  (fun kv : string * CacheEntry =>
                     StorageService.in_expired_range now (snd kv) = false) store) as Hsub.
    lia.
  - intros e Hk Hexp Hnow. split.
    + unfold StorageService.getCache, StorageService.expired. rewrite Hk, Hexp.
      rewrite Z.ltb_irrefl, andb_false_r. reflexivity.
    + destruct (fst (StorageService.clearExpiredCache store now) !! k) as [e'|] eqn:Hkept;
        [|reflexivity].
      apply kept_lookup in Hkept as [Hk' Hrange]. rewrite Hk in Hk'. injection Hk' as <-.
      unfold StorageService.in_expired_range in Hrange. rewrite Hexp in Hrange.
      destruct (Z.leb_spec now now); [discriminate | lia].
Qed.

(** X18: on a newly constructed cache service neither init nor
    cleanExpired, set or invalidate returns, however many nested calls
    are allowed: each awaits init, and init and cleanExpired await each
    other before the initialised flag is set. *)
Theorem X18_new_cache_service_never_answers
  (fuel : nat) (s : gmap string CacheEntry) (form : FormSignature) (profileId : string)
  (mappings : list FieldMapping) (tokensUsed : Z) (now : Z) :
  CacheService.init fuel (CacheService.fresh s) now = None /\
  CacheService.cleanExpired fuel (CacheService.fresh s) now = None /\
  CacheService.set fuel (CacheService.fresh s) form profileId mappings tokensUsed now = None /\
  CacheService.invalidate fuel (CacheService.fresh s) form profileId now = None.
Proof.
  destruct (init_does_not_return fuel (CacheService.fresh s) now eq_refl) as [Hinit Hclean].
  unfold CacheService.set, CacheService.invalidate. rewrite Hinit, Hclean. repeat split.
Qed.


(** ** background/ai/EmbeddingService.ts: the embedding cache *)

Section EmbeddingCache.
Import EmbeddingService.

Lemma cache_set_length c k v : (length (cache_set c k v) <= S (length c))%nat.
Proof.
  induction c as [|[k' v'] c IH]; simpl; [lia|].
  destruct (String.eqb k' k); simpl; lia.
Qed.

Lemma cache_get_set c k v : cache_get (cache_set c k v) k = Some v.
Proof.
  induction c as [|[k' v'] c IH]; simpl.
  - rewrite String.eqb_refl. reflexivity.
  - destruct (String.eqb k' k) eqn:Hk; simpl; rewrite Hk; [reflexivity | exact IH].
Qed.

Lemma cacheEmbedding_bound c t embedding :
  (length c <= MAX_CACHE_SIZE)%nat ->
  (length (cacheEmbedding c t embedding) <= MAX_CACHE_SIZE)%nat.
Proof.
  unfold cacheEmbedding. intros Hc.
  pose proof (cache_set_length c (hashText t) embedding).
  pose proof (cache_set_length (tl c) (hashText t) embedding).
  destruct (Nat.leb_spec MAX_CACHE_SIZE (length c)) as [Hfull|Hroom].
  - unfold MAX_CACHE_SIZE in *.
    destruct c as [|x c]; [cbn [length] in Hfull; lia|].
    cbn [tail length] in *. lia.
  - unfold MAX_CACHE_SIZE in *. lia.
Qed.

Lemma cacheEmbedding_get c t embedding :
  cache_get (cacheEmbedding c t embedding) (hashText t) = Some embedding.
Proof. unfold cacheEmbedding. apply cache_get_set. Qed.

Lemma store_batch_bound useCache batch j vectors c batchResults :
  (length c <= MAX_CACHE_SIZE)%nat ->
  (length (fst (store_batch useCache batch j vectors c batchResults)) <= MAX_CACHE_SIZE)%nat.
Proof.
  revert j c batchResults.
  induction vectors as [|v vectors IH]; intros j c batchResults Hc; simpl; [exact Hc|].
  destruct useCache; [|apply IH, Hc].
  destruct (nth_error batch j) as [txt|]; [|exact Hc].
  apply IH, cacheEmbedding_bound, Hc.
Qed.

Lemma embed_batches_bound createEmbedding useCache n batches c batchResults total :
  (length c <= MAX_CACHE_SIZE)%nat ->
  (length (fst (embed_batches createEmbedding useCache n batches c batchResults total))
   <= MAX_CACHE_SIZE)%nat.
Proof.
  revert n c batchResults total.
  induction batches as [|b batches IH]; intros n c batchResults total Hc; simpl; [exact Hc|].
  destruct (createEmbedding n b) as [response|e]; [|exact Hc].
  pose proof (store_batch_bound useCache b 0 (data response) c batchResults Hc) as Hc'.
  destruct (store_batch useCache b 0 (data response) c batchResults) as [c' [br'|e]];
    simpl in Hc'; [apply IH, Hc' | exact Hc'].
Qed.

End EmbeddingCache.

(** X19: the embedding cache never grows beyond 500 entries: neither one
    insertion nor a whole embedBatch, whatever the provider returns,
    takes a cache of at most 500 entries beyond 500; and right after an
    insertion the cache returns the inserted vector for the text. *)
Theorem X19_embedding_cache_is_bounded
  (c : EmbeddingService.Cache) :
  (length c <= EmbeddingService.MAX_CACHE_SIZE)%nat ->
  (forall t embedding,
     (length (EmbeddingService.cacheEmbedding c t embedding)
      <= EmbeddingService.MAX_CACHE_SIZE)%nat /\
     EmbeddingService.cache_get (EmbeddingService.cacheEmbedding c t embedding)
                                (EmbeddingService.hashText t) = Some embedding) /\
  (forall createEmbedding texts useCache,
     (length (fst (EmbeddingService.embedBatch createEmbedding c texts useCache))
      <= EmbeddingService.MAX_CACHE_SIZE)%nat).
Proof.
  intros Hc. split.
  - intros t embedding. split; [apply cacheEmbedding_bound, Hc | apply cacheEmbedding_get].
  - intros createEmbedding texts useCache. unfold EmbeddingService.embedBatch.
    destruct texts as [|t0 texts]; [exact Hc|].
    destruct (EmbeddingService.partition_cached useCache c 0 (t0 :: texts))
      as [[results textsToEmbed] textIndexMap].
    destruct textsToEmbed as [|t1 rest]; [exact Hc|].
    pose proof (embed_batches_bound createEmbedding useCache 0
                  (EmbeddingService.chunk EmbeddingService.MAX_BATCH_SIZE (t1 :: rest))
                  c [] 0 Hc) as Hbound.
    destruct (EmbeddingService.embed_batches _ _ _ _ _ _ _) as [c' [[br total]|e]];
      exact Hbound.
Qed.

Lemma X19_embedding_cache_is_bounded_witness :
  (length (fst (EmbeddingService.embedBatch Sample.always_answers [] Sample.texts21 true))
   <= EmbeddingService.MAX_CACHE_SIZE)%nat.
Proof.
  exact (proj2 (X19_embedding_cache_is_bounded [] ltac:(apply Nat.le_0_l))
               Sample.always_answers Sample.texts21 true).
Defined.

(** X20: the embedding cache is keyed by the 32-bit hash of the text
    alone.  Once a text has been cached, embed answers every text with
    the same hash (the text itself, or another one that collides with
    it) with the cached vector, zero tokens and an unchanged cache,
    whatever the provider would have returned. *)
Theorem X20_embed_answers_by_hash
  (createEmbedding : string -> Result EmbeddingService.EmbeddingResponse)
  (c : EmbeddingService.Cache) (t1 t2 : string) (embedding : list Q) :
  EmbeddingService.hashText t1 = EmbeddingService.hashText t2 ->
  EmbeddingService.embed createEmbedding
    (EmbeddingService.cacheEmbedding c t1 embedding) t2 true
  = (EmbeddingService.cacheEmbedding c t1 embedding,
     Ok {| EmbeddingService.er_embedding := embedding;
           EmbeddingService.er_text := t2;
           EmbeddingService.er_tokensUsed := 0 |}).
Proof.
  intros Hhash. unfold EmbeddingService.embed.
  rewrite <- Hhash, cacheEmbedding_get. reflexivity.
Qed.

Lemma X20_embed_answers_by_hash_witness :
  EmbeddingService.embed Sample.answers_one
    (EmbeddingService.cacheEmbedding [] "Aa" [1; 0]%Q) "BB" true
  = (EmbeddingService.cacheEmbedding [] "Aa" [1; 0]%Q,
     Ok {| EmbeddingService.er_embedding := [1; 0]%Q;
           EmbeddingService.er_text := "BB";
           EmbeddingService.er_tokensUsed := 0 |}).
Proof.
  exact (X20_embed_answers_by_hash Sample.answers_one [] "Aa" "BB" [1; 0]%Q eq_refl).
Defined.

(** ** background/ai/EmbeddingService.ts: the order of a batch *)

Section EmbedOrder.
Import EmbeddingService OrderSpec.

Variable createEmbedding : nat -> list string -> Result EmbeddingResponse.
Hypothesis Hanswers : answers_all createEmbedding.

Lemma nth_error_skipn {A} (l : list A) j x :
  nth_error l j = Some x -> skipn j l = x :: skipn (S j) l.
Proof.
  revert l. induction j as [|j IH]; intros [|y l]; simpl; try discriminate.
  - intros [= ->]. reflexivity.
  - intros H. rewrite (IH l H). destruct l; reflexivity.
Qed.

(** The inner loop, when the provider returned as many vectors as are
    left of the batch: the texts of the batch are appended in order. *)
Lemma store_batch_texts useCache batch j vectors c batchResults :
  (j + length vectors = length batch)%nat ->
  exists c' batchResults',
    store_batch useCache batch j vectors c batchResults = (c', Ok batchResults') /\
    map text batchResults' = map text batchResults ++ map Some (skipn j batch).
Proof.
  revert j c batchResults.
  induction vectors as [|v vectors IH]; intros j c batchResults Hlen; simpl in Hlen |- *.
  - exists c, batchResults. split; [reflexivity|].
    rewrite skipn_all2 by lia. simpl. rewrite app_nil_r. reflexivity.
  - destruct (nth_error batch j) as [txt|] eqn:Hnth.
    2:{ apply nth_error_None in Hnth. simpl in Hlen. lia. }
    rewrite (nth_error_skipn _ _ _ Hnth).
    assert (forall c0, exists c' batchResults',
               store_batch useCache batch (S j) vectors c0
                           (batchResults ++ [{| text := Some txt; emb := v |}])
               = (c', Ok batchResults') /\
               map text batchResults' =
               map text batchResults ++ map Some (txt :: skipn (S j) batch)) as Hrest.
    { intros c0.
      destruct (IH (S j) c0 (batchResults ++ [{| text := Some txt; emb := v |}]))
        as (c' & br' & Hrun & Htexts); [simpl in Hlen; lia|].
      exists c', br'. split; [exact Hrun|].
      rewrite Htexts, map_app, <- app_assoc. reflexivity. }
    destruct useCache; apply Hrest.
Qed.

Lemma embed_batches_texts useCache n batches c batchResults total :
  exists c' batchResults' total',
    embed_batches createEmbedding useCache n batches c batchResults total
    = (c', Ok (batchResults', total')) /\
    map text batchResults' = map text batchResults ++ map Some (concat batches).
Proof.
  revert n c batchResults total.
  induction batches as [|b batches IH]; intros n c batchResults total; simpl.
  - exists c, batchResults, total. rewrite app_nil_r. split; reflexivity.
  - destruct (Hanswers n b) as (response & -> & Hlen).
    destruct (store_batch_texts useCache b 0 (data response) c batchResults Hlen)
      as (c1 & br1 & -> & Htexts1).
    destruct (IH (S n) c1 br1 (total + totalTokens response))
      as (c2 & br2 & total2 & -> & Htexts2).
    exists c2, br2, total2. split; [reflexivity|].
    rewrite Htexts2, Htexts1, map_app, <- app_assoc. reflexivity.
Qed.

Lemma chunk_fuel_concat fuel n (l : list string) :
  (0 < n)%nat -> (length l <= fuel)%nat -> concat (chunk_fuel fuel n l) = l.
Proof.
  intros Hn. revert l. induction fuel as [|fuel IH]; intros l Hfuel.
  - destruct l; [reflexivity | simpl in Hfuel; lia].
  - destruct l as [|x l]; [reflexivity|].
    change (chunk_fuel (S fuel) n (x :: l))
      with (firstn n (x :: l) :: chunk_fuel fuel n (skipn n (x :: l))).
    simpl concat. rewrite IH.
    + apply firstn_skipn.
    + rewrite length_skipn. simpl in *. lia.
Qed.

Lemma existsb_above i (m : list nat) :
  Forall (fun j => (S i <= j)%nat) m -> existsb (Nat.eqb i) m = false.
Proof.
  induction 1 as [|j m Hj _ IH]; simpl; [reflexivity|].
  rewrite IH, orb_false_r. apply Nat.eqb_neq. lia.
Qed.

Lemma combine_results_skip i j len m results batchResults :
  (i < j)%nat ->
  combine_results j len (i :: m) results batchResults
  = combine_results j len m results batchResults.
Proof.
  revert j results batchResults.
  induction len as [|len IH]; intros j results batchResults Hij; simpl; [reflexivity|].
  assert (Nat.eqb j i = false) as -> by (apply Nat.eqb_neq; lia). simpl.
  rewrite !IH by lia. reflexivity.
Qed.

(** The indices that the first loop records start at the index of the
    first text it is given. *)
Lemma partition_cached_indices useCache c i texts :
  Forall (fun j => (i <= j)%nat) (snd (partition_cached useCache c i texts)).
Proof.
  revert i. induction texts as [|t texts IH]; intros i; simpl; [constructor|].
  specialize (IH (S i)).
  destruct (partition_cached useCache c (S i) texts) as [[results textsToEmbed] textIndexMap].
  simpl in IH.
  assert (Forall (fun j => (i <= j)%nat) textIndexMap) as Hweak.
  { eapply List.Forall_impl; [|exact IH]. simpl. intros. lia. }
  destruct (if useCache then cache_get c (hashText t) else None); simpl;
    [exact Hweak | constructor; [lia | exact Hweak]].
Qed.

(** The last loop puts every text back at its index. *)
Lemma combine_results_texts useCache c i texts batchResults :
  let '(results, textsToEmbed, textIndexMap) := partition_cached useCache c i texts in
  map text batchResults = map Some textsToEmbed ->
  map slot_text (combine_results i (length texts) textIndexMap results batchResults)
  = map Some texts.
Proof.
  revert i batchResults. induction texts as [|t texts IH]; intros i batchResults; simpl.
  { reflexivity. }
  pose proof (partition_cached_indices useCache c (S i) texts) as Hidx.
  specialize (IH (S i)).
  destruct (partition_cached useCache c (S i) texts) as [[results textsToEmbed] textIndexMap].
  simpl in Hidx.
  destruct (if useCache then cache_get c (hashText t) else None) as [cached|].
  - intros Htexts. rewrite (existsb_above i textIndexMap Hidx). simpl.
    rewrite (IH batchResults Htexts). reflexivity.
  - intros Htexts. simpl. rewrite Nat.eqb_refl. simpl.
    destruct batchResults as [|b batchResults]; [discriminate|].
    simpl in Htexts. injection Htexts as Hb Htexts.
    simpl. rewrite Hb, combine_results_skip by lia.
    rewrite (IH batchResults Htexts). reflexivity.
Qed.

(** When every text was cached, the results are the texts in order. *)
Lemma partition_cached_all useCache c i texts :
  let '(results, textsToEmbed, textIndexMap) := partition_cached useCache c i texts in
  textsToEmbed = [] -> map text results = map Some texts.
Proof.
  revert i. induction texts as [|t texts IH]; intros i; simpl; [reflexivity|].
  specialize (IH (S i)).
  destruct (partition_cached useCache c (S i) texts) as [[results textsToEmbed] textIndexMap].
  destruct (if useCache then cache_get c (hashText t) else None) as [cached|];
    [|discriminate].
  intros Hnone. simpl. rewrite (IH Hnone). reflexivity.
Qed.

Lemma embedBatch_texts c texts useCache :
  exists result,
    snd (embedBatch createEmbedding c texts useCache) = Ok result /\
    map slot_text (embeddings result) = map Some texts.
Proof.
  unfold embedBatch. destruct texts as [|t0 texts0]; [eexists; split; reflexivity|].
  set (texts := t0 :: texts0).
  pose proof (combine_results_texts useCache c 0 texts) as Hcombine.
  pose proof (partition_cached_all useCache c 0 texts) as Hall.
  destruct (partition_cached useCache c 0 texts) as [[results textsToEmbed] textIndexMap].
  destruct textsToEmbed as [|t1 rest].
  - eexists. split; [reflexivity|]. cbn [embeddings].
    rewrite <- (Hall eq_refl), map_map. reflexivity.
  - destruct (embed_batches_texts useCache 0 (chunk MAX_BATCH_SIZE (t1 :: rest)) c [] 0)
      as (c' & br & total & -> & Htexts).
    eexists. split; [reflexivity|]. simpl embeddings.
    apply Hcombine. rewrite Htexts.
    change (map text []) with (@nil (option string)). rewrite app_nil_l.
    unfold chunk. rewrite chunk_fuel_concat; [reflexivity | unfold MAX_BATCH_SIZE; lia | lia].
Qed.

End EmbedOrder.

(** X21: when the provider answers every request with one vector per
    text, embedBatch returns a result for every list of texts and every
    cache, with one slot per text that carries the text of the same
    position: cached and newly embedded texts come back in the original
    order. *)
Theorem X21_embedBatch_restores_the_order
  (createEmbedding : nat -> list string -> Result EmbeddingService.EmbeddingResponse)
  (c : EmbeddingService.Cache) (texts : list string) (useCache : bool) :
  OrderSpec.answers_all createEmbedding ->
  exists result,
    snd (EmbeddingService.embedBatch createEmbedding c texts useCache) = Ok result /\
    map OrderSpec.slot_text (EmbeddingService.embeddings result) = map Some texts.
Proof.
  intros Hanswers. apply embedBatch_texts. exact Hanswers.
Qed.

Lemma X21_embedBatch_restores_the_order_witness :
  exists result,
    snd (EmbeddingService.embedBatch Sample.always_answers
           (EmbeddingService.cacheEmbedding [] "chunk 3" [1; 0]%Q) Sample.texts21 true)
    = Ok result /\
    map OrderSpec.slot_text (EmbeddingService.embeddings result) = map Some Sample.texts21.
Proof.
  apply (X21_embedBatch_restores_the_order Sample.always_answers
           (EmbeddingService.cacheEmbedding [] "chunk 3" [1; 0]%Q) Sample.texts21 true).
  intros n batch. eexists. split; [reflexivity|]. simpl. apply length_map.
Defined.


(** ** shared/storage/VectorStore.ts: writes, deletes and the cache *)

Section VectorWrites.
Import VectorStore.

Lemma saveVector_In_self db v : In v (saveVector db v).
Proof.
  induction db as [|x db IH]; simpl; [left; reflexivity|].
  destruct (String.eqb (ve_id x) (ve_id v)); [left; reflexivity|].
  destruct (String.ltb (ve_id v) (ve_id x)); [left; reflexivity|].
  right. exact IH.
Qed.

Lemma upsert_cached_In_self cached v : In v (upsert_cached cached v).
Proof.
  induction cached as [|x cached IH]; simpl; [left; reflexivity|].
  destruct (String.eqb (ve_id x) (ve_id v)); [left; reflexivity | right; exact IH].
Qed.

Lemma getVectorsByProfile_In db profileId v :
  In v (getVectorsByProfile db profileId) <-> In v db /\ ve_profileId v = profileId.
Proof.
  unfold getVectorsByProfile. rewrite List.filter_In, String.eqb_eq. reflexivity.
Qed.

(** A record whose id is not in the store is added; nothing is lost. *)
Lemma saveVector_In_fresh db x v :
  ~ In (ve_id x) (map ve_id db) ->
  In v (saveVector db x) <-> v = x \/ In v db.
Proof.
  induction db as [|y db IH]; simpl; intros Hfresh; [intuition|].
  destruct (String.eqb_spec (ve_id y) (ve_id x)) as [Heq|Hne]; [tauto|].
  destruct (String.ltb (ve_id x) (ve_id y)); simpl; [intuition|].
  rewrite IH by tauto. intuition.
Qed.

Lemma saveVector_ids db x i :
  In i (map ve_id (saveVector db x)) <-> i = ve_id x \/ In i (map ve_id db).
Proof.
  induction db as [|y db IH]; simpl; [intuition|].
  destruct (String.eqb_spec (ve_id y) (ve_id x)) as [Heq|Hne]; simpl.
  - rewrite Heq. intuition.
  - destruct (String.ltb (ve_id x) (ve_id y)); simpl; [intuition|].
    rewrite IH. intuition.
Qed.

Lemma saveVector_other_profile db x profileId :
  ~ In (ve_id x) (map ve_id db) ->
  ve_profileId x <> profileId ->
  getVectorsByProfile (saveVector db x) profileId = getVectorsByProfile db profileId.
Proof.
  unfold getVectorsByProfile. intros Hfresh Hother.
  assert (String.eqb (ve_profileId x) profileId = false) as Hx
      by (apply String.eqb_neq; exact Hother).
  induction db as [|y db IH]; simpl in *; [rewrite Hx; reflexivity|].
  destruct (String.eqb_spec (ve_id y) (ve_id x)) as [Heq|Hne]; [tauto|].
  destruct (String.ltb (ve_id x) (ve_id y)); simpl; [rewrite Hx; reflexivity|].
  rewrite IH by tauto. reflexivity.
Qed.

Lemma fold_saveVector_fresh entries db :
  List.NoDup (map ve_id entries) ->
  (forall e, In e entries -> ~ In (ve_id e) (map ve_id db)) ->
  (forall v, In v (fold_left saveVector entries db) <-> In v entries \/ In v db) /\
  (forall profileId,
      Forall (fun e => ve_profileId e <> profileId) entries ->
      getVectorsByProfile (fold_left saveVector entries db) profileId
      = getVectorsByProfile db profileId).
Proof.
  revert db. induction entries as [|e entries IH]; intros db Hnd Hfresh; simpl.
  { split; [intuition | reflexivity]. }
  inversion Hnd as [|? ? Hnot Hnd']; subst.
  assert (~ In (ve_id e) (map ve_id db)) as He by (apply Hfresh; left; reflexivity).
  destruct (IH (saveVector db e) Hnd') as [Hin Hother].
  { intros e' He' Hclash. apply saveVector_ids in Hclash as [Hclash|Hclash].
    - apply Hnot. rewrite <- Hclash. apply in_map. exact He'.
    - apply (Hfresh e'); [right; exact He' | exact Hclash]. }
  split.
  - intros v. rewrite Hin, saveVector_In_fresh by exact He. intuition.
  - intros profileId Hall. inversion Hall as [|? ? Hprof Hall']; subst.
    rewrite Hother by exact Hall'. apply saveVector_other_profile; assumption.
Qed.

Lemma fold_delete_lookup (entries : list VectorEntry) (c : gmap string (list VectorEntry))
      profileId :
  (exists e, In e entries /\ ve_profileId e = profileId) ->
  fold_left (fun c e => base.delete (ve_profileId e) c) entries c !! profileId = None.
Proof.
  assert (forall (l : list VectorEntry) (c0 : gmap string (list VectorEntry)),
             c0 !! profileId = None ->
             fold_left (fun c e => base.delete (ve_profileId e) c) l c0 !! profileId = None)
    as Hstays.
  { induction l as [|x l IHl]; intros c0 Hc0; simpl; [exact Hc0|].
    apply IHl. destruct (decide (ve_profileId x = profileId)) as [->|Hne].
    - apply lookup_delete_eq.
    - rewrite lookup_delete_ne by exact Hne. exact Hc0. }
  revert c. induction entries as [|x entries IH]; intros c (e & Hin & He); simpl.
  { destruct Hin. }
  destruct Hin as [->|Hin].
  - apply Hstays. rewrite He. apply lookup_delete_eq.
  - apply IH. exists e. split; assumption.
Qed.

Lemma NoDup_map_inj {A B} (f : A -> B) l a b :
  List.NoDup (map f l) -> In a l -> In b l -> f a = f b -> a = b.
Proof.
  induction l as [|x l IH]; simpl; [tauto|].
  intros Hnd Ha Hb Hf. inversion Hnd as [|? ? Hnot Hnd']; subst.
  destruct Ha as [->|Ha], Hb as [->|Hb]; try reflexivity.
  - exfalso. apply Hnot. rewrite Hf. apply in_map. exact Hb.
  - exfalso. apply Hnot. rewrite <- Hf. apply in_map. exact Ha.
  - apply IH; assumption.
Qed.

Lemma NoDup_map_filter {A B} (f : A -> B) (p : A -> bool) l :
  List.NoDup (map f l) -> List.NoDup (map f (List.filter p l)).
Proof.
  induction l as [|x l IH]; simpl; [constructor|].
  intros Hnd. inversion Hnd as [|? ? Hnot Hnd']; subst.
  destruct (p x); simpl; [|apply IH, Hnd'].
  constructor; [|apply IH, Hnd'].
  intros Hin. apply Hnot. apply in_map_iff in Hin as (y & Hy & Hin).
  apply List.filter_In in Hin as [Hin _]. rewrite <- Hy. apply in_map. exact Hin.
Qed.

Lemma count_types_total vectors l d k :
  let '(l', d', k') := count_types vectors l d k in
  (l' + d' + k' = l + d + k + length vectors)%nat.
Proof.
  revert l d k. induction vectors as [|v vectors IH]; intros l d k; simpl; [lia|].
  destruct (sourceType v).
  - specialize (IH (S l) d k). destruct (count_types vectors (S l) d k) as [[? ?] ?]. lia.
  - specialize (IH l (S d) k). destruct (count_types vectors l (S d) k) as [[? ?] ?]. lia.
  - specialize (IH l d (S k)). destruct (count_types vectors l d (S k)) as [[? ?] ?]. lia.
Qed.

Lemma SourceType_eqb_eq a b : SourceType_eqb a b = true <-> a = b.
Proof. destruct a, b; simpl; split; intros H; try reflexivity; discriminate H. Qed.

(** What [deleteBySourceType] leaves: the store without the records of
    the profile and with the remaining vectors saved again, and no
    cached array for the profile. *)
Lemma deleteBySourceType_result st db profileId t :
  let remaining :=
    List.filter (fun v => negb (SourceType_eqb (sourceType v) t))
                (snd (getVectors st db profileId)) in
  Forall (fun v => ve_profileId v = profileId) remaining ->
  snd (deleteBySourceType st db profileId t)
  = fold_left saveVector remaining (deleteVectorsByProfile db profileId) /\
  cache (fst (deleteBySourceType st db profileId t)) !! profileId = None.
Proof.
  cbv zeta. unfold deleteBySourceType.
  destruct (getVectors st db profileId) as [st1 vectors]. simpl.
  destruct (List.filter _ vectors) as [|r0 rest]; intros Hall.
  - simpl. split; [reflexivity | apply lookup_delete_eq].
  - unfold upsertBatch. split; [reflexivity|]. cbn [fst cache].
    apply fold_delete_lookup. exists r0. split; [left; reflexivity|].
    inversion Hall; assumption.
Qed.

End VectorWrites.

(** X22: an upserted vector is read back, and a deleted one is not gone.
    After upsert, getVectors of the profile returns the entry, whether
    or not the profile was cached; and after delete of that entry, once
    the in-memory cache is cleared, getVectors returns it again: delete
    only edits the cached array and never reaches the vectors store. *)
Theorem X22_upsert_is_read_back_and_delete_is_not_durable
  (st : VectorStore.State) (db : list VectorEntry) (entry : VectorEntry) :
  let st1 := fst (VectorStore.upsert st db entry) in
  let db1 := snd (VectorStore.upsert st db entry) in
  In entry (snd (VectorStore.getVectors st1 db1 (ve_profileId entry))) /\
  In entry
     (snd (VectorStore.getVectors
             (VectorStore.clearCache
                (VectorStore.delete st1 (ve_id entry) (ve_profileId entry)))
             db1 (ve_profileId entry))).
Proof.
  cbv zeta.
  assert (In entry (VectorStore.getVectorsByProfile (VectorStore.saveVector db entry)
                                                     (ve_profileId entry))) as Hstored.
  { apply getVectorsByProfile_In. split; [apply saveVector_In_self | reflexivity]. }
  split.
  - unfold VectorStore.upsert, VectorStore.getVectors.
    destruct (VectorStore.cache st !! ve_profileId entry) as [cached|] eqn:Hcache; simpl.
    + rewrite lookup_insert_eq. simpl. apply upsert_cached_In_self.
    + rewrite Hcache. simpl. exact Hstored.
  - unfold VectorStore.getVectors, VectorStore.clearCache. simpl.
    rewrite lookup_empty. simpl.
    unfold VectorStore.upsert.
    destruct (VectorStore.cache st !! ve_profileId entry); simpl; exact Hstored.
Qed.



(** X23: deleteBySourceType, on a vectors store with distinct ids and a
    cache that is absent or agrees with the store for the profile.
    Afterwards getVectors returns exactly the former vectors of the
    profile that are not of the deleted source type, and the vectors of
    every other profile are as before. *)
Theorem X23_deleteBySourceType_removes_one_type
  (st : VectorStore.State) (db : list VectorEntry) (profileId : string) (t : SourceType) :
  List.NoDup (map ve_id db) ->
  snd (VectorStore.getVectors st db profileId) = VectorStore.getVectorsByProfile db profileId ->
  let st' := fst (VectorStore.deleteBySourceType st db profileId t) in
  let db' := snd (VectorStore.deleteBySourceType st db profileId t) in
  (forall v, In v (snd (VectorStore.getVectors st' db' profileId)) <->
             In v (VectorStore.getVectorsByProfile db profileId) /\ sourceType v <> t) /\
  (forall other, other <> profileId ->
     VectorStore.getVectorsByProfile db' other = VectorStore.getVectorsByProfile db other).
Proof.
  intros Hnd Hcoherent. cbv zeta.
  pose proof (deleteBySourceType_result st db profileId t) as Hresult.
  cbv zeta in Hresult. rewrite Hcoherent in Hresult.
  set (remaining := List.filter _ (VectorStore.getVectorsByProfile db profileId)) in *.
  set (db1 := VectorStore.deleteVectorsByProfile db profileId) in *.
  assert (forall v, In v remaining <->
                    In v (VectorStore.getVectorsByProfile db profileId) /\ sourceType v <> t)
    as Hremaining.
  { intros v. unfold remaining. rewrite List.filter_In, negb_true_iff.
    rewrite <- SourceType_eqb_eq. destruct (VectorStore.SourceType_eqb (sourceType v) t);
      intuition congruence. }
  assert (forall v, In v db1 <-> In v db /\ ve_profileId v <> profileId) as Hdb1.
  { intros v. unfold db1, VectorStore.deleteVectorsByProfile.
    rewrite List.filter_In, negb_true_iff, String.eqb_neq. reflexivity. }
  assert (forall v, In v remaining -> In v db /\ ve_profileId v = profileId) as Hsub.
  { intros v Hv. apply Hremaining in Hv as [Hv _].
    apply getVectorsByProfile_In in Hv. exact Hv. }
  assert (Forall (fun v => ve_profileId v = profileId) remaining) as Hall.
  { apply List.Forall_forall. intros v Hv. apply Hsub, Hv. }
  destruct (Hresult Hall) as [Hdb' Hcache]. clear Hresult.
  assert (List.NoDup (map ve_id remaining)) as Hnd_remaining.
  { unfold remaining, VectorStore.getVectorsByProfile.
    apply NoDup_map_filter, NoDup_map_filter, Hnd. }
  assert (forall e, In e remaining -> ~ In (ve_id e) (map ve_id db1)) as Hfresh.
  { intros e He Hclash. apply in_map_iff in Hclash as (w & Hid & Hw).
    apply Hdb1 in Hw as [Hw Hprof]. apply Hsub in He as [He Hpe].
    apply Hprof. rewrite (NoDup_map_inj ve_id db w e Hnd Hw He Hid). exact Hpe. }
  destruct (fold_saveVector_fresh remaining db1 Hnd_remaining Hfresh) as [Hin Hother].
  split.
  - intros v. unfold VectorStore.getVectors. rewrite Hcache. simpl.
    rewrite Hdb', getVectorsByProfile_In, Hin, <- Hremaining.
    split.
    + intros [[Hv|Hv] Hp]; [exact Hv|]. apply Hdb1 in Hv as [_ Hv]. contradiction.
    + intros Hv. split; [left; exact Hv | apply Hsub, Hv].
  - intros other Hne. rewrite Hdb', Hother.
    + unfold db1, VectorStore.deleteVectorsByProfile, VectorStore.getVectorsByProfile.
      clear -Hne. induction db as [|x db IH]; simpl; [reflexivity|].
      destruct (String.eqb_spec (ve_profileId x) profileId) as [Hp|Hp]; simpl.
      * destruct (String.eqb_spec (ve_profileId x) other) as [Ho|Ho];
          [congruence | exact IH].
      * destruct (String.eqb (ve_profileId x) other); rewrite IH; reflexivity.
    + eapply List.Forall_impl; [|exact Hall]. simpl. intros v Hv. congruence.
Qed.

Lemma X23_deleteBySourceType_removes_one_type_witness :
  map ve_id
      (snd (VectorStore.getVectors
              (fst (VectorStore.deleteBySourceType
                      {| VectorStore.cache := ∅ |} Sample.stored_vectors "p1" st_document))
              (snd (VectorStore.deleteBySourceType
                      {| VectorStore.cache := ∅ |} Sample.stored_vectors "p1" st_document))
              "p1"))
  = ["b-example"] /\
  VectorStore.getVectorsByProfile
    (snd (VectorStore.deleteBySourceType
            {| VectorStore.cache := ∅ |} Sample.stored_vectors "p1" st_document)) "p2"
  = VectorStore.getVectorsByProfile Sample.stored_vectors "p2".
Proof.
  split; [vm_compute; reflexivity|].
  apply (X23_deleteBySourceType_removes_one_type
           {| VectorStore.cache := ∅ |} Sample.stored_vectors "p1" st_document).
  - repeat constructor; simpl; intuition discriminate.
  - reflexivity.
  - discriminate.
Defined.

(** X24: the statistics of a profile add up: the three counts by source
    type sum to the vector count, which is the number of vectors that
    getVectors returns for the profile. *)
Theorem X24_getStats_counts_add_up
  (st : VectorStore.State) (db : list VectorEntry) (profileId : string) :
  let stats := snd (VectorStore.getStats st db profileId) in
  (VectorStore.learned_example_count stats + VectorStore.document_count stats
   + VectorStore.knowledge_base_count stats = VectorStore.vectorCount stats)%nat /\
  VectorStore.vectorCount stats = length (snd (VectorStore.getVectors st db profileId)).
Proof.
  cbv zeta. unfold VectorStore.getStats.
  destruct (VectorStore.getVectors st db profileId) as [st' vectors].
  pose proof (count_types_total vectors 0 0 0) as Htotal.
  destruct (VectorStore.count_types vectors 0 0 0) as [[l d] k]. simpl.
  split; [lia | reflexivity].
Qed.

(** X25: after the first search for a profile, searches are answered
    from the in-memory cache: the same query gives the same result and
    leaves the state as it is, whatever the vectors store holds by
    then. *)
Theorem X25_search_is_served_from_the_cache
  (st : VectorStore.State) (db db' : list VectorEntry)
  (profileId : string) (queryEmbedding : list float) (topK : Z) (threshold : float) :
  let first := VectorStore.search st db profileId queryEmbedding topK threshold in
  VectorStore.search (fst first) db' profileId queryEmbedding topK threshold = first.
Proof.
  cbv zeta. unfold VectorStore.search, VectorStore.getVectors.
  destruct (VectorStore.cache st !! profileId) as [cached|] eqn:Hcache; simpl.
  - rewrite Hcache. reflexivity.
  - rewrite lookup_insert_eq. reflexivity.
Qed.


(** ** background/index.ts: the mappings sent to the page *)

Section Trigger.
Import FieldMapper MergeSpec ValidateSpec.

Lemma mapFields_fields pf fs :
  Forall (fun m => In (fieldSignature m) fs) (mapFields pf fs).
Proof.
  apply List.Forall_forall. intros m Hm.
  pose proof (mapFields_sublist pf fs) as Hsub.
  apply (sublist_submseteq) in Hsub.
  apply list_elem_of_In. eapply elem_of_submseteq; [|exact Hsub].
  apply list_elem_of_In. apply in_map. exact Hm.
Qed.

Lemma findClass_In c fs f : findClass c fs = Some f -> In f fs.
Proof. unfold findClass. intros H. apply List.find_some in H. tauto. Qed.

Lemma Forall_snoc_field fs l f v c :
  Forall (fun m => In (fieldSignature m) fs) l -> In f fs ->
  Forall (fun m => In (fieldSignature m) fs) (l ++ [mkStatic f v c]).
Proof.
  intros Hl Hf. apply Forall_app. split; [exact Hl|]. constructor; [exact Hf | constructor].
Qed.

Lemma createSuggestedMappings_fields fs p :
  Forall (fun m => In (fieldSignature m) fs) (createSuggestedMappings fs p).
Proof.
  pose proof (mapFields_fields (sc_fields (staticContext p)) fs) as Hbase.
  unfold createSuggestedMappings, mapFieldsToProfile.
  set (base := mapFields _ fs) in *.
  repeat match goal with
         | |- Forall _ (match ?x with _ => _ end) => destruct x eqn:?
         | |- Forall _ (if ?x then _ else _) => destruct x eqn:?
         | |- Forall _ (_ ++ [_]) =>
             apply Forall_snoc_field; [|eapply findClass_In; eassumption]
         | |- Forall _ base => exact Hbase
         end.
Qed.

Lemma merge_ids_NoDup llm static :
  List.NoDup (map fid (ResponseValidator.mergeWithStaticMappings llm static)).
Proof.
  unfold ResponseValidator.mergeWithStaticMappings.
  destruct (merge_wf llm static) as [Hnd Hkeyed].
  rewrite (keyed_ids _ Hkeyed). exact Hnd.
Qed.

End Trigger.

(** X27: the mappings that the TRIGGER_FILL handler sends to the page,
    for a form whose field ids are pairwise distinct.  No field is
    mapped twice, every mapping is for a field of the detected form, and
    a mapping with source llm is for a field that is neither on the
    denylist nor of class password. *)
Theorem X27_trigger_fill_maps_each_field_once
  (client_init : Result unit) (isConfigured : bool)
  (chatCompletion :
     list LLMOrchestrator.ChatMessage -> Result LLMOrchestrator.ChatCompletionResponse)
  (parseJSON : string -> Result (list (string * string)))
  (Number_isNaN : string -> bool)
  (JSON_stringify : list PromptBuilder.FieldSchemaEntry -> string)
  (st : LLMOrchestrator.State) (form : FormSignature) (profile : Profile) :
  List.NoDup (map fs_id (fields form)) ->
  let final :=
    snd (fst (Background.finalMappings client_init isConfigured chatCompletion parseJSON
                                       Number_isNaN JSON_stringify st form profile)) in
  List.NoDup (map MergeSpec.fid final) /\
  Forall (fun m => In (fieldSignature m) (fields form)) final /\
  Forall (fun m => source m = src_llm ->
                   FieldDenylist.isFieldDenylisted (fieldSignature m) = false /\
                   semanticClass (fieldSignature m) <> password) final.
Proof.
  intros Hnd. cbv zeta. unfold Background.finalMappings.
  set (static := FieldMapper.createSuggestedMappings (fields form) profile).
  set (unmapped := Background.unmappedFields form static).
  pose proof (createSuggestedMappings_ids_NoDup (fields form) profile Hnd) as Hstatic_nd.
  pose proof (createSuggestedMappings_fields (fields form) profile) as Hstatic_in.
  pose proof (createSuggestedMappings_shape (fields form) profile) as Hstatic_src.
  fold static in Hstatic_nd, Hstatic_in, Hstatic_src.
  assert (Forall (fun m => source m = src_llm ->
                           FieldDenylist.isFieldDenylisted (fieldSignature m) = false /\
                           semanticClass (fieldSignature m) <> password) static)
    as Hstatic_llm.
  { eapply List.Forall_impl; [|exact Hstatic_src]. simpl. intros m [Hs _] Hl. congruence. }
  assert (forall f, In f unmapped ->
                    In f (fields form) /\ ~ In (fs_id f) (map MergeSpec.fid static) /\
                    semanticClass f <> password) as Hunmapped.
  { intros f Hf. unfold unmapped, Background.unmappedFields in Hf.
    apply List.filter_In in Hf as [Hin Hcond].
    apply andb_true_iff in Hcond as [Hnot Hpw]. split; [exact Hin|]. split.
    - intros Hmapped. apply negb_true_iff in Hnot.
      assert (existsb (String.eqb (fs_id f))
                      (map (fun m => fs_id (fieldSignature m)) static) = true) as Hyes.
      { apply existsb_exists. exists (fs_id f). split; [exact Hmapped | apply String.eqb_refl]. }
      congruence.
    - intros Hclass. rewrite Hclass in Hpw. discriminate. }
  assert (List.NoDup (map fs_id unmapped)) as Hunmapped_nd.
  { unfold unmapped, Background.unmappedFields. apply NoDup_map_filter, Hnd. }
  destruct (Nat.ltb 0 (length unmapped) && LLMOrchestrator.isAvailable isConfigured);
    [|simpl; repeat split; assumption].
  match goal with
  | |- context [LLMOrchestrator.fill _ _ _ _ _ _ _ ?req] => set (request := req)
  end.
  destruct (LLMOrchestrator.fill client_init isConfigured chatCompletion parseJSON
                                 Number_isNaN JSON_stringify st request)
    as [st' [r|e]] eqn:Hfill; [|simpl; repeat split; assumption].
  simpl.
  assert (snd (LLMOrchestrator.fill client_init isConfigured chatCompletion parseJSON
                                    Number_isNaN JSON_stringify st request) = Ok r) as Hr
      by (rewrite Hfill; reflexivity).
  pose proof (createSuggestedMappings_ids_NoDup unmapped profile Hunmapped_nd) as Hsub_nd.
  pose proof (createSuggestedMappings_fields unmapped profile) as Hsub_in.
  pose proof (createSuggestedMappings_shape unmapped profile) as Hsub_src.
  assert (List.NoDup (map MergeSpec.fid (LLMOrchestrator.mappings r)) /\
          Forall (fun m => In (fieldSignature m) unmapped /\
                           (source m = src_llm ->
                            FieldDenylist.isFieldDenylisted (fieldSignature m) = false))
                 (LLMOrchestrator.mappings r)) as [Hai_nd Hai].
  { apply fill_cases in Hr as [[reason ->]|(raw & _ & Hmerge)].
    - simpl. split; [exact Hsub_nd|].
      apply List.Forall_forall. intros m Hm.
      rewrite List.Forall_forall in Hsub_in, Hsub_src.
      split; [apply Hsub_in, Hm|]. intros Hl. destruct (Hsub_src m Hm) as [Hs _]. congruence.
    - rewrite Hmerge. split; [apply merge_ids_NoDup|].
      apply List.Forall_forall. intros m Hm. apply merge_values in Hm as [Hm|Hm].
      + pose proof (proj1 (validate_mappings parseJSON Number_isNaN raw
                             (LLMOrchestrator.formSignature request))) as Hsound.
        rewrite List.Forall_forall in Hsound.
        destruct (Hsound m Hm) as (Hin & Hdeny & _). split; [exact Hin | intros _; exact Hdeny].
      + rewrite List.Forall_forall in Hsub_in, Hsub_src.
        split; [apply Hsub_in, Hm|]. intros Hl. destruct (Hsub_src m Hm) as [Hs _].
        simpl in Hs. congruence. }
  rewrite List.Forall_forall in Hai.
  split; [|split].
  - rewrite map_app. apply NoDup_ListNoDup, NoDup_app. repeat split.
    + apply NoDup_ListNoDup, Hstatic_nd.
    + intros i Hi Hi'. apply list_elem_of_In in Hi, Hi'.
      apply in_map_iff in Hi' as (m & <- & Hm).
      destruct (Hai m Hm) as [Hin _]. apply Hunmapped in Hin as (_ & Hfresh & _).
      apply Hfresh. exact Hi.
    + apply NoDup_ListNoDup, Hai_nd.
  - apply Forall_app. split; [exact Hstatic_in|].
    apply List.Forall_forall. intros m Hm. destruct (Hai m Hm) as [Hin _].
    apply Hunmapped, Hin.
  - apply Forall_app. split; [exact Hstatic_llm|].
    apply List.Forall_forall. intros m Hm Hl. destruct (Hai m Hm) as [Hin Hdeny].
    split; [apply Hdeny, Hl | apply Hunmapped, Hin].
Qed.

Lemma X27_trigger_fill_maps_each_field_once_witness :
  List.NoDup
    (map MergeSpec.fid
       (snd (fst (Background.finalMappings
                    Sample.client_ready true Sample.answers_notes Sample.parse_notes
                    Sample.never_a_number Sample.stringify LLMOrchestrator.fresh
                    (Sample.form_of [Sample.text_field "f-notes"])
                    (Sample.profile_of [Sample.plain "email" "j@x.com"]))))).
Proof.
  apply (X27_trigger_fill_maps_each_field_once
           Sample.client_ready true Sample.answers_notes Sample.parse_notes
           Sample.never_a_number Sample.stringify LLMOrchestrator.fresh
           (Sample.form_of [Sample.text_field "f-notes"])
           (Sample.profile_of [Sample.plain "email" "j@x.com"])).
  repeat constructor. simpl. tauto.
Defined.


(** ** background/services/OpenRouterClient.ts: retries *)

Example scenario_rate_limited_twice :
  OpenRouterClient.makeRequest Sample.limited_twice
  = {| OpenRouterClient.outcome := OpenRouterClient.returned "gen-1";
       OpenRouterClient.calls := 3;
       OpenRouterClient.sleeps := [1000; 2000] |}.
Proof. vm_compute. reflexivity. Qed.

Example scenario_unauthorized :
  OpenRouterClient.makeRequest Sample.unauthorized
  = {| OpenRouterClient.outcome :=
         OpenRouterClient.thrown
           (OpenRouterClient.api_error
              {| OpenRouterClient.api_message := "Invalid API key";
                 OpenRouterClient.api_code := INVALID_API_KEY;
                 OpenRouterClient.api_status := Some 401;
                 OpenRouterClient.retryable := false |});
       OpenRouterClient.calls := 1;
       OpenRouterClient.sleeps := [] |}.
Proof. vm_compute. reflexivity. Qed.

Section Retries.
Import OpenRouterClient RetrySpec.

Variable T : Type.
Variable fetch : nat -> FetchResult T.

Lemma attempts_well_ended remaining attempt lastError slept :
  (attempt + remaining = MAX_RETRIES)%nat ->
  (forall i, (i < attempt)%nat -> retried (fetch i)) ->
  (attempt = 0%nat \/
   exists e, lastError = Some e /\ failure (fetch (attempt - 1)) = Some e) ->
  slept = firstn attempt [1000; 2000] ->
  (remaining = 0%nat -> attempt <> 0%nat) ->
  well_ended fetch (attempts fetch remaining attempt lastError slept).
Proof.
  revert attempt lastError slept.
  induction remaining as [|remaining IH]; intros attempt lastError slept Hsum Hretried Hlast
                                                 Hslept Hpos.
  - simpl. unfold well_ended. simpl.
    destruct Hlast as [H0|(e & -> & He)]; [exfalso; apply Hpos; [reflexivity | exact H0]|].
    unfold MAX_RETRIES in *. rewrite Nat.add_0_r in Hsum. subst attempt. simpl.
    repeat split; try lia; try assumption.
    intros i Hi. apply Hretried. lia.
  - assert (forall o,
               match o with
               | returned data =>
                   exists r, fetch attempt = responds r /\ ok r = true /\
                             json r = returned data
               | thrown e => failure (fetch attempt) = Some e /\ retries e = false
               end ->
               well_ended fetch {| outcome := o; calls := S attempt; sleeps := slept |}) as Hexit.
    { intros o Ho. unfold well_ended. simpl. rewrite Nat.sub_0_r.
      unfold MAX_RETRIES in *. repeat split; try lia; try assumption.
      destruct o as [data|e]; [exact Ho|]. destruct Ho as [Hf Hr]. split; [exact Hf | left; exact Hr]. }
    assert (forall e, failure (fetch attempt) = Some e -> retries e = true ->
               well_ended fetch
                 (attempts fetch remaining (S attempt) (Some e)
                    (if Nat.ltb attempt (MAX_RETRIES - 1)
                     then slept ++ [RETRY_DELAY_MS * RETRY_BACKOFF_MULTIPLIER ^ Z.of_nat attempt]
                     else slept))) as Hnext.
    { intros e Hf Hr. apply IH.
      - lia.
      - intros i Hi. destruct (Nat.eq_dec i attempt) as [->|Hne].
        + exists e. split; assumption.
        + apply Hretried. lia.
      - right. exists e. simpl. rewrite Nat.sub_0_r. split; [reflexivity | exact Hf].
      - subst slept. unfold MAX_RETRIES in *.
        destruct attempt as [|[|[|attempt]]]; reflexivity || lia.
      - intros _. discriminate. }
    assert (forall e, failure (fetch attempt) = Some e ->
               well_ended fetch
                 (match e with
                  | api_error a =>
                      if negb (retryable a)
                      then {| outcome := thrown e; calls := S attempt; sleeps := slept |}
                      else attempts fetch remaining (S attempt) (Some e)
                             (if Nat.ltb attempt (MAX_RETRIES - 1)
                              then slept ++ [RETRY_DELAY_MS
                                             * RETRY_BACKOFF_MULTIPLIER ^ Z.of_nat attempt]
                              else slept)
                  | other_error _ =>
                      attempts fetch remaining (S attempt) (Some e)
                        (if Nat.ltb attempt (MAX_RETRIES - 1)
                         then slept ++ [RETRY_DELAY_MS
                                        * RETRY_BACKOFF_MULTIPLIER ^ Z.of_nat attempt]
                         else slept)
                  end)) as Hcaught.
    { intros [a|message] Hf.
      - destruct (retryable a) eqn:Hretry; simpl.
        + apply Hnext; [exact Hf | exact Hretry].
        + apply (Hexit (thrown (api_error a))). split; [exact Hf | exact Hretry].
      - apply Hnext; [exact Hf | reflexivity]. }
    cbn [attempts].
    destruct (fetch attempt) as [r|e] eqn:Hfetch.
    + destruct (ok r) eqn:Hok; simpl negb; cbv iota.
      * destruct (json r) as [data|e] eqn:Hjson.
        -- apply (Hexit (returned data)). exists r. repeat split; assumption.
        -- apply Hcaught. simpl. rewrite Hok, Hjson. reflexivity.
      * destruct (retryable (parseErrorResponse r)) eqn:Hretry; simpl negb; cbv iota.
        -- apply Hnext; [simpl; rewrite Hok; reflexivity | exact Hretry].
        -- pose proof (Hcaught (api_error (parseErrorResponse r))) as Hc.
           simpl in Hc. rewrite Hok, Hretry in Hc. simpl in Hc. apply Hc. reflexivity.
    + apply Hcaught. reflexivity.
Qed.

End Retries.

(** X26: makeRequest calls fetch at least once and at most three times,
    and sleeps 1000 ms after the first and 2000 ms after the second
    failed attempt, at most 3000 ms in all.  Every attempt before the
    last failed with an error that is retried (statuses 429, 500, 502,
    503, 504 and errors that are not OpenRouterErrors).  It returns the
    data of the last reply only when that reply has a 2xx status, and
    the error it throws is the error of the last attempt, which is not
    retryable unless all three attempts were used. *)
Theorem X26_makeRequest_retries_are_bounded
  (T : Type) (fetch : nat -> OpenRouterClient.FetchResult T) :
  RetrySpec.well_ended fetch (OpenRouterClient.makeRequest fetch) /\
  (forall r : OpenRouterClient.Response T,
     OpenRouterClient.retryable (OpenRouterClient.parseErrorResponse r) = true <->
     In (OpenRouterClient.status r) [429; 500; 502; 503; 504]).
Proof.
  split.
  - apply attempts_well_ended.
    + reflexivity.
    + intros i Hi. lia.
    + left. reflexivity.
    + reflexivity.
    + discriminate.
  - intros r. unfold OpenRouterClient.parseErrorResponse. simpl.
    repeat match goal with
           | |- context [Z.eqb ?a ?b] => destruct (Z.eqb_spec a b)
           | |- context [if JS.includes ?a ?b then _ else _] => destruct (JS.includes a b)
           end; simpl; split; intros H; try discriminate; try reflexivity;
      try (exfalso; lia); try (intuition congruence); try tauto.
Qed.


(** ** content/FillExecutor.ts: what the report accounts for *)

Section Report.
Import FillExecutor.

Variable Element : Type.
Variable findFieldElement : nat -> FieldSignature -> option Element.
Variable fillField : nat -> Element -> string -> Result unit.
Variable onProgress : option (nat -> nat -> string -> Result unit).
Variable String_of : JsError -> string.

Lemma executeFill_loop_accounts i total mappings filled errs calls :
  let r := fst (executeFill_loop Element findFieldElement fillField onProgress String_of
                                 i total mappings filled errs calls) in
  let n := length (attempted mappings) in
  (filled <= fst r <= filled + n)%nat /\
  (length errs <= length (snd r) <= length errs + n)%nat /\
  (filled + length errs + n <= fst r + length (snd r))%nat /\
  (onProgress = None -> fst r + length (snd r) = filled + length errs + n)%nat /\
  (length (snd r) = length errs -> fst r = filled + n)%nat.
Proof.
  revert i filled errs calls.
  induction mappings as [|mapping rest IH]; intros i filled errs calls; cbv zeta.
  { simpl. repeat split; lia. }
  unfold attempted in *. simpl.
  destruct (FieldDenylist.isFieldDenylisted (fieldSignature mapping)); simpl.
  { apply IH. }
  destruct (findFieldElement i (fieldSignature mapping)) as [element|].
  2:{ specialize (IH (S i) filled
                     (errs ++ ["Field not found: "
                               +:+ normalizedLabel (fieldSignature mapping)])
                     (calls ++ [find_element (fieldSignature mapping)])).
      cbv zeta in IH. rewrite length_app in IH. simpl in IH.
      destruct IH as (H1 & H2 & H3 & H4 & H5).
      repeat split; try lia; intros Hnone; specialize (H4 Hnone); lia. }
  set (calls' := (calls ++ [find_element (fieldSignature mapping)])
                 ++ [fill_field (fieldSignature mapping) (value mapping)]).
  destruct (fillField i element (value mapping)) as [[]|e].
  2:{ specialize (IH (S i) filled (errs ++ [failed String_of mapping e]) calls').
      cbv zeta in IH. rewrite length_app in IH. simpl in IH.
      destruct IH as (H1 & H2 & H3 & H4 & H5).
      repeat split; try lia; intros Hnone; specialize (H4 Hnone); lia. }
  assert (forall r0,
             r0 = fst (executeFill_loop Element findFieldElement fillField onProgress
                                        String_of (S i) total rest (S filled) errs calls') ->
             (filled <= fst r0 <= filled + S (length (attempted rest)))%nat /\
             (length errs <= length (snd r0) <= length errs + S (length (attempted rest)))%nat /\
             (filled + length errs + S (length (attempted rest))
              <= fst r0 + length (snd r0))%nat /\
             (onProgress = None ->
              fst r0 + length (snd r0)
              = filled + length errs + S (length (attempted rest)))%nat /\
             (length (snd r0) = length errs ->
              fst r0 = filled + S (length (attempted rest)))%nat) as Hfilled.
  { intros r0 ->. specialize (IH (S i) (S filled) errs calls'). cbv zeta in IH.
    unfold attempted in *.
    destruct IH as (H1 & H2 & H3 & H4 & H5).
    repeat split; try lia; intros Hnone; specialize (H4 Hnone); lia. }
  fold (attempted rest).
  destruct onProgress as [callback|] eqn:Hprogress; [|apply Hfilled; reflexivity].
  destruct (callback (S i) total (normalizedLabel (fieldSignature mapping))) as [[]|e];
    [apply Hfilled; reflexivity|].
  specialize (IH (S i) (S filled) (errs ++ [failed String_of mapping e]) calls').
  cbv zeta in IH. rewrite length_app in IH. simpl in IH. unfold attempted in *.
  destruct IH as (H1 & H2 & H3 & H4 & H5). repeat split; try lia; discriminate.
Qed.

End Report.

(** X28: the report of executeFill accounts for every mapping whose
    field is not on the denylist, and for no other.  With n such
    mappings, at most n fields are counted as filled and at most n
    errors are reported, and together they are at least n; without a
    progress callback they are exactly n; and when success is reported,
    exactly n fields were filled: denylisted mappings are skipped
    without a trace in the report. *)
Theorem X28_executeFill_report_accounts_for_attempted
  (Element : Type) (findFieldElement : nat -> FieldSignature -> option Element)
  (fillField : nat -> Element -> string -> Result unit)
  (onProgress : option (nat -> nat -> string -> Result unit))
  (String_of : JsError -> string) (mappings : list FieldMapping) :
  let report := FillExecutor.executeFill Element findFieldElement fillField onProgress
                                         String_of mappings in
  let n := length (FillExecutor.attempted mappings) in
  (FillExecutor.filledCount report <= n)%nat /\
  (length (FillExecutor.errors report) <= n)%nat /\
  (n <= FillExecutor.filledCount report + length (FillExecutor.errors report))%nat /\
  (onProgress = None ->
   FillExecutor.filledCount report + length (FillExecutor.errors report) = n)%nat /\
  (FillExecutor.success report = true -> FillExecutor.filledCount report = n).
Proof.
  cbv zeta. unfold FillExecutor.executeFill.
  pose proof (executeFill_loop_accounts Element findFieldElement fillField onProgress
                String_of 0 (length mappings) mappings 0 [] []) as H.
  cbv zeta in H.
  destruct (FillExecutor.executeFill_loop _ _ _ _ _ _ _ _ _ _ _) as [[filled errs] calls].
  simpl in *. destruct H as (H1 & H2 & H3 & H4 & H5).
  split; [lia|]. split; [lia|]. split; [lia|]. split.
  - intros Hnone. specialize (H4 Hnone). lia.
  - intros Hok. apply Nat.eqb_eq in Hok. specialize (H5 Hok). lia.
Qed.


(** ** background/services/LearningService.ts *)

Section Learning.
Import LearningService.

Lemma enforce_limit_keeps_newest fuel l max :
  0 <= max ->
  (length l - Z.to_nat max < fuel)%nat ->
  enforce_limit fuel l max = Some (skipn (length l - Z.to_nat max) l).
Proof.
  intros Hmax. revert l. induction fuel as [|fuel IH]; intros l Hfuel; [lia|].
  simpl. destruct (Z.ltb_spec max (Z.of_nat (length l))) as [Hover|Hfits].
  - destruct l as [|x l]; [simpl in Hover; lia|].
    simpl tl. rewrite IH by (simpl in *; lia).
    simpl length in *.
    replace (S (length l) - Z.to_nat max)%nat with (S (length l - Z.to_nat max)) by lia.
    reflexivity.
  - replace (length l - Z.to_nat max)%nat with 0%nat by lia. reflexivity.
Qed.

Lemma enforce_limit_never_ends fuel l max :
  max < 0 -> enforce_limit fuel l max = None.
Proof.
  intros Hmax. revert l. induction fuel as [|fuel IH]; intros l; [reflexivity|].
  simpl. destruct (Z.ltb_spec max (Z.of_nat (length l))) as [_|Hfits]; [apply IH | lia].
Qed.

End Learning.

(** X29: which corrections are learned under the default configuration
    (threshold 0.95).  A correction of a mapping that the validator let
    through, whatever the model answered, is always added to the pending
    edits of the profile.  A correction of a static mapping leaves the
    service as it was exactly when the confidence of the mapping is 1 or
    0.95 (semantic-class and exact-key tiers); at 0.9, 0.8 and 0.7 it is
    added to the pending edits. *)
Theorem X29_recordEdit_learns_below_the_threshold
  (w : LearningService.World) (profileId : string) (edit : LearningService.EditEvent)
  (form : FormSignature) :
  LearningService.config w = LearningService.DEFAULT_CONFIG ->
  let recorded :=
    LearningService.pendingEdits (LearningService.recordEdit w profileId edit) !! profileId
    = Some (default [] (LearningService.pendingEdits w !! profileId) ++ [edit]) in
  (ValidateSpec.sound form (LearningService.originalMapping edit) -> recorded) /\
  (MapperSpec.static_confidence (confidence (LearningService.originalMapping edit)) ->
   (LearningService.recordEdit w profileId edit = w <->
    confidence (LearningService.originalMapping edit) = 1%Q \/
    confidence (LearningService.originalMapping edit) = (95 # 100)%Q) /\
   (LearningService.recordEdit w profileId edit <> w -> recorded)).
Proof.
  intros Hconfig. cbv zeta.
  assert ((confidence (LearningService.originalMapping edit) <= 9 # 10)%Q ->
          LearningService.pendingEdits (LearningService.recordEdit w profileId edit)
            !! profileId
          = Some (default [] (LearningService.pendingEdits w !! profileId) ++ [edit]))
    as Hlow.
  { intros Hle. unfold LearningService.recordEdit. rewrite Hconfig. simpl.
    destruct (Qle_bool (95 # 100) (confidence (LearningService.originalMapping edit)))
      eqn:Hhigh.
    - apply Qle_bool_iff in Hhigh. exfalso.
      assert ((95 # 100 <= 9 # 10)%Q) as Habs by (eapply Qle_trans; eassumption).
      revert Habs. apply Qlt_not_le. reflexivity.
    - simpl. apply lookup_insert_eq. }
  assert (LearningService.pendingEdits (LearningService.recordEdit w profileId edit)
            !! profileId
          = Some (default [] (LearningService.pendingEdits w !! profileId) ++ [edit]) ->
          LearningService.recordEdit w profileId edit <> w) as Hchanged.
  { intros Hrec Hsame. rewrite Hsame in Hrec.
    destruct (LearningService.pendingEdits w !! profileId) as [l|]; [|discriminate].
    simpl in Hrec. injection Hrec as Hl. apply (f_equal (@length _)) in Hl.
    rewrite length_app in Hl. simpl in Hl. lia. }
  assert (confidence (LearningService.originalMapping edit) = 1%Q \/
          confidence (LearningService.originalMapping edit) = (95 # 100)%Q ->
          LearningService.recordEdit w profileId edit = w) as Hhigh.
  { intros Hc. unfold LearningService.recordEdit. rewrite Hconfig. simpl.
    destruct Hc as [-> | ->]; reflexivity. }
  split.
  - intros Hsound. apply Hlow. eapply sound_confidence, Hsound.
  - intros [[Hc|[Hc|[Hc|Hc]]]|Hc].
    + split; [split; [tauto | intros _; apply Hhigh; tauto]|].
      intros Hne. exfalso. apply Hne, Hhigh. tauto.
    + split; [split; [tauto | intros _; apply Hhigh; tauto]|].
      intros Hne. exfalso. apply Hne, Hhigh. tauto.
    + assert ((confidence (LearningService.originalMapping edit) <= 9 # 10)%Q) as Hle
          by (rewrite Hc; apply Qle_bool_iff; reflexivity).
      split; [|intros _; apply Hlow, Hle].
      split; [intros Hsame; exfalso; apply (Hchanged (Hlow Hle)), Hsame|].
      rewrite Hc. intros [H|H]; discriminate H.
    + assert ((confidence (LearningService.originalMapping edit) <= 9 # 10)%Q) as Hle
          by (rewrite Hc; apply Qle_bool_iff; reflexivity).
      split; [|intros _; apply Hlow, Hle].
      split; [intros Hsame; exfalso; apply (Hchanged (Hlow Hle)), Hsame|].
      rewrite Hc. intros [H|H]; discriminate H.
    + assert ((confidence (LearningService.originalMapping edit) <= 9 # 10)%Q) as Hle
          by (rewrite Hc; apply Qle_bool_iff; reflexivity).
      split; [|intros _; apply Hlow, Hle].
      split; [intros Hsame; exfalso; apply (Hchanged (Hlow Hle)), Hsame|].
      rewrite Hc. intros [H|H]; discriminate H.
Qed.

Lemma X29_recordEdit_learns_below_the_threshold_witness :
  LearningService.pendingEdits
    (LearningService.recordEdit (Sample.learning ∅) "p1"
       (Sample.edit_of (Sample.llm_mapping "f-notes" "Call me after 5pm" (9 # 10))
                       "Call me after 6pm")) !! "p1"
  = Some (default [] (LearningService.pendingEdits (Sample.learning ∅) !! "p1")
          ++ [Sample.edit_of (Sample.llm_mapping "f-notes" "Call me after 5pm" (9 # 10))
                             "Call me after 6pm"]).
Proof.
  apply (proj1 (X29_recordEdit_learns_below_the_threshold
                  (Sample.learning ∅) "p1"
                  (Sample.edit_of (Sample.llm_mapping "f-notes" "Call me after 5pm" (9 # 10))
                                  "Call me after 6pm")
                  (Sample.form_of [Sample.text_field "f-notes"]) eq_refl)).
  unfold ValidateSpec.sound. simpl.
  repeat split; [left; reflexivity | discriminate | left; reflexivity].
Defined.

(** X30: commitEdits, for a profile that is stored and has pending
    edits, with a limit that is not negative and an ingestion that
    succeeds.  It returns, the example it returns has one mapping per
    pending edit, in order, each for the field of the edited mapping
    with the new value, confidence 1 and source learned; the pending
    edits of the profile are gone; and the profile keeps the newest
    examples, the new one last, at most the limit.  With a negative
    limit the loop that drops the oldest examples never ends. *)
Theorem X30_commitEdits_keeps_the_newest_examples
  (w : LearningService.World) (profileId randomUUID : string) (now : Z)
  (edits : list LearningService.EditEvent)
  (profileExamples : list LearningService.LearnedExample) :
  LearningService.pendingEdits w !! profileId = Some edits ->
  edits <> [] ->
  LearningService.learnedExamples w !! profileId = Some profileExamples ->
  (0 <= LearningService.maxExamplesPerProfile (LearningService.config w) ->
   exists w' example,
     LearningService.commitEdits (S (S (length profileExamples))) w profileId
                                 randomUUID now (Ok tt)
     = Some (w', Ok (Some example)) /\
     LearningService.fieldMappings example = map LearningService.learned edits /\
     LearningService.pendingEdits w' !! profileId = None /\
     LearningService.learnedExamples w' !! profileId
     = Some (skipn (S (length profileExamples)
                    - Z.to_nat (LearningService.maxExamplesPerProfile
                                  (LearningService.config w)))
                   (profileExamples ++ [example])) /\
     (forall kept, LearningService.learnedExamples w' !! profileId = Some kept ->
                   Z.of_nat (length kept)
                   <= LearningService.maxExamplesPerProfile (LearningService.config w))) /\
  (LearningService.maxExamplesPerProfile (LearningService.config w) < 0 ->
   forall fuel,
     LearningService.commitEdits fuel w profileId randomUUID now (Ok tt) = None).
Proof.
  intros Hpending Hnonempty Hprofile.
  destruct edits as [|first rest]; [congruence|]. split.
  - intros Hmax. unfold LearningService.commitEdits. rewrite Hpending, Hprofile.
    rewrite enforce_limit_keeps_newest; [|exact Hmax|rewrite length_app; simpl; lia].
    rewrite length_app. simpl length.
    replace (length profileExamples + 1)%nat with (S (length profileExamples)) by lia.
    eexists. eexists. split; [reflexivity|]. simpl.
    split; [reflexivity|]. split; [apply lookup_delete_eq|].
    split; [apply lookup_insert_eq|].
    intros kept. rewrite lookup_insert_eq. intros [= <-].
    rewrite length_skipn, length_app. simpl. lia.
  - intros Hmax fuel. unfold LearningService.commitEdits. rewrite Hpending, Hprofile.
    rewrite enforce_limit_never_ends by exact Hmax. reflexivity.
Qed.

Lemma X30_commitEdits_keeps_the_newest_examples_witness :
  exists w' example,
    LearningService.commitEdits 2
      (Sample.learning Sample.one_pending) "p1" "uuid-1" 3000 (Ok tt)
    = Some (w', Ok (Some example)) /\
    LearningService.fieldMappings example
    = [ {| fieldSignature := Sample.text_field "f-notes"; value := "Knock twice";
           confidence := 1; source := src_learned |} ].
Proof.
  destruct (proj1 (X30_commitEdits_keeps_the_newest_examples
                     (Sample.learning Sample.one_pending) "p1" "uuid-1" 3000
                     [Sample.edit_of Sample.bell_mapping "Knock twice"] []
                     ltac:(vm_compute; reflexivity) ltac:(discriminate)
                     ltac:(vm_compute; reflexivity))
                  ltac:(vm_compute; discriminate))
    as (w' & example & Hrun & Hmappings & _).
  exists w', example. split; [exact Hrun | exact Hmappings].
Defined.
